(* ===== verification/_CoqProject ===== *)
-Q . S2P
Prelude.v
JsString.v
JsNumber.v
JsFloat.v
Uri.v
DbPath.v
Like.v
Storage.v
Items.v
Json.v
BodyParser.v
Timestamp.v
Server.v
Router.v
Table.v
Examples.v
