(* ===== verification/Prelude.v ===== *)
(** * A verification development of the BE-test items service

    The program ([src/code-challenge/src/problem5/src]) is a CRUD HTTP
    service for one resource, [items], kept in an SQLite file through
    better-sqlite3.  It has three parts:
    - [db.ts] locates the database file next to its own module
      ([fileURLToPath], [path.dirname], [path.join]), opens it, turns
      on WAL mode and runs a
      bootstrap script: [CREATE TABLE IF NOT EXISTS items] (an
      AUTOINCREMENT rowid, title, description and two timestamps) and an
      AFTER UPDATE trigger that sets [updated_at];
    - [routes/items.ts] holds five route handlers (create, list with a
      search text and a page, get, partial update, delete), each a
      synchronous sequence of prepared statements;
    - [app.ts] stacks the middlewares [cors()], [express.json()] and
      [morgan], answers [GET /health], mounts the router at
      [/api/items] and listens on [PORT] or 3000.
    better-sqlite3 is synchronous and no handler awaits, so a request
    runs from start to end without interleaving: the service is a
    sequence of atomic request steps over one database state, with the
    process restarts (each of which re-runs the bootstrap) in between.

    ** Files

    - [Prelude] (this file): the state-and-error monad
      [st E S A := S -> result E A * S] in which the handlers are
      written, its notations in [crud_scope], the hint database [crud],
      the combinator lemmas [st_preserves_*] and generic lemmas on lists
      and sorted lists.
    - [JsString]: JavaScript strings as lists of code points;
      [String.prototype.trim] ([trim], [trim_start], [trim_end]) with
      ECMA-262's WhiteSpace and LineTerminator sets, string truthiness.
    - [JsNumber]: JavaScript numbers as IEEE binary64 ([SpecFloat] of the
      Corelib, [prec = 53], [emax = 1024]); [Number(..)] on strings
      ([to_number_str]: the StringNumericLiteral grammar, hexadecimal,
      octal and binary literals, [Infinity], correctly rounded decimal
      conversion), [||], [Math.min], [Math.max], [Number.isInteger], and
      the decimal printing of an integer ([dec_string]).
    - [JsFloat]: [SpecFloat]'s rounding returns canonical floats
      ([valid]: the mantissa has 53 bits or the exponent is the least
      one), proved on the integer shifts and digit counts of
      [binary_round_aux], [binary_normalize] and the division core, so
      [Number(..)] does ([to_number_str_valid]); on canonical floats
      [Math.max(1, Math.min(100, x))] and [Math.max(0, x)] truncate
      into their ranges ([clamp_1_100], [clamp_0]).
    - [Uri]: [decodeURIComponent] ([decode], ECMA-262 Decode, which
      Express applies to [:id]) with its [URIError] cases, and
      [encodeURIComponent] ([encode], the client's side).
    - [DbPath]: where [db.ts] puts the database: [fileURLToPath] of
      [import.meta.url] ([file_url_to_path]), [path.posix.dirname]
      ([dirname]) and [path.posix.join] with [normalize] and the loop of
      Node's [normalizeString] ([normalize_string]), composed as
      [db_path].
    - [Like]: SQLite's [LIKE] without ESCAPE ([sql_like]): [%], [_],
      ASCII case folding, operands read as C strings.
    - [Storage]: the database file as a record [db] (WAL flag, whether
      the table and the trigger exist, the rows in rowid order, the
      AUTOINCREMENT counter of [sqlite_sequence], the clock of
      [CURRENT_TIMESTAMP]); the bootstrap of [db.ts]; each statement of
      the handlers as an [sql] computation ([insert_item],
      [select_by_id], [update_item] with the trigger, [delete_item],
      [select_page]), with better-sqlite3's binding of numbers as REAL,
      the rowid affinity of [WHERE id = ?], the integer check of
      LIMIT/OFFSET, the LIKE pattern limit and SQLITE_FULL; the table
      invariant [wf].  The class [ItemStore] is the interface between
      the store and the handlers: the five statements and the clock;
      [db_store] is its implementation by the database, and
      [ItemStoreLaws] the law that SELECTs do not write.
    - [Items]: the request bodies and query strings as JSON values, the
      replies as a status and a JSON shape, and the five handlers of
      [routes/items.ts] ([create_item], [list_items], [get_item],
      [update_item_handler], [delete_item_handler]) with every guard and
      early return of the code, written against [ItemStore]; [run] turns
      an engine error into the 500 of Express's final handler.
    - [Json]: [JSON.parse] on strings of code points ([json_parse]): a
      recursive descent with fuel ([parse_value], [parse_elements],
      [parse_members]) whose outcome tells running out of fuel apart
      from a syntax error; numbers rounded by [round_decimal]; strings
      as UTF-16 code units with escapes and surrogate pairs
      ([lex_string], [utf16_combine]).  [json_text] is [JSON.stringify]
      for values whose numbers are safe integers, the text a client
      sends.
    - [BodyParser]: [express.json()] with its defaults ([json_body]):
      the [application/json] type, the charset check (415), the 100kb
      limit (413), iconv-lite's encoding names (415), the empty body,
      strict mode and [JSON.parse] (400).
    - [Timestamp]: the text SQLite writes for [CURRENT_TIMESTAMP]
      ([timestamp_text], [YYYY-MM-DD HH:MM:SS] in UTC) from the clock
      of [Storage], read as seconds since 1970-01-01 00:00:00 UTC: the
      proleptic Gregorian date of the day ([civil], two [unit_loop]s
      over years and months), the time of day, and the fixed-width
      printing of the fields ([render]); [str_lt] is the order of
      strings of JavaScript's [<] and SQLite's BINARY collation.
    - [Server]: the routes of [app.ts] ([handle], [health]), the port
      ([listen_port]), one request at a given clock ([serve]), and the
      relation [steps] of requests and restarts with the reachable
      states of the database file ([reachable]), a sequence of requests
      served one after the other ([serve_all]), and two generic sections
      over any [ItemStore]: a state property kept by every statement is
      kept by every handler ([handle_preserves]), and two stores whose
      statements simulate each other serve every sequence of requests
      alike ([serve_all_sim]).
    - [Router]: the Express application of [app.ts] around the
      handlers ([app_route]): [cors()] answering [OPTIONS],
      [express.json()] ([BodyParser.json_body]), the route table matched the way
      Express 4 matches paths (case-insensitive, optional trailing slash,
      the mount prefix ending at a slash, [HEAD] served by [GET] routes),
      [:id] decoded by [decode] (400 on [URIError]), 404 from the final
      handler; [app_serve] and [app_serve_all] serve HTTP requests on
      any [ItemStore], and [app_serve_all_sim] lifts a simulation of
      the statements to them.
    - [Table]: the abstract store of the specification, a [gmap] from ids
      to items with the AUTOINCREMENT counter and the clock, whose
      statements are map operations ([t_insert], [t_select], [t_update],
      [t_delete], [t_page]); the abstraction [abs_db] of a database and
      the refinement of every statement of [Storage] by its abstract
      counterpart on well-formed states.
    - [Examples]: concrete databases and requests, and the witnesses
      that apply each hypothesised theorem at them.

    ** Theorems

    - Handlers, functional behaviour on every branch: [create_item_ok],
      [create_item_rejects], [get_item_spec], [update_item_spec],
      [delete_item_spec], [list_items_spec], [list_items_search]; the
      id check accepts exactly the parameters [Number] reads as a
      positive integer, stated with [denotes_int], the integer a float
      denotes ([invalid_id_rejected]); for every query a list reply is a
      500 or a page of at most [k] rows with the LIMIT [k] in [1, 100]
      and a non-negative OFFSET ([list_page_bounded]); paging with a
      fixed limit visits every row once, newest first
      ([list_pages_cover]).
    - Invariants of the whole service: every reachable state satisfies
      [wf] ([reachable_wf], through the sectioned lemma
      [handle_preserves]: a property kept by every statement is kept by
      every handler), an id once handed out and removed never comes
      back ([deleted_id_never_reused]), and a row keeps its creation
      time while its update time only grows ([row_history]); a created
      item is read back by the next GET of its id ([create_then_get]).
    - Proved against the interface, for every store: each route answers
      only the status codes the API table of the specification lists for
      it, or 500 ([serve_status]); on a store whose SELECTs do not write
      ([ItemStoreLaws]), the read routes do not write
      ([reads_do_not_write]).
    - Refinement: on a well-formed database, every sequence of HTTP
      requests, through the middlewares, the routes and the handlers,
      gets the same responses as on its abstract table, and the final
      database implements the final table ([app_serve_all_refines]).
    - The application: [cors()] and [express.json()] decide
      before any route, with 415 for a charset that is not [utf-*] and
      413 over 100kb ([middleware_first]); strict mode's check of the
      first character accepts exactly the texts [JSON.parse] reads as an
      object or an array ([json_body_strict]); [JSON.parse] reads back what [JSON.stringify] writes ([json_parse_text]); an id written with
      [encodeURIComponent] reaches the handlers unchanged
      ([id_path_encoded]) and an undecodable one is a 400 for every
      method ([undecodable_id_rejected]); [decode] inverts [encode]
      ([decode_encode]) and throws on every [%] that two hexadecimal
      digits do not follow ([decode_bad_escape]).
    - Round trip and bounds: the printed id of a row reads back as the
      same rowid ([id_path_roundtrip]); AUTOINCREMENT at 64-bit width
      ([insert_item_bounds]); bootstrap idempotence
      ([bootstrap_idempotent]), and a restart changes no response
      ([restart_invisible]); the database is the file [data.sqlite] in
      the parent of the module's directory, whatever the working
      directory ([db_path_spec]); [trim_spec].
    - Timestamps as text: up to the year 9999 the texts of two clock
      values compare as strings the way the values compare
      ([timestamp_order]), so the invariant [created_at <= updated_at]
      of [reachable_wf] holds of the stored texts; the LIKE matcher decides the
      documented meaning of a pattern ([sql_like_spec]).
    - Behaviours the spec does not describe or describes otherwise:
      [limit=0] gives 20 rows ([list_limit_zero_is_default]); a
      fractional limit gives 500 ([list_fractional_limit_fails]); the
      search text is not escaped, so [q=%] lists every row
      ([list_search_wildcards]); a long
      search text gives 500 ([list_pattern_too_long]); repeated [q] and
      [limit] parameters are ignored, since [Number] of any string with a
      comma is NaN ([list_repeated_params]); [0x1], [1.0],
      [1e0] and [" 1"] all name item 1 (the lemma [id_spellings_alias]); past
      [2^53] the create handler replies with the wrong row
      ([create_reply_past_2_53]); a decimal [PORT] is used as given, [0]
      included, and one with a comma gives NaN ([listen_port_spec]); paths match without case and with an
      optional or doubled slash (the lemma [route_aliases]).

    ** Bounds and fuel

    Integers are [Z] with their width written out where it matters: ids
    are 64-bit rowids ([largest_int64 = 2^63 - 1], the point where
    AUTOINCREMENT fails), and ids travel through JavaScript as doubles,
    exact below [2^53] ([safe_id]); the theorems on ids assume that
    bound and [create_reply_past_2_53] shows what happens past it.
    [dec_digits] recurses on fuel [log2 n + 1], never less than the number
    of decimal digits of [n] ([dec_string_spec] proves it enough);
    [decode_go] has the length of the string as fuel, since every round
    consumes at least one code point, and [decode_total] shows that no
    input exhausts it.  [json_parse] gives its descent twice the length
    of the text plus one: an array or object costs one round for the
    value and one for its element list, and each consumes a character
    ([parse_fuel]); more fuel changes no outcome ([parse_mono]).  The year loop of [civil] has fuel
    [z / 365 + 1] for the day [z], enough since every year has at least
    365 days, and the month loop 12; [unit_loop_spec] shows both land on
    the unit that holds the day.  Timestamps are read up to
    [max_time], 10000-01-01 00:00:00 UTC, where the year stops having
    four digits.  The LIKE pattern limit is SQLite's default
    [SQLITE_MAX_LIKE_PATTERN_LENGTH = 50000] bytes.

    ** Not modelled

    The headers [cors()] adds and [morgan]'s log lines (they change no
    status and no body; responses are modelled as a status and a body);
    the decoding of the body's bytes by iconv-lite and
    [Content-Encoding] (a body is its length in bytes and its decoded
    text); WHATWG URL parsing of [import.meta.url] (the URL is given as
    its parts); a wall
    clock that steps backwards (the clock of [Storage] never does) and
    the sub-second part of the time; strings are lists of code points
    (an unpaired surrogate that [JSON.parse] reads stays a code unit of
    its own, and no other operation treats it specially); several
    processes sharing the WAL file; the socket of the listener and its
    log line.  Express is modelled as version 4 (path-to-regexp 0.1,
    body-parser 1.x);
    the sources fix no version, and [req.body ?? {}] reads a missing
    body as [{}] under both. *)

(** This file is the prelude: the state-and-error monad in which the
    request handlers are written, its notation scope [crud_scope], the
    hint database [crud] and generic lemmas on lists that the component
    files share. *)

From Stdlib Require Import ZArith.
From stdpp Require Export base list sorting.

(** ** Results of a fallible computation

    Every SQL statement may fail with an engine error; a JavaScript
    [throw] from a route handler becomes Express's generic 500 reply.
    [result E A] records which. *)
Inductive result (E A : Type) : Type :=
  | Ok (a : A)
  | Err (e : E).
Arguments Ok {E A} a.
Arguments Err {E A} e.

(** ** The state-and-error monad

    A handler reads and writes the shared database handle and may throw:
    [st E S A := S -> result E A * S].  Each SQLite statement is atomic,
    but a handler runs several statements with no enclosing transaction:
    when a statement fails, the state it leaves is the state before that
    statement, with the effects of the earlier statements kept. *)
Definition st (E S A : Type) : Type := S -> result E A * S.

Definition st_ret {E S A} (a : A) : st E S A := fun s => (Ok a, s).

Definition st_bind {E S A B} (m : st E S A) (k : A -> st E S B) : st E S B :=
  fun s => match m s with
           | (Ok a, s') => k a s'
           | (Err e, s') => (Err e, s')
           end.

Definition st_throw {E S A} (e : E) : st E S A := fun s => (Err e, s).

Declare Scope crud_scope.
Delimit Scope crud_scope with crud.
Notation "x <- m ;; k" := (st_bind m (fun x => k))
  (at level 60, m at next level, right associativity) : crud_scope.
Notation "m ;;; k" := (st_bind m (fun _ => k))
  (at level 60, right associativity) : crud_scope.

Create HintDb crud discriminated.
Create Rewrite HintDb crud_rw.

(** A property of the state kept by every run, successful or not,
    proved once per combinator so that invariant proofs of handlers
    compose. *)
Definition st_preserves {E S A} (P : S -> Prop) (m : st E S A) : Prop :=
  forall s, P s -> P (snd (m s)).

(** [m1] simulates [m2] under [R]: from related states both give the
    same result and end in related states.  A refinement of one store by
    another is proved once per statement and lifted through [st_bind]. *)
Definition st_sim {E S1 S2 A} (R : S1 -> S2 -> Prop) (m1 : st E S1 A) (m2 : st E S2 A) : Prop :=
  forall s1 s2, R s1 s2 -> fst (m1 s1) = fst (m2 s2) /\ R (snd (m1 s1)) (snd (m2 s2)).

(** Every successful run of [m] returns a value satisfying [Q]. *)
Definition st_returns {E S A} (Q : A -> Prop) (m : st E S A) : Prop :=
  forall s a, fst (m s) = Ok a -> Q a.

Section Monad.
Context {E S : Type}.

Lemma st_bind_ok {A B} (m : st E S A) (k : A -> st E S B) s a s' :
  m s = (Ok a, s') -> st_bind m k s = k a s'.
Proof. intros H. unfold st_bind. by rewrite H. Qed.

Lemma st_bind_err {A B} (m : st E S A) (k : A -> st E S B) s e s' :
  m s = (Err e, s') -> st_bind m k s = (Err e, s').
Proof. intros H. unfold st_bind. by rewrite H. Qed.

Lemma st_preserves_ret {A} (P : S -> Prop) (a : A) : @st_preserves E S A P (st_ret a).
Proof. by intros s HP. Qed.

Lemma st_preserves_bind {A B} P (m : st E S A) (k : A -> st E S B) :
  st_preserves P m -> (forall a, st_preserves P (k a)) ->
  st_preserves P (st_bind m k).
Proof.
  intros Hm Hk s HP. specialize (Hm s HP). unfold st_bind.
  destruct (m s) as [[a|e] s']; simpl in *; [by apply Hk|done].
Qed.

Lemma st_preserves_throw {A} P (e : E) : st_preserves P (@st_throw E S A e).
Proof. by intros s HP. Qed.
Lemma st_returns_ret {A} (Q : A -> Prop) (a : A) : Q a -> @st_returns E S A Q (st_ret a).
Proof. intros HQ s b [= <-]. done. Qed.

Lemma st_returns_bind {A B} (Q : B -> Prop) (m : st E S A) (k : A -> st E S B) :
  (forall a, st_returns Q (k a)) -> st_returns Q (st_bind m k).
Proof.
  intros Hk s b. unfold st_bind. destruct (m s) as [[a|e] s']; [apply Hk|done].
Qed.
End Monad.

Section Simulation.
Context {E S1 S2 : Type} (R : S1 -> S2 -> Prop).

Lemma st_sim_ret {A} (a : A) : @st_sim E S1 S2 A R (st_ret a) (st_ret a).
Proof. by intros s1 s2 HR. Qed.

Lemma st_sim_bind {A B} (m1 : st E S1 A) (m2 : st E S2 A)
      (k1 : A -> st E S1 B) (k2 : A -> st E S2 B) :
  st_sim R m1 m2 -> (forall a, st_sim R (k1 a) (k2 a)) -> st_sim R (st_bind m1 k1) (st_bind m2 k2).
Proof.
  intros Hm Hk s1 s2 HR. destruct (Hm s1 s2 HR) as [Hr HR']. unfold st_bind.
  destruct (m1 s1) as [[a|e] s1'], (m2 s2) as [r2 s2']; simpl in *; subst; [by apply Hk|done].
Qed.
End Simulation.

#[export] Hint Resolve st_preserves_ret st_preserves_bind st_preserves_throw st_sim_ret st_sim_bind : crud.

(** ** Generic lemmas on lists *)

Lemma take_length_le {A} (n : nat) (l : list A) : length (take n l) <= n.
Proof. rewrite length_take. lia. Qed.

Lemma Forall_take_drop {A} (P : A -> Prop) (n m : nat) (l : list A) :
  Forall P l -> Forall P (take n (drop m l)).
Proof. intros H. by apply Forall_take, Forall_drop. Qed.

(** Cutting a list into [k] windows of [n] elements, at offsets [0],
    [n], [2n], ..., and concatenating them gives the list back when the
    windows reach its end. *)
Lemma concat_windows {A} (n k : nat) (l : list A) :
  length l <= k * n -> concat (map (fun i => take n (drop (i * n) l)) (seq 0 k)) = l.
Proof.
  revert l. induction k as [|k IH]; intros l Hl; [destruct l; [done|simpl in Hl; lia]|].
  rewrite <- cons_seq, map_cons, concat_cons, <- seq_shift, map_map, drop_0.
  rewrite (map_ext _ (fun i => take n (drop (i * n) (drop n l)))).
  - rewrite IH by (rewrite length_drop; lia). apply take_drop.
  - intros i. by rewrite drop_drop.
Qed.

Lemma Forall_filter_of {A} (P Q : A -> Prop) `{!forall x, Decision (Q x)} (l : list A) :
  Forall P l -> Forall P (filter Q l).
Proof. induction 1; [by constructor|]. rewrite filter_cons. case_decide; [by constructor|done]. Qed.

Lemma filter_all {A} (P : A -> Prop) `{!forall x, Decision (P x)} (l : list A) :
  Forall P l -> filter P l = l.
Proof. induction 1; [done|]. rewrite filter_cons. case_decide; [by f_equal|done]. Qed.

Section Sorted.
Context {A : Type} (R : A -> A -> Prop).

Lemma StronglySorted_drop (n : nat) (l : list A) :
  StronglySorted R l -> StronglySorted R (drop n l).
Proof.
  revert l. induction n as [|n IH]; intros [|x l] H; simpl; try done.
  apply IH. by apply StronglySorted_inv in H as [? _].
Qed.

Lemma StronglySorted_take (n : nat) (l : list A) :
  StronglySorted R l -> StronglySorted R (take n l).
Proof.
  revert l. induction n as [|n IH]; intros [|x l] H; simpl; try by constructor.
  apply StronglySorted_inv in H as [Hl Hx]. constructor; [by apply IH|].
  by apply Forall_take.
Qed.

Lemma StronglySorted_rev (l : list A) :
  StronglySorted R l -> StronglySorted (fun a b => R b a) (rev l).
Proof.
  induction 1 as [|x l _ IH Hx]; simpl; [constructor|].
  apply StronglySorted_app. split; [|split; [done|by repeat constructor]].
  intros y z Hy ->%list_elem_of_singleton. rewrite Forall_forall in Hx.
  apply Hx. by apply list_elem_of_In, in_rev, list_elem_of_In.
Qed.
Lemma StronglySorted_weaken (Q : A -> A -> Prop) (l : list A) :
  (forall x y, R x y -> Q x y) -> StronglySorted R l -> StronglySorted Q l.
Proof.
  intros HRQ. induction 1 as [|x l _ IH Hx]; constructor; [done|].
  eapply Forall_impl; [exact Hx|]. auto.
Qed.
End Sorted.

#[export] Hint Resolve take_length_le Forall_take_drop Forall_filter_of
  StronglySorted_drop StronglySorted_take StronglySorted_rev : crud.

(** [inv_clear H] inverts [H] and substitutes, as the references' [inv]. *)
Ltac inv_clear H := inversion H; subst; clear H.

(** [st_step] unfolds one [st_bind] whose first computation has been
    evaluated by a hypothesis of the context. *)
Ltac st_step :=
  match goal with
  | H : ?m ?s = (Ok _, _) |- context [st_bind ?m _ ?s] => rewrite (st_bind_ok _ _ _ _ _ H)
  | H : ?m ?s = (Err _, _) |- context [st_bind ?m _ ?s] => rewrite (st_bind_err _ _ _ _ _ H)
  end.

(** [zbool] splits the goal on every integer comparison [<=?], [<?],
    [=?] in it and drops the cases the hypotheses rule out, so that
    [lia] or [f_equal] finishes the rest. *)
Ltac zbool :=
  repeat (match goal with
          | |- context [Z.leb ?a ?b] => destruct (Z.leb_spec a b)
          | |- context [Z.ltb ?a ?b] => destruct (Z.ltb_spec a b)
          | |- context [Z.eqb ?a ?b] => destruct (Z.eqb_spec a b)
          end; cbn [andb orb negb]; try (exfalso; lia)).
