(* ===== verification/JsString.v ===== *)
(** * JavaScript strings and [String.prototype.trim]

    A JavaScript string is modelled as the list of its Unicode code
    points ([jstr := list Z]).  The handlers of [src/routes/items.ts] use
    three string operations: [typeof x === "string"], [x.trim()] and the
    truthiness test [!x.trim()]; [trim] removes the ECMAScript
    WhiteSpace and LineTerminator code points at both ends
    (ECMA-262, TrimString).  [js] converts an ASCII literal for the
    examples. *)

From Stdlib Require Import ZArith Ascii.
From stdpp Require Export strings.
From S2P Require Import Prelude.

Abbreviation jstr := (list Z).

(** An ASCII literal as a code-point string (used by examples only). *)
Definition js (s : string) : jstr :=
  map (fun a => Z.of_nat (nat_of_ascii a)) (String.list_ascii_of_string s).

Module JsString.
Local Open Scope Z_scope.

(** WhiteSpace (TAB, VT, FF, ZWNBSP and the Zs category) and
    LineTerminator (LF, CR, LS, PS) of ECMA-262. *)
Definition is_js_whitespace (c : Z) : bool :=
  (c =? 9) || (c =? 10) || (c =? 11) || (c =? 12) || (c =? 13) || (c =? 32)
  || (c =? 160) || (c =? 5760) || ((8192 <=? c) && (c <=? 8202))
  || (c =? 8232) || (c =? 8233) || (c =? 8239) || (c =? 8287)
  || (c =? 12288) || (c =? 65279).

Definition ws (c : Z) : Prop := is_js_whitespace c = true.

Fixpoint trim_start (s : jstr) : jstr :=
  match s with
  | [] => []
  | c :: s' => if is_js_whitespace c then trim_start s' else s
  end.

Definition trim_end (s : jstr) : jstr := rev (trim_start (rev s)).

(** [s.trim()] *)
Definition trim (s : jstr) : jstr := trim_end (trim_start s).

(** Truthiness of a string: only [""] is falsy. *)
Definition js_truthy_str (s : jstr) : bool :=
  match s with [] => false | _ => true end.

(** A string that does not start with white space. *)
Definition starts_solid (s : jstr) : Prop :=
  forall c r, s = c :: r -> is_js_whitespace c = false.

(** ** trim_start *)

Lemma trim_start_ws_prefix (pre s : jstr) :
  Forall ws pre -> trim_start (pre ++ s) = trim_start s.
Proof.
  induction 1 as [|c pre Hc _ IH]; [done|]. simpl. by rewrite Hc.
Qed.

Lemma trim_start_solid (s : jstr) : starts_solid s -> trim_start s = s.
Proof. destruct s as [|c r]; [done|]. intros H. simpl. by rewrite (H c r). Qed.

Lemma trim_start_starts_solid (s : jstr) : starts_solid (trim_start s).
Proof.
  induction s as [|c s IH]; [by intros ??|]. simpl.
  destruct (is_js_whitespace c) eqn:Hc; [done|]. by intros ?? [= <- _].
Qed.

Lemma trim_start_decomp (s : jstr) :
  exists pre, s = pre ++ trim_start s /\ Forall ws pre.
Proof.
  induction s as [|c s [pre [Hs Hpre]]]; [by exists []|]. simpl.
  destruct (is_js_whitespace c) eqn:Hc.
  - exists (c :: pre). split; [simpl; congruence|]. by constructor.
  - by exists [].
Qed.

Lemma trim_start_nil_iff (s : jstr) : trim_start s = [] <-> Forall ws s.
Proof.
  split.
  - destruct (trim_start_decomp s) as [pre [Hs Hpre]]. intros Hn.
    rewrite Hn, app_nil_r in Hs. by subst.
  - intros H. rewrite <- (app_nil_r s). by rewrite trim_start_ws_prefix.
Qed.

Lemma trim_start_app_solid (l x : jstr) :
  starts_solid x -> trim_start (l ++ x) = trim_start l ++ x.
Proof.
  intros Hx. induction l as [|c l IH]; simpl.
  - by apply trim_start_solid.
  - destruct (is_js_whitespace c); [done|done].
Qed.

Lemma trim_start_idem (s : jstr) : trim_start (trim_start s) = trim_start s.
Proof. apply trim_start_solid, trim_start_starts_solid. Qed.

(** ** trim_end *)

Lemma trim_end_cons_solid (c : Z) (r : jstr) :
  is_js_whitespace c = false -> trim_end (c :: r) = c :: trim_end r.
Proof.
  intros Hc. unfold trim_end. simpl.
  rewrite trim_start_app_solid by (intros ?? [= <- _]; done).
  by rewrite rev_app_distr.
Qed.

Lemma trim_end_starts_solid (s : jstr) : starts_solid s -> starts_solid (trim_end s).
Proof.
  destruct s as [|c r]; [done|]. intros H.
  rewrite trim_end_cons_solid by (apply (H c r); done).
  intros ?? [= <- _]. by apply (H c r).
Qed.

Lemma trim_end_decomp (s : jstr) :
  exists suf, s = trim_end s ++ suf /\ Forall ws suf.
Proof.
  destruct (trim_start_decomp (rev s)) as [pre [Hs Hpre]].
  exists (rev pre). unfold trim_end. split.
  - rewrite <- rev_app_distr, <- Hs. by rewrite rev_involutive.
  - by apply Forall_rev.
Qed.

Lemma trim_end_ws_suffix (s suf : jstr) :
  Forall ws suf -> trim_end (s ++ suf) = trim_end s.
Proof.
  intros H. unfold trim_end. rewrite rev_app_distr.
  rewrite trim_start_ws_prefix; [done|]. by apply Forall_rev.
Qed.

Lemma trim_end_nil_iff (s : jstr) : trim_end s = [] <-> Forall ws s.
Proof.
  unfold trim_end. split.
  - intros H. apply (f_equal (@rev Z)) in H. rewrite rev_involutive in H. simpl in H.
    apply trim_start_nil_iff, Forall_rev in H. by rewrite rev_involutive in H.
  - intros H. rewrite (proj2 (trim_start_nil_iff _)); [done|]. by apply Forall_rev.
Qed.

Lemma trim_end_idem (s : jstr) : trim_end (trim_end s) = trim_end s.
Proof.
  unfold trim_end at 1 2. rewrite rev_involutive, trim_start_idem. done.
Qed.

Lemma trim_start_app_nonnil (l x : jstr) :
  trim_start l <> [] -> trim_start (l ++ x) = trim_start l ++ x.
Proof.
  induction l as [|c l IH]; [done|]. simpl.
  destruct (is_js_whitespace c); [exact IH|done].
Qed.

(** ** trim *)

Lemma trim_decomp (s : jstr) :
  exists pre suf, s = pre ++ trim s ++ suf /\ Forall ws pre /\ Forall ws suf.
Proof.
  destruct (trim_start_decomp s) as [pre [H1 Hpre]].
  destruct (trim_end_decomp (trim_start s)) as [suf [H2 Hsuf]].
  exists pre, suf. unfold trim. rewrite <- H2. auto.
Qed.

Lemma trim_starts_solid (s : jstr) : starts_solid (trim s).
Proof. unfold trim. auto using trim_end_starts_solid, trim_start_starts_solid. Qed.

Lemma trim_ends_solid (s : jstr) : starts_solid (rev (trim s)).
Proof.
  unfold trim, trim_end. rewrite rev_involutive. apply trim_start_starts_solid.
Qed.

Lemma trim_nil_iff (s : jstr) : trim s = [] <-> Forall ws s.
Proof.
  unfold trim. rewrite trim_end_nil_iff. split.
  - intros H. apply trim_start_nil_iff.
    destruct (trim_start s) eqn:E; [done|].
    pose proof (trim_start_starts_solid s) as Hs. rewrite E in Hs.
    inversion H as [|? ? Hz]. unfold ws in *. by rewrite (Hs z l) in Hz.
  - intros H. rewrite (proj2 (trim_start_nil_iff _) H). constructor.
Qed.

Lemma trim_idem (s : jstr) : trim (trim s) = trim s.
Proof.
  unfold trim at 1 2. rewrite (trim_start_solid (trim_end _)).
  - apply trim_end_idem.
  - apply trim_end_starts_solid, trim_start_starts_solid.
Qed.

Lemma trim_pad (pre s suf : jstr) :
  Forall ws pre -> Forall ws suf -> trim (pre ++ s ++ suf) = trim s.
Proof.
  intros Hpre Hsuf. unfold trim. rewrite trim_start_ws_prefix by done.
  destruct (decide (trim_start s = [])) as [E|E].
  - rewrite E. apply trim_start_nil_iff in E.
    rewrite (proj2 (trim_start_nil_iff (s ++ suf))); [done|]. by apply Forall_app.
  - rewrite trim_start_app_nonnil by done. by apply trim_end_ws_suffix.
Qed.

Lemma trim_solid (s : jstr) : Forall (fun c => is_js_whitespace c = false) s -> trim s = s.
Proof.
  intros H. unfold trim. rewrite trim_start_solid by (by intros c r ->; inversion H).
  unfold trim_end. rewrite trim_start_solid; [apply rev_involutive|].
  intros c r Hr. apply Forall_rev in H. rewrite Hr in H. by inversion H.
Qed.

#[export] Hint Resolve trim_start_starts_solid trim_end_starts_solid trim_starts_solid : crud.
#[export] Hint Rewrite trim_start_idem trim_end_idem trim_idem : crud_rw.

(** [trim] keeps every character that is not white space. *)
Lemma trim_keeps (c : Z) (s : jstr) : is_js_whitespace c = false -> c ∈ s -> c ∈ trim s.
Proof.
  intros Hc Hs. destruct (trim_decomp s) as (pre & suf & Hd & Hpre & Hsuf).
  rewrite Hd in Hs. rewrite Forall_forall in Hpre, Hsuf. unfold ws in *.
  apply elem_of_app in Hs as [Hs|Hs]; [specialize (Hpre c Hs); congruence|].
  apply elem_of_app in Hs as [Hs|Hs]; [done|]. specialize (Hsuf c Hs); congruence.
Qed.

(** C32: [s.trim()] removes the white space at both ends and nothing
    else: [s] is the result between a prefix and a suffix of white space,
    the result neither starts nor ends with white space, and trimming
    again changes nothing. *)
Theorem trim_spec (s : jstr) :
  (exists pre suf, s = pre ++ trim s ++ suf /\ Forall ws pre /\ Forall ws suf) /\
  starts_solid (trim s) /\ starts_solid (rev (trim s)) /\ trim (trim s) = trim s.
Proof.
  split; [apply trim_decomp|]. split; [apply trim_starts_solid|].
  split; [apply trim_ends_solid|apply trim_idem].
Qed.

End JsString.
