(* ===== verification/JsNumber.v ===== *)
(** * JavaScript numbers: [Number(..)], [Number.isInteger], [||], [Math.min/max]

    A JavaScript number is an IEEE-754 binary64 value, modelled by
    Corelib's [spec_float] at precision 53 and [emax] 1024 (the
    axiom-free specification floats, with their rounding functions).
    [src/routes/items.ts] converts the path parameter [id] and the query
    parameters [limit] and [offset] with [Number(..)], tests them with
    [Number.isInteger], [<= 0], [||], [Math.min] and [Math.max], and
    passes them to SQLite.  [to_number_str] is ECMA-262's StringToNumber
    (StrWhiteSpace trimmed, [Infinity], decimal literals with fraction and
    exponent, [0x]/[0o]/[0b] integers, [""] is [+0], anything else NaN),
    rounded to nearest, ties to even.  The lemmas show that integers
    below [2^53] are exact, that the decimal printing of such an integer
    reads back as itself, and that a string with a comma reads as NaN. *)

From Stdlib Require Import ZArith SpecFloat.
From S2P Require Import Prelude JsString.

Abbreviation jsnum := spec_float.

Module JsNumber.
Local Open Scope Z_scope.
Import JsString.

Definition prec : Z := 53.
Definition emax : Z := 1024.

Definition NaN : jsnum := S754_nan.
Definition pos_zero : jsnum := S754_zero false.

(** ** StringToNumber *)

(** The value of a digit of the given radix (2, 8, 10 or 16). *)
Definition digit_of (radix c : Z) : option Z :=
  let v := if (48 <=? c) && (c <=? 57) then c - 48
           else if (97 <=? c) && (c <=? 102) then c - 87
           else if (65 <=? c) && (c <=? 70) then c - 55
           else radix in
  if v <? radix then Some v else None.

(** The longest run of digits at the head of [s]: its value, its length
    and the rest of the string. *)
Fixpoint scan_digits (radix : Z) (s : jstr) (acc : Z) (n : nat) : Z * nat * jstr :=
  match s with
  | [] => (acc, n, [])
  | c :: r =>
      match digit_of radix c with
      | Some d => scan_digits radix r (acc * radix + d) (S n)
      | None => (acc, n, s)
      end
  end.

(** DecimalDigits covering the whole string. *)
Definition all_digits (s : jstr) : option Z :=
  match scan_digits 10 s 0 0 with
  | (v, S _, []) => Some v
  | _ => None
  end.

(** SignedInteger of an ExponentPart. *)
Definition signed_integer (s : jstr) : option Z :=
  match s with
  | 43 :: r => all_digits r
  | 45 :: r => option_map Z.opp (all_digits r)
  | _ => all_digits s
  end.

(** The mathematical value of a numeric literal, before rounding:
    [DFin m e] is [m * 10^e]. *)
Inductive decimal := DInf | DFin (m e : Z).

Definition exponent_part (r : jstr) (m e : Z) : option decimal :=
  match r with
  | [] => Some (DFin m e)
  | c :: r' =>
      if (c =? 101) || (c =? 69)
      then option_map (fun x => DFin m (e + x)) (signed_integer r')
      else None
  end.

(** StrUnsignedDecimalLiteral. *)
Definition unsigned_decimal (s : jstr) : option decimal :=
  if decide (s = js "Infinity") then Some DInf else
  match scan_digits 10 s 0 0 with
  | (m1, n1, 46 :: r2) =>
      match scan_digits 10 r2 0 0 with
      | (m2, n2, r3) =>
          if Nat.eqb (n1 + n2) 0 then None
          else exponent_part r3 (m1 * 10 ^ Z.of_nat n2 + m2) (- Z.of_nat n2)
      end
  | (m1, n1, r1) => if Nat.eqb n1 0 then None else exponent_part r1 m1 0
  end.

(** NonDecimalIntegerLiteral after its [0x]/[0o]/[0b] prefix. *)
Definition non_decimal (radix : Z) (s : jstr) : option Z :=
  match scan_digits radix s 0 0 with
  | (v, S _, []) => Some v
  | _ => None
  end.

(** Round [m * 10^e] (with [m >= 0]) to the nearest binary64, ties to
    even; [neg] is the sign. *)
Definition round_decimal (neg : bool) (m e : Z) : jsnum :=
  if m =? 0 then S754_zero neg
  else if 0 <=? e then binary_normalize prec emax (cond_Zopp neg (m * 10 ^ e)) 0 neg
  else let '(mz, ez, lz) := SFdiv_core_binary prec emax m 0 (10 ^ (- e)) 0 in
       binary_round_aux prec emax neg mz ez lz.

Definition of_decimal (neg : bool) (d : option decimal) : jsnum :=
  match d with
  | None => NaN
  | Some DInf => S754_infinity neg
  | Some (DFin m e) => round_decimal neg m e
  end.

(** [Number(s)] for a string [s] (ECMA-262 StringToNumber). *)
Definition to_number_str (s : jstr) : jsnum :=
  match trim s with
  | [] => pos_zero
  | 48 :: x :: r =>
      if (x =? 120) || (x =? 88) then of_decimal false (option_map (fun v => DFin v 0) (non_decimal 16 r))
      else if (x =? 111) || (x =? 79) then of_decimal false (option_map (fun v => DFin v 0) (non_decimal 8 r))
      else if (x =? 98) || (x =? 66) then of_decimal false (option_map (fun v => DFin v 0) (non_decimal 2 r))
      else of_decimal false (unsigned_decimal (48 :: x :: r))
  | 43 :: r => of_decimal false (unsigned_decimal r)
  | 45 :: r => of_decimal true (unsigned_decimal r)
  | t => of_decimal false (unsigned_decimal t)
  end.

(** An integer as a JavaScript number ([(double)n], e.g. better-sqlite3's
    [info.lastInsertRowid]). *)
Definition of_Z (n : Z) : jsnum := binary_normalize prec emax n 0 false.

(** [String(n)] for a non-negative integer [n < 10^21] (Number::toString
    prints such a number as its decimal digits).  [fuel] bounds the
    number of digits. *)
Fixpoint dec_digits (fuel : nat) (n : Z) (acc : jstr) : jstr :=
  match fuel with
  | O => acc
  | S f =>
      let acc' := (48 + n mod 10) :: acc in
      if n <? 10 then acc' else dec_digits f (n / 10) acc'
  end.

Definition dec_string (n : Z) : jstr := dec_digits (S (Z.to_nat (Z.log2 n))) n [].

(** ** Predicates and operators *)

Definition is_nan (x : jsnum) : bool :=
  match x with S754_nan => true | _ => false end.

(** ToBoolean on a number: NaN, [+0] and [-0] are falsy. *)
Definition js_truthy_num (x : jsnum) : bool :=
  match x with S754_nan | S754_zero _ => false | _ => true end.

(** [x || d] with a number [x]. *)
Definition js_or (x d : jsnum) : jsnum := if js_truthy_num x then x else d.

(** [Number.isInteger(x)]: finite and equal to its truncation. *)
Definition is_integer (x : jsnum) : bool :=
  match x with
  | S754_zero _ => true
  | S754_finite _ m e => (0 <=? e) || (Z.pos m mod 2 ^ (- e) =? 0)
  | _ => false
  end.

(** The truncation of a finite number, as an integer. *)
Definition truncate (x : jsnum) : Z :=
  match x with
  | S754_finite s m e =>
      cond_Zopp s (if 0 <=? e then Z.pos m * 2 ^ e else Z.pos m / 2 ^ (- e))
  | _ => 0
  end.

(** The relational operators [x < y] and [x <= y] (false on NaN). *)
Definition js_lt (x y : jsnum) : bool := SFltb x y.
Definition js_le (x y : jsnum) : bool := SFleb x y.

Definition is_pos_zero (x : jsnum) : bool :=
  match x with S754_zero false => true | _ => false end.
Definition is_neg_zero (x : jsnum) : bool :=
  match x with S754_zero true => true | _ => false end.

(** One iteration of the loop of [Math.max]: NaN is absorbing, [+0]
    beats [-0], a greater number replaces the highest. *)
Definition max_step (highest n : jsnum) : jsnum :=
  if is_nan highest || is_nan n then NaN
  else if is_pos_zero n && is_neg_zero highest then n
  else if js_lt highest n then n else highest.

Definition min_step (lowest n : jsnum) : jsnum :=
  if is_nan lowest || is_nan n then NaN
  else if is_neg_zero n && is_pos_zero lowest then n
  else if js_lt n lowest then n else lowest.

(** [Math.max(a, b)] and [Math.min(a, b)]. *)
Definition math_max (a b : jsnum) : jsnum :=
  max_step (max_step (S754_infinity true) a) b.
Definition math_min (a b : jsnum) : jsnum :=
  min_step (min_step (S754_infinity false) a) b.

(** A positive safe integer: [0 < n <= Number.MAX_SAFE_INTEGER]. *)
Definition safe_id (n : Z) : Prop := 0 < n < 2 ^ 53.

(** A decimal digit. *)

Definition is_digit (c : Z) : Prop := 48 <= c <= 57.

(** The value of a digit string read left to right. *)
Definition horner (acc : Z) (ds : jstr) : Z := fold_left (fun a c => a * 10 + (c - 48)) ds acc.

(** ** Integers below 2^53 are exact *)

Lemma digits2_pos_size (p : positive) : digits2_pos p = Pos.size p.
Proof. induction p; simpl; congruence. Qed.

Lemma size_bounds (p : positive) :
  2 ^ (Z.pos (Pos.size p) - 1) <= Z.pos p < 2 ^ Z.pos (Pos.size p).
Proof.
  pose proof (Pos.size_gt p) as H1. pose proof (Pos.size_le p) as H2.
  change (Z.pos p < Z.pos (2 ^ Pos.size p)) in H1.
  change (Z.pos (2 ^ Pos.size p) <= Z.pos p~0) in H2.
  rewrite Pos2Z.inj_pow in H1, H2. rewrite Pos2Z.inj_xO in H2.
  change (2 * 1) with 2 in H2.
  rewrite Z.pow_sub_r, Z.pow_1_r by lia.
  split; [|lia]. apply Z.div_le_upper_bound; lia.
Qed.

Lemma size_le_53 (p : positive) : Z.pos p < 2 ^ 53 -> Z.pos (Pos.size p) <= 53.
Proof.
  intros Hp. pose proof (size_bounds p) as [Hlo _].
  destruct (Z.le_gt_cases (Z.pos (Pos.size p)) 53) as [|Hgt]; [done|].
  pose proof (Z.pow_le_mono_r 2 53 (Z.pos (Pos.size p) - 1) ltac:(lia) ltac:(lia)). lia.
Qed.

Lemma iter_xO (m d : positive) : Z.pos (Pos.iter xO m d) = Z.pos m * 2 ^ Z.pos d.
Proof.
  induction d using Pos.peano_ind; [simpl; lia|].
  rewrite Pos.iter_succ, Pos2Z.inj_xO, IHd, Pos2Z.inj_succ, Z.pow_succ_r by lia. lia.
Qed.

Lemma size_iter_xO (m d : positive) : Pos.size (Pos.iter xO m d) = (Pos.size m + d)%positive.
Proof.
  induction d using Pos.peano_ind; [simpl; lia|].
  rewrite Pos.iter_succ. simpl. rewrite IHd. lia.
Qed.

(** Rounding an exact, already canonical mantissa and exponent returns
    them unchanged. *)
Lemma round_aux_exact (sx : bool) (m : positive) (e : Z) :
  fexp prec emax (Z.pos (digits2_pos m) + e) = e -> e <= emax - prec ->
  binary_round_aux prec emax sx (Z.pos m) e loc_Exact = S754_finite sx m e.
Proof.
  intros Hf He. unfold binary_round_aux, shr_fexp. simpl Zdigits2.
  do 2 (match goal with |- context [fexp prec emax ?a - e] =>
          replace (fexp prec emax a) with e by (symmetry; exact Hf) end;
        rewrite Z.sub_diag; simpl).
  match goal with |- context [if ?c then _ else _] =>
    replace c with true by (symmetry; apply Z.leb_le; exact He) end.
  reflexivity.
Qed.

Lemma of_Z_small (p : positive) : Z.pos p < 2 ^ 53 ->
  exists m e, of_Z (Z.pos p) = S754_finite false m e /\ e = Z.pos (Pos.size p) - 53 /\
              Z.pos m = Z.pos p * 2 ^ (- e).
Proof.
  intros Hp. pose proof (size_bounds p) as [Hlo Hhi]. pose proof (size_le_53 p Hp) as Hd.
  unfold of_Z, binary_normalize, binary_round. rewrite digits2_pos_size.
  assert (Hf : fexp prec emax (Z.pos (Pos.size p) + 0) = Z.pos (Pos.size p) - 53)
    by (unfold fexp, emin, prec, emax; lia).
  rewrite Hf. unfold shl_align.
  destruct (Z.pos (Pos.size p) - 53 - 0) as [|k|k] eqn:E; [| lia |].
  - exists p, 0. rewrite round_aux_exact.
    + split; [done|]. split; [lia|]. simpl. lia.
    + rewrite digits2_pos_size, Hf. lia.
    + unfold emax, prec. lia.
  - exists (Pos.iter xO p k), (Z.pos (Pos.size p) - 53). rewrite round_aux_exact.
    + split; [done|]. split; [lia|]. rewrite iter_xO. do 2 f_equal. lia.
    + rewrite digits2_pos_size, size_iter_xO. unfold fexp, emin, prec, emax. lia.
    + unfold emax, prec. lia.
Qed.

(** A positive safe integer converts to a JavaScript number that is an
    integer, is positive and truncates back to itself. *)
Lemma of_Z_safe (n : Z) : safe_id n ->
  is_integer (of_Z n) = true /\ truncate (of_Z n) = n /\ js_le (of_Z n) pos_zero = false.
Proof.
  intros [H0 H1]. destruct n as [|p|p]; [lia| |lia].
  destruct (of_Z_small p H1) as (m & e & -> & He & Hm).
  assert (e <= 0) by (pose proof (size_le_53 p H1); lia).
  assert (Hpow : 2 ^ (- e) <> 0) by (apply Z.pow_nonzero; lia).
  split; [|split; [|reflexivity]]; simpl.
  - rewrite Hm, Z.mod_mul by done. by rewrite orb_true_r.
  - destruct (0 <=? e) eqn:E.
    + apply Z.leb_le in E. assert (e = 0) as -> by lia. simpl in Hm. lia.
    + rewrite Hm, Z.div_mul by done. reflexivity.
Qed.

(** Comparisons, [Math.min], [Math.max] and [||] on safe integers agree
    with those on [Z]. *)
Lemma of_Z_compare (a b : Z) :
  safe_id a -> safe_id b -> SFcompare (of_Z a) (of_Z b) = Some (Z.compare a b).
Proof.
  intros [Ha0 Ha1] [Hb0 Hb1]. destruct a as [|pa|pa], b as [|pb|pb]; try lia.
  destruct (of_Z_small pa Ha1) as (ma & ea & -> & Hea & Hma).
  destruct (of_Z_small pb Hb1) as (mb & eb & -> & Heb & Hmb).
  pose proof (size_bounds pa). pose proof (size_bounds pb).
  pose proof (size_le_53 pa Ha1). pose proof (size_le_53 pb Hb1). simpl. f_equal.
  destruct (Z.compare_spec ea eb) as [Heq|Hlt|Hgt].
  - change (Pos.compare_cont Eq ma mb) with (Z.compare (Z.pos ma) (Z.pos mb)).
    change (Pos.compare pa pb) with (Z.compare (Z.pos pa) (Z.pos pb)).
    rewrite Hma, Hmb, Heq. assert (0 < 2 ^ (- eb)) by (apply Z.pow_pos_nonneg; lia).
    destruct (Z.compare_spec (Z.pos pa) (Z.pos pb));
      [apply Z.compare_eq_iff|apply Z.compare_lt_iff|apply Z.compare_gt_iff]; nia.
  - change (Pos.compare pa pb) with (Z.compare (Z.pos pa) (Z.pos pb)).
    symmetry. apply Z.compare_lt_iff.
    pose proof (Z.pow_le_mono_r 2 (Z.pos (Pos.size pa)) (Z.pos (Pos.size pb) - 1) ltac:(lia) ltac:(lia)). lia.
  - change (Pos.compare pa pb) with (Z.compare (Z.pos pa) (Z.pos pb)).
    symmetry. apply Z.compare_gt_iff.
    pose proof (Z.pow_le_mono_r 2 (Z.pos (Pos.size pb)) (Z.pos (Pos.size pa) - 1) ltac:(lia) ltac:(lia)). lia.
Qed.

Lemma of_Z_ltb (a b : Z) : safe_id a -> safe_id b -> js_lt (of_Z a) (of_Z b) = (a <? b).
Proof.
  intros Ha Hb. unfold js_lt, SFltb. rewrite of_Z_compare by done.
  destruct (Z.compare_spec a b); destruct (Z.ltb_spec a b); try done; lia.
Qed.

Lemma of_Z_finite (n : Z) : safe_id n -> exists m e, of_Z n = S754_finite false m e.
Proof.
  intros [H0 H1]. destruct n as [|p|p]; try lia.
  destruct (of_Z_small p H1) as (m & e & -> & _). eauto.
Qed.

Lemma math_min_of_Z (a b : Z) : safe_id a -> safe_id b -> math_min (of_Z a) (of_Z b) = of_Z (Z.min a b).
Proof.
  intros Ha Hb. destruct (of_Z_finite a Ha) as (ma & ea & Ea). destruct (of_Z_finite b Hb) as (mb & eb & Eb).
  unfold math_min, min_step. rewrite Ea. simpl. rewrite <- Ea, Eb. simpl. rewrite <- Eb.
  rewrite of_Z_ltb by done. destruct (Z.ltb_spec b a); f_equal; lia.
Qed.

Lemma math_max_of_Z (a b : Z) : safe_id a -> safe_id b -> math_max (of_Z a) (of_Z b) = of_Z (Z.max a b).
Proof.
  intros Ha Hb. destruct (of_Z_finite a Ha) as (ma & ea & Ea). destruct (of_Z_finite b Hb) as (mb & eb & Eb).
  unfold math_max, max_step. rewrite Ea. simpl. rewrite <- Ea, Eb. simpl. rewrite <- Eb.
  rewrite of_Z_ltb by done. destruct (Z.ltb_spec a b); f_equal; lia.
Qed.

(** [Math.max(0, n)] for [n >= 0]: the literal [0] is [+0]. *)
Lemma math_max_zero_of_Z (n : Z) : 0 <= n < 2 ^ 53 -> math_max (of_Z 0) (of_Z n) = of_Z n.
Proof.
  intros Hn. destruct (Z.eq_dec n 0) as [->|Hne]; [reflexivity|].
  destruct (of_Z_finite n ltac:(split; lia)) as (m & e & E).
  unfold math_max, max_step. rewrite E. reflexivity.
Qed.

Lemma js_or_of_Z (n : Z) (d : jsnum) : 0 <= n < 2 ^ 53 -> js_or (of_Z n) d = if n =? 0 then d else of_Z n.
Proof.
  intros Hn. destruct (Z.eqb_spec n 0) as [->|Hne]; [reflexivity|].
  destruct (of_Z_finite n ltac:(split; lia)) as (m & e & E). unfold js_or. by rewrite E.
Qed.

(** ** Printing and parsing an integer *)

Lemma scan_digits_app (ds rest : jstr) (acc : Z) (k : nat) :
  Forall is_digit ds ->
  scan_digits 10 (ds ++ rest) acc k = scan_digits 10 rest (horner acc ds) (k + length ds).
Proof.
  intros H. revert acc k. induction H as [|c ds Hc _ IH]; intros acc k; simpl.
  - by rewrite Nat.add_0_r.
  - unfold digit_of. destruct Hc as [H1 H2].
    rewrite (proj2 (Z.leb_le 48 c) H1), (proj2 (Z.leb_le c 57) H2). simpl.
    rewrite (proj2 (Z.ltb_lt (c - 48) 10)) by lia. rewrite IH. f_equal. lia.
Qed.

Lemma dec_digits_spec (f : nat) (n : Z) (acc : jstr) :
  0 <= n < 10 ^ Z.of_nat (S f) ->
  exists ds, dec_digits (S f) n acc = ds ++ acc /\ Forall is_digit ds /\ horner 0 ds = n /\ ds <> [].
Proof.
  revert n acc. induction f as [|f IH]; intros n acc Hn; simpl dec_digits.
  - assert (n < 10) by (simpl in Hn; lia). rewrite (proj2 (Z.ltb_lt n 10)) by done.
    exists [48 + n mod 10]. rewrite Z.mod_small by lia.
    split; [done|]. split; [constructor; [unfold is_digit; lia|constructor]|]. split; [simpl; lia|done].
  - destruct (Z.ltb_spec n 10).
    + exists [48 + n mod 10]. rewrite Z.mod_small by lia.
      split; [done|]. split; [constructor; [unfold is_digit; lia|constructor]|]. split; [simpl; lia|done].
    + destruct (IH (n / 10) ((48 + n mod 10) :: acc)) as (ds & Hds & Hdig & Hval & _).
      { split; [apply Z.div_pos; lia|]. apply Z.div_lt_upper_bound; [lia|].
        rewrite Nat2Z.inj_succ, Z.pow_succ_r in Hn by lia. lia. }
      simpl dec_digits in Hds. rewrite Hds. exists (ds ++ [48 + n mod 10]).
      split; [by rewrite <- app_assoc|]. split.
      * apply Forall_app. split; [done|]. constructor; [|constructor].
        pose proof (Z.mod_pos_bound n 10). unfold is_digit. lia.
      * split; [|by destruct ds]. unfold horner in *. rewrite fold_left_app, Hval. simpl.
        pose proof (Z.div_mod n 10). lia.
Qed.

Lemma dec_string_spec (n : Z) :
  0 <= n -> exists ds, dec_string n = ds /\ Forall is_digit ds /\ horner 0 ds = n /\ ds <> [].
Proof.
  intros Hn. unfold dec_string.
  destruct (dec_digits_spec (Z.to_nat (Z.log2 n)) n [] ) as (ds & H & ?); [|exists ds; by rewrite app_nil_r in H].
  split; [done|]. destruct (Z.eq_dec n 0) as [->|Hn0]; [simpl; lia|].
  pose proof (Z.log2_spec n ltac:(lia)) as [_ Hhi]. pose proof (Z.log2_nonneg n).
  rewrite Nat2Z.inj_succ, Z2Nat.id by done.
  apply (Z.lt_le_trans _ _ _ Hhi). apply Z.pow_le_mono_l. lia.
Qed.

(** A positive integer prints without a leading zero. *)
Lemma dec_digits_head (f : nat) (n : Z) (acc : jstr) :
  0 < n < 10 ^ Z.of_nat (S f) -> exists c ds, dec_digits (S f) n acc = c :: ds /\ 49 <= c <= 57.
Proof.
  revert n acc. induction f as [|f IH]; intros n acc Hn; simpl dec_digits.
  - assert (n < 10) by (simpl in Hn; lia). rewrite (proj2 (Z.ltb_lt n 10)) by done.
    exists (48 + n mod 10), acc. rewrite Z.mod_small by lia. split; [done|lia].
  - destruct (Z.ltb_spec n 10).
    + exists (48 + n mod 10), acc. rewrite Z.mod_small by lia. split; [done|lia].
    + apply IH. split; [apply Z.div_str_pos; lia|]. apply Z.div_lt_upper_bound; [lia|].
      rewrite Nat2Z.inj_succ, Z.pow_succ_r in Hn by lia. lia.
Qed.

Lemma dec_string_head (n : Z) : 0 < n -> exists c ds, dec_string n = c :: ds /\ 49 <= c <= 57.
Proof.
  intros Hn. unfold dec_string. apply dec_digits_head. split; [done|].
  pose proof (Z.log2_spec n Hn) as [_ Hhi]. pose proof (Z.log2_nonneg n).
  rewrite Nat2Z.inj_succ, Z2Nat.id by done.
  apply (Z.lt_le_trans _ _ _ Hhi). apply Z.pow_le_mono_l. lia.
Qed.

(** Digits are not white space. *)
Lemma digits_solid (ds : jstr) : Forall is_digit ds -> Forall (fun c => is_js_whitespace c = false) ds.
Proof.
  intros H. eapply Forall_impl; [exact H|]. intros c Hc. unfold is_digit in Hc.
  assert (c = 48 \/ c = 49 \/ c = 50 \/ c = 51 \/ c = 52 \/ c = 53 \/ c = 54 \/ c = 55 \/ c = 56 \/ c = 57)
    as Hcs by lia.
  by repeat destruct Hcs as [->|Hcs]; [..|subst].
Qed.

Lemma digit_cases (c : Z) : is_digit c ->
  c = 48 \/ c = 49 \/ c = 50 \/ c = 51 \/ c = 52 \/ c = 53 \/ c = 54 \/ c = 55 \/ c = 56 \/ c = 57.
Proof. unfold is_digit. lia. Qed.

(** A string of digits is read by the decimal branch of StringToNumber. *)
Lemma to_number_str_digits (ds : jstr) :
  Forall is_digit ds -> ds <> [] -> to_number_str ds = of_decimal false (unsigned_decimal ds).
Proof.
  intros Hdig Hne. unfold to_number_str. rewrite trim_solid by (by apply digits_solid).
  destruct ds as [|c r]; [done|]. inversion Hdig as [|? ? Hc Hr]; subst.
  destruct (digit_cases c Hc) as [->|Hcs]; [|by repeat destruct Hcs as [->|Hcs]; [..|subst]].
  destruct r as [|x r]; [done|]. inversion Hr as [|? ? Hx _]; subst. unfold is_digit in Hx.
  rewrite !(proj2 (Z.eqb_neq x _)) by lia. done.
Qed.

Lemma unsigned_decimal_digits (ds : jstr) :
  Forall is_digit ds -> ds <> [] -> unsigned_decimal ds = Some (DFin (horner 0 ds) 0).
Proof.
  intros Hdig Hne. unfold unsigned_decimal.
  rewrite decide_False; cycle 1.
  { intros ->. apply Forall_inv in Hdig. vm_compute in Hdig. by destruct Hdig as [_ []]. }
  pose proof (scan_digits_app ds [] 0 0 Hdig) as Hs. rewrite app_nil_r in Hs. rewrite Hs. simpl.
  destruct (length ds) eqn:E; [by destruct ds|]. done.
Qed.

(** Printing a non-negative integer in decimal and reading it back with
    [Number(..)] gives the JavaScript number of that integer. *)
Lemma number_of_dec_string (n : Z) : 0 <= n -> to_number_str (dec_string n) = of_Z n.
Proof.
  intros Hn. destruct (dec_string_spec n Hn) as (ds & -> & Hdig & Hval & Hne).
  rewrite to_number_str_digits, unsigned_decimal_digits, Hval by done.
  unfold of_decimal, round_decimal, of_Z.
  destruct (Z.eqb_spec n 0) as [->|Hn0]; [reflexivity|]. simpl. by rewrite Z.mul_1_r.
Qed.

(** ** A comma makes [Number(..)] NaN

    No StringNumericLiteral contains [","] (code 44): every parser of
    [to_number_str] stops at it and rejects what follows. *)

Lemma digit_of_comma (radix : Z) : digit_of radix 44 = None.
Proof. unfold digit_of. simpl. by rewrite Z.ltb_irrefl. Qed.

Lemma scan_digits_comma (radix : Z) (s : jstr) (acc : Z) (n : nat) :
  44 ∈ s -> 44 ∈ (scan_digits radix s acc n).2.
Proof.
  revert acc n. induction s as [|c s IH]; intros acc n Hs; [by apply elem_of_nil in Hs|]. simpl.
  destruct (digit_of radix c) eqn:E; [|done].
  apply IH. apply elem_of_cons in Hs as [<-|Hs]; [by rewrite digit_of_comma in E|done].
Qed.

Lemma all_digits_comma (s : jstr) : 44 ∈ s -> all_digits s = None.
Proof.
  intros Hs. pose proof (scan_digits_comma 10 s 0 0 Hs) as H. unfold all_digits.
  destruct (scan_digits 10 s 0 0) as [[v [|n]] [|c r]]; simpl in H; try done. by apply elem_of_nil in H.
Qed.

Lemma non_decimal_comma (radix : Z) (s : jstr) : 44 ∈ s -> non_decimal radix s = None.
Proof.
  intros Hs. pose proof (scan_digits_comma radix s 0 0 Hs) as H. unfold non_decimal.
  destruct (scan_digits radix s 0 0) as [[v [|n]] [|c r]]; simpl in H; try done. by apply elem_of_nil in H.
Qed.

(** Peels the head of a string known to contain a comma. *)
Ltac comma_tail H :=
  apply elem_of_cons in H as [H|H]; [try subst; simpl in *; discriminate|].

Lemma signed_integer_comma (s : jstr) : 44 ∈ s -> signed_integer s = None.
Proof.
  intros Hs. unfold signed_integer.
  repeat case_match; subst; try (by apply all_digits_comma); comma_tail Hs;
    by rewrite ?all_digits_comma.
Qed.

Lemma exponent_part_comma (r : jstr) (m e : Z) : 44 ∈ r -> exponent_part r m e = None.
Proof.
  intros Hr. destruct r as [|c r']; [by apply elem_of_nil in Hr|]. simpl.
  apply elem_of_cons in Hr as [<-|Hr]; [done|].
  destruct (_ || _); [|done]. by rewrite signed_integer_comma.
Qed.

Lemma unsigned_decimal_comma (s : jstr) : 44 ∈ s -> unsigned_decimal s = None.
Proof.
  intros Hs. unfold unsigned_decimal.
  rewrite decide_False by (intros ->; revert Hs; apply (bool_decide_eq_false_1 _); vm_compute; reflexivity).
  pose proof (scan_digits_comma 10 s 0 0 Hs) as H1.
  destruct (scan_digits 10 s 0 0) as [[m1 n1] r1]. simpl in H1.
  repeat case_match; simplify_eq; try done; try (by apply exponent_part_comma);
    try (comma_tail H1; pose proof (scan_digits_comma 10 _ 0 0 H1) as H2;
         lazymatch goal with E : scan_digits 10 _ 0 0 = _ |- _ => rewrite E in H2 end;
         by apply exponent_part_comma).
Qed.

Lemma to_number_str_comma (s : jstr) : 44 ∈ s -> to_number_str s = NaN.
Proof.
  intros Hs. apply (trim_keeps 44) in Hs; [|done]. unfold to_number_str.
  destruct (trim s) as [|c t]; [by apply elem_of_nil in Hs|].
  repeat case_match; subst;
    repeat first [ done
                 | by rewrite unsigned_decimal_comma
                 | by rewrite non_decimal_comma
                 | comma_tail Hs ].
Qed.

(** ** [Number.isInteger(x) && x > 0] *)

(** The integer a number denotes, if any: [+0] and [-0] denote [0], a
    finite [(-1)^s * m * 2^e] denotes [n] when the two are equal as
    rationals (cross-multiplied so that no power is negative); NaN and
    the infinities denote none. *)
Definition denotes_int (x : jsnum) (n : Z) : Prop :=
  match x with
  | S754_zero _ => n = 0
  | S754_finite s m e => n * 2 ^ (- Z.min 0 e) = cond_Zopp s (Z.pos m * 2 ^ Z.max 0 e)
  | _ => False
  end.

(** The check [!Number.isInteger(x) || x <= 0] fails exactly on the
    numbers that denote a positive integer. *)
Lemma positive_integer_check (x : jsnum) :
  negb (is_integer x) || js_le x pos_zero = false <-> exists n, 0 < n /\ denotes_int x n.
Proof.
  destruct x as [s|s| |s m e]; [destruct s; cbn; split; [done| |done|]; intros (n & Hn & ->); lia
                              |cbn; split; [done|intros (? & ? & [])]..|].
  pose proof (Z.pow_pos_nonneg 2 (- Z.min 0 e) ltac:(lia) ltac:(lia)).
  pose proof (Z.pow_pos_nonneg 2 (Z.max 0 e) ltac:(lia) ltac:(lia)).
  destruct s; cbn -[Z.pow Z.min Z.max].
  { rewrite orb_true_r. split; [done|]. intros (n & Hn & Hd). nia. }
  rewrite orb_false_r, negb_false_iff, orb_true_iff, Z.leb_le, Z.eqb_eq.
  destruct (Z.le_gt_cases 0 e).
  - rewrite Z.min_l, Z.max_r by lia. split; [intros _|tauto]. exists (Z.pos m * 2 ^ e). split; [nia|]. lia.
  - rewrite Z.min_r, Z.max_l in * by lia. rewrite Z.mul_1_r. split.
    + intros [|Hmod]; [lia|]. exists (Z.pos m / 2 ^ (- e)).
      pose proof (Z.div_mod (Z.pos m) (2 ^ (- e)) ltac:(lia)). rewrite Hmod in *. nia.
    + intros (n & Hn & <-). right. apply Z.mod_mul. lia.
Qed.

End JsNumber.
