(* ===== verification/JsFloat.v ===== *)
(** * Every JavaScript number the handlers compute is a canonical binary64

    Corelib's [SpecFloat] defines the rounding functions of IEEE-754
    arithmetic without their correctness proofs.  The comparisons
    [SFltb] and [SFleb] that model [<] and [<=] compare exponents before
    mantissas, which is right only on canonical floats ([valid_binary]:
    the mantissa has 53 bits, or the exponent is the least one).  This
    file proves, by integer reasoning on the shifts of [shr_fexp], that
    the rounding functions return canonical floats: [binary_round_aux]
    from any input that is not under-aligned, [binary_normalize] always,
    and the correctly rounded division [SFdiv_core_binary] feeds
    [binary_round_aux] an aligned input.  Hence every [Number(..)] of a
    string is canonical ([to_number_str_valid]), and so are the results
    of [||], [Math.min] and [Math.max] on canonical inputs; on canonical
    floats the comparisons with small integers agree with the values,
    which bounds the [LIMIT] and [OFFSET] of the list handler for every
    query. *)

From Stdlib Require Import ZArith SpecFloat.
From S2P Require Import Prelude JsString JsNumber.

Module JsFloat.
Local Open Scope Z_scope.
Import JsNumber.

(** A canonical binary64 value. *)
Definition valid (x : jsnum) : bool := valid_binary prec emax x.

Abbreviation fexp64 := (fexp prec emax).
Abbreviation emin64 := (SpecFloat.emin prec emax).

(** ** Shifts and digits *)

Lemma fexp64_eq (d : Z) : fexp64 d = Z.max (d - 53) (-1074).
Proof. reflexivity. Qed.

Lemma fexp64_mono (a b : Z) : a <= b -> fexp64 a <= fexp64 b.
Proof. rewrite !fexp64_eq. lia. Qed.

Lemma shr_m_of_loc (m : Z) (l : location) : shr_m (shr_record_of_loc m l) = m.
Proof. by destruct l as [|[]]. Qed.

Lemma shr_1_m (r : shr_record) : 0 <= shr_m r -> shr_m (shr_1 r) = shr_m r / 2.
Proof.
  destruct r as [[|[p|p|]|p] rr ss]; cbn [shr_1 shr_m]; intros H.
  - reflexivity.
  - rewrite Pos2Z.inj_xI. rewrite Z.mul_comm, Z.add_comm, Z.div_add by lia. reflexivity.
  - rewrite Pos2Z.inj_xO. rewrite Z.mul_comm, Z.div_mul by lia. reflexivity.
  - reflexivity.
  - lia.
Qed.
Lemma iter_shr_1_m (p : positive) (r : shr_record) :
  0 <= shr_m r -> shr_m (SpecFloat.iter_pos shr_1 p r) = shr_m r / 2 ^ Z.pos p.
Proof.
  revert r. induction p as [p IH|p IH|]; intros r Hr; cbn [SpecFloat.iter_pos].
  - assert (H1 : 0 <= shr_m (shr_1 r)) by (rewrite shr_1_m by exact Hr; apply Z.div_pos; lia).
    assert (H2 : 0 <= shr_m (SpecFloat.iter_pos shr_1 p (shr_1 r)))
      by (rewrite IH by exact H1; apply Z.div_pos; [exact H1|lia]).
    rewrite (IH _ H2), (IH _ H1), (shr_1_m _ Hr).
    rewrite !Z.div_div by lia. f_equal.
    replace (Z.pos p~1) with (Z.pos p + Z.pos p + 1) by lia. rewrite !Z.pow_add_r by lia. ring.
  - assert (H2 : 0 <= shr_m (SpecFloat.iter_pos shr_1 p r)) by (rewrite IH by exact Hr; apply Z.div_pos; lia).
    rewrite (IH _ H2), (IH _ Hr). rewrite Z.div_div by lia. f_equal.
    replace (Z.pos p~0) with (Z.pos p + Z.pos p) by lia. rewrite Z.pow_add_r by lia. ring.
  - rewrite (shr_1_m _ Hr). reflexivity.
Qed.

Lemma Zdigits2_log2 (m : Z) : 0 < m -> Zdigits2 m = Z.log2 m + 1.
Proof.
  destruct m as [|p|p]; try lia. intros _. cbn [Zdigits2]. rewrite digits2_pos_size.
  pose proof (size_bounds p) as Hb.
  rewrite (Z.log2_unique (Z.pos p) (Z.pos (Pos.size p) - 1)); [lia|lia|].
  replace (Z.succ (Z.pos (Pos.size p) - 1)) with (Z.pos (Pos.size p)) by lia. done.
Qed.

Lemma Zdigits2_nonneg (m : Z) : 0 <= Zdigits2 m.
Proof. destruct m; simpl; lia. Qed.

Lemma Zdigits2_mono (a b : Z) : 0 <= a <= b -> Zdigits2 a <= Zdigits2 b.
Proof.
  intros [Ha Hab]. destruct (Z.eq_dec a 0) as [->|Ha0]; [apply Zdigits2_nonneg|].
  rewrite !Zdigits2_log2 by lia. pose proof (Z.log2_le_mono a b Hab). lia.
Qed.

(** A nonzero quotient by [2^n] has [n] digits fewer. *)
Lemma Zdigits2_div_pow (m n : Z) :
  0 <= n -> 0 < m / 2 ^ n -> Zdigits2 (m / 2 ^ n) = Zdigits2 m - n.
Proof.
  intros Hn Hq. assert (0 < m).
  { destruct (Z.le_gt_cases m 0) as [Hm|]; [|done].
    assert (m / 2 ^ n <= 0) by (apply Z.div_le_upper_bound; [apply Z.pow_pos_nonneg|]; nia). lia. }
  rewrite !Zdigits2_log2 by done. rewrite <- Z.shiftr_div_pow2 by done.
  rewrite Z.log2_shiftr by done.
  assert (0 <= Z.log2 m - n \/ Z.log2 m - n < 0) as [|Hle] by lia; [lia|].
  exfalso. assert (m < 2 ^ n).
  { pose proof (Z.log2_spec m ltac:(lia)) as [_ Hlt].
    eapply Z.lt_le_trans; [exact Hlt|]. apply Z.pow_le_mono_r; lia. }
  rewrite Z.div_small in Hq by lia. lia.
Qed.

(** [shr_fexp] on an input that is not under-aligned divides the
    mantissa by [2^n] and moves the exponent to [fexp (digits + e)]. *)
Lemma shr_fexp_spec (m e : Z) (l : location) :
  0 <= m -> e <= fexp64 (Zdigits2 m + e) ->
  shr_m (fst (shr_fexp prec emax m e l)) = m / 2 ^ (fexp64 (Zdigits2 m + e) - e) /\
  snd (shr_fexp prec emax m e l) = fexp64 (Zdigits2 m + e).
Proof.
  intros Hm He. unfold shr_fexp, shr.
  destruct (fexp64 (Zdigits2 m + e) - e) as [|p|p] eqn:E; simpl.
  - rewrite shr_m_of_loc, Z.div_1_r. split; [done|lia].
  - rewrite iter_shr_1_m by (by rewrite shr_m_of_loc). rewrite shr_m_of_loc. split; [done|lia].
  - lia.
Qed.

Lemma Zdigits2_le_pow (m k : Z) : 0 <= m < 2 ^ k -> 0 <= k -> Zdigits2 m <= k.
Proof.
  intros [Hm Hk] Hk0. destruct (Z.eq_dec m 0) as [->|Hm0]; [done|].
  rewrite Zdigits2_log2 by lia. pose proof (Z.log2_lt_pow2 m k ltac:(lia)) as [H _]. specialize (H Hk). lia.
Qed.

Lemma Zdigits2_ge_pow (m k : Z) : 1 <= k -> 2 ^ (k - 1) <= m -> k <= Zdigits2 m.
Proof.
  intros Hk Hm. assert (0 < m) as Hpos by (pose proof (Z.pow_pos_nonneg 2 (k - 1)); lia).
  rewrite Zdigits2_log2 by done. pose proof (Z.log2_le_pow2 m (k - 1) Hpos) as [Hl _].
  specialize (Hl Hm). lia.
Qed.

(** A mantissa is aligned with its exponent when the exponent is the one
    [fexp] gives for its magnitude: the canonical form of [SpecFloat]. *)
Definition aligned (m e : Z) : Prop := fexp64 (Zdigits2 m + e) = e.

(** [shr_fexp] on an input that is not under-aligned returns an aligned
    mantissa. *)
Lemma shr_fexp_aligned (m e : Z) (l : location) :
  0 <= m -> e <= fexp64 (Zdigits2 m + e) ->
  0 <= shr_m (fst (shr_fexp prec emax m e l)) /\
  aligned (shr_m (fst (shr_fexp prec emax m e l))) (snd (shr_fexp prec emax m e l)).
Proof.
  intros Hm He. destruct (shr_fexp_spec m e l Hm He) as [-> ->]. unfold aligned.
  remember (fexp64 (Zdigits2 m + e) - e) as k eqn:Hk.
  assert (0 < 2 ^ k) by (apply Z.pow_pos_nonneg; lia).
  split; [apply Z.div_pos; lia|].
  destruct (Z.eq_dec (m / 2 ^ k) 0) as [Hq|Hq].
  - rewrite Hq. assert (m < 2 ^ k) by (apply Z.div_small_iff in Hq; lia).
    pose proof (Zdigits2_le_pow m k ltac:(lia) ltac:(lia)). cbn [Zdigits2]. rewrite !fexp64_eq in *. lia.
  - pose proof (Z.div_pos m (2 ^ k) Hm ltac:(lia)).
    rewrite Zdigits2_div_pow by lia. rewrite Hk. f_equal. lia.
Qed.

Lemma round_nearest_even_cases (m : Z) (l : location) :
  round_nearest_even m l = m \/ round_nearest_even m l = m + 1.
Proof. destruct l as [|[]]; simpl; try destruct (Z.even m); auto. Qed.

(** [binary_round_aux] returns a canonical float from any input that is
    not under-aligned. *)
Lemma binary_round_aux_valid (sx : bool) (mx ex : Z) (lx : location) :
  0 <= mx -> ex <= fexp64 (Zdigits2 mx + ex) -> valid (binary_round_aux prec emax sx mx ex lx) = true.
Proof.
  intros Hm He. unfold binary_round_aux.
  pose proof (shr_fexp_aligned mx ex lx Hm He) as [H1 A1].
  destruct (shr_fexp prec emax mx ex lx) as [r1 e1]. simpl in H1, A1.
  set (m2 := round_nearest_even (shr_m r1) (loc_of_shr_record r1)).
  assert (0 <= m2 /\ Zdigits2 (shr_m r1) <= Zdigits2 m2) as [H2 D2]
    by (destruct (round_nearest_even_cases (shr_m r1) (loc_of_shr_record r1)) as [E|E]; unfold m2; rewrite E;
        split; [lia| |lia|apply Zdigits2_mono; lia]; lia).
  assert (e1 <= fexp64 (Zdigits2 m2 + e1)) as He2
    by (unfold aligned in A1; pose proof (fexp64_mono (Zdigits2 (shr_m r1) + e1) (Zdigits2 m2 + e1)); lia).
  pose proof (shr_fexp_aligned m2 e1 loc_Exact H2 He2) as [H3 A3].
  destruct (shr_fexp prec emax m2 e1 loc_Exact) as [r2 e2]. simpl in H3, A3.
  destruct (shr_m r2) as [|p|p]; [done| |lia].
  destruct (Z.leb_spec e2 (emax - prec)); [|done].
  unfold valid, valid_binary, bounded, canonical_mantissa. unfold aligned in A3. simpl in A3.
  rewrite A3, Z.eqb_refl. simpl. by apply Z.leb_le.
Qed.

Lemma Zdigits2_bounds (m : Z) : 0 < m -> 2 ^ (Zdigits2 m - 1) <= m < 2 ^ Zdigits2 m.
Proof.
  intros Hm. rewrite Zdigits2_log2 by done. replace (Z.log2 m + 1 - 1) with (Z.log2 m) by lia.
  rewrite Z.add_1_r. exact (Z.log2_spec m Hm).
Qed.

(** [binary_round] aligns the mantissa by [shl_align] before rounding. *)
Lemma binary_round_valid (sx : bool) (p : positive) (e : Z) : valid (binary_round prec emax sx p e) = true.
Proof.
  unfold binary_round, shl_align.
  destruct (fexp64 (Z.pos (digits2_pos p) + e) - e) as [|d|d] eqn:E;
    apply binary_round_aux_valid; cbn [Zdigits2]; try lia.
  change (PosDef.Pos.iter xO p d) with (Pos.iter xO p d).
  rewrite !digits2_pos_size, size_iter_xO in *. rewrite !fexp64_eq in *. lia.
Qed.

Lemma binary_normalize_valid (m e : Z) (sz : bool) : valid (binary_normalize prec emax m e sz) = true.
Proof. destruct m; [done|apply binary_round_valid..]. Qed.

(** The quotient of two positive integers loses at most the digits of
    the divisor. *)
Lemma Zdigits2_div_lower (m1 m2 s : Z) :
  0 < m1 -> 0 < m2 -> 0 <= s -> Zdigits2 m1 + s - Zdigits2 m2 <= Zdigits2 (m1 * 2 ^ s / m2).
Proof.
  intros H1 H2 Hs. remember (Zdigits2 m1 + s - Zdigits2 m2) as k eqn:Hkd.
  destruct (Z.le_gt_cases k 0) as [Hk|Hk]; [pose proof (Zdigits2_nonneg (m1 * 2 ^ s / m2)); lia|].
  apply Zdigits2_ge_pow; [lia|]. apply Z.div_le_lower_bound; [done|].
  pose proof (Zdigits2_bounds m1 H1). pose proof (Zdigits2_bounds m2 H2).
  pose proof (Zdigits2_log2 m1 H1). pose proof (Z.log2_nonneg m1). pose proof (Zdigits2_nonneg m2).
  assert (2 ^ (k - 1) * 2 ^ Zdigits2 m2 = 2 ^ (Zdigits2 m1 - 1) * 2 ^ s) as Hp
    by (rewrite <- !Z.pow_add_r by lia; f_equal; lia).
  assert (0 < 2 ^ (k - 1)) by (apply Z.pow_pos_nonneg; lia).
  assert (0 < 2 ^ s) by (apply Z.pow_pos_nonneg; lia). nia.
Qed.

(** The correctly rounded division of [Number(..)] on a literal with a
    negative exponent feeds [binary_round_aux] a quotient that is not
    under-aligned. *)
Lemma div_core_aligned (m1 m2 : Z) :
  0 < m1 -> 0 < m2 ->
  0 <= fst (fst (SFdiv_core_binary prec emax m1 0 m2 0)) /\
  snd (fst (SFdiv_core_binary prec emax m1 0 m2 0)) <=
    fexp64 (Zdigits2 (fst (fst (SFdiv_core_binary prec emax m1 0 m2 0))) + snd (fst (SFdiv_core_binary prec emax m1 0 m2 0))).
Proof.
  intros H1 H2. unfold SFdiv_core_binary.
  set (e' := Z.min (fexp64 (Zdigits2 m1 + 0 - (Zdigits2 m2 + 0))) (0 - 0)).
  assert (exists s, 0 <= s /\ e' = - s /\
            (match 0 - 0 - e' with Z.pos _ => Z.shiftl m1 (0 - 0 - e') | 0 => m1 | Z.neg _ => 0 end) = m1 * 2 ^ s)
    as (s & Hs & Hes & ->).
  { exists (- e'). destruct (0 - 0 - e') as [|p|p] eqn:E; split; try lia; split; try lia.
    - replace (- e') with 0 by lia. lia.
    - rewrite Z.shiftl_mul_pow2 by lia. do 2 f_equal. lia. }
  destruct (Z.div_eucl (m1 * 2 ^ s) m2) as [q r] eqn:Ed. simpl.
  assert (q = m1 * 2 ^ s / m2) as -> by (unfold Z.div; by rewrite Ed).
  split; [apply Z.div_pos; [pose proof (Z.pow_pos_nonneg 2 s); nia|lia]|].
  pose proof (Zdigits2_div_lower m1 m2 s H1 H2 Hs).
  pose proof (fexp64_mono (Zdigits2 m1 + 0 - (Zdigits2 m2 + 0)) (Zdigits2 (m1 * 2 ^ s / m2) + e')).
  unfold e' in *. lia.
Qed.

(** ** The literals [Number(..)] reads have non-negative mantissas *)

Definition dec_nonneg (d : decimal) : Prop :=
  match d with DFin m _ => 0 <= m | DInf => True end.

Lemma digit_of_nonneg (radix c d : Z) : 0 <= radix -> digit_of radix c = Some d -> 0 <= d.
Proof.
  unfold digit_of. intros Hr.
  destruct (Z.leb_spec 48 c), (Z.leb_spec c 57), (Z.leb_spec 97 c), (Z.leb_spec c 102),
    (Z.leb_spec 65 c), (Z.leb_spec c 70); cbn [andb]; destruct (_ <? _); intros [=]; lia.
Qed.

Lemma scan_digits_nonneg (radix : Z) (s : jstr) (acc : Z) (n : nat) :
  0 <= radix -> 0 <= acc -> 0 <= fst (fst (scan_digits radix s acc n)).
Proof.
  revert acc n. induction s as [|c s IH]; intros acc n Hr Ha; simpl; [done|].
  destruct (digit_of radix c) eqn:E; [|done].
  apply IH; [done|]. pose proof (digit_of_nonneg _ _ _ Hr E). nia.
Qed.

Lemma non_decimal_nonneg (radix : Z) (s : jstr) (v : Z) : 0 <= radix -> non_decimal radix s = Some v -> 0 <= v.
Proof.
  unfold non_decimal. intros Hr. pose proof (scan_digits_nonneg radix s 0 0 Hr ltac:(lia)).
  destruct (scan_digits radix s 0 0) as [[v' [|n]] [|c r]]; simpl in *; intros; simplify_eq; done.
Qed.

Lemma exponent_part_nonneg (r : jstr) (m e : Z) (d : decimal) :
  0 <= m -> exponent_part r m e = Some d -> dec_nonneg d.
Proof.
  unfold exponent_part. intros Hm. destruct r as [|c r']; [intros [= <-]; done|].
  destruct (_ || _); [|discriminate]. destruct (signed_integer r'); simpl; intros; simplify_eq; done.
Qed.

Lemma unsigned_decimal_nonneg (s : jstr) (d : decimal) : unsigned_decimal s = Some d -> dec_nonneg d.
Proof.
  unfold unsigned_decimal. case_decide; [intros [= <-]; done|].
  pose proof (scan_digits_nonneg 10 s 0 0 ltac:(lia) ltac:(lia)) as H1.
  destruct (scan_digits 10 s 0 0) as [[m1 n1] r1]. simpl in H1.
  assert (forall r2, fst (fst (scan_digits 10 r2 0 0)) >= 0) as H2
    by (intros r2; pose proof (scan_digits_nonneg 10 r2 0 0 ltac:(lia) ltac:(lia)); lia).
  repeat case_match; simplify_eq; try discriminate; intros Hd; eapply exponent_part_nonneg; try exact Hd; try done;
    match goal with
    | E : scan_digits 10 ?r 0 0 = (_, ?n2, _) |- _ =>
        specialize (H2 r); rewrite E in H2; simpl in H2; pose proof (Z.pow_nonneg 10 (Z.of_nat n2) ltac:(lia))
    end; nia.
Qed.

Lemma round_decimal_valid (neg : bool) (m e : Z) : 0 <= m -> valid (round_decimal neg m e) = true.
Proof.
  intros Hm. unfold round_decimal. destruct (Z.eqb_spec m 0); [done|].
  destruct (Z.leb_spec 0 e); [apply binary_normalize_valid|].
  assert (0 < 10 ^ (- e)) by (apply Z.pow_pos_nonneg; lia).
  pose proof (div_core_aligned m (10 ^ (- e)) ltac:(lia) ltac:(done)) as [Hq Hal].
  destruct (SFdiv_core_binary prec emax m 0 (10 ^ (- e)) 0) as [[q e'] l]. simpl in *.
  by apply binary_round_aux_valid.
Qed.

Lemma of_decimal_valid (neg : bool) (d : option decimal) :
  (forall x, d = Some x -> dec_nonneg x) -> valid (of_decimal neg d) = true.
Proof.
  intros Hd. destruct d as [[|m e]|]; simpl; try done.
  apply round_decimal_valid. exact (Hd _ eq_refl).
Qed.

Lemma non_decimal_dec_nonneg (radix : Z) (r : jstr) (x : decimal) :
  0 <= radix -> option_map (fun v => DFin v 0) (non_decimal radix r) = Some x -> dec_nonneg x.
Proof.
  intros Hr Hx. destruct (non_decimal radix r) eqn:E; [|discriminate].
  simpl in Hx. simplify_eq. exact (non_decimal_nonneg _ _ _ Hr E).
Qed.

(** [Number(s)] is canonical for every string [s]: every branch of
    StringToNumber rounds through [binary_normalize] or the correctly
    rounded division. *)
Lemma to_number_str_valid (s : jstr) : valid (to_number_str s) = true.
Proof.
  unfold to_number_str. repeat case_match; try done; apply of_decimal_valid; intros x Hx;
    first [exact (unsigned_decimal_nonneg _ _ Hx) | eapply non_decimal_dec_nonneg; [|exact Hx]; lia].
Qed.

(** [||], [Math.min] and [Math.max] return one of their operands, NaN
    or the infinity they start from, so they keep canonical floats. *)
Lemma js_or_valid (x d : jsnum) : valid x = true -> valid d = true -> valid (js_or x d) = true.
Proof. unfold js_or. by destruct (js_truthy_num x). Qed.

Lemma math_min_valid (a b : jsnum) : valid a = true -> valid b = true -> valid (math_min a b) = true.
Proof.
  intros Ha Hb. unfold math_min, min_step.
  repeat case_match; try done; by destruct a.
Qed.

Lemma math_max_valid (a b : jsnum) : valid a = true -> valid b = true -> valid (math_max a b) = true.
Proof.
  intros Ha Hb. unfold math_max, max_step.
  repeat case_match; try done; by destruct a.
Qed.

(** ** [Math.max(lo, Math.min(hi, x))] on canonical floats *)

Lemma of_Z_1 : of_Z 1 = S754_finite false 4503599627370496 (-52).
Proof. vm_compute. reflexivity. Qed.

Lemma of_Z_100 : of_Z 100 = S754_finite false 7036874417766400 (-46).
Proof. vm_compute. reflexivity. Qed.

(** [Math.min(hi, x)] is NaN, [hi], or [x] below [hi]. *)
Lemma math_min_cases (hi x : jsnum) :
  is_nan hi = false -> is_pos_zero hi = false ->
  math_min hi x = NaN \/ math_min hi x = hi \/ (math_min hi x = x /\ js_lt x hi = true).
Proof.
  intros Hn Hz. unfold math_min, min_step.
  destruct hi as [[]|[]| |[] m e]; try discriminate; unfold js_lt; simpl;
    destruct x as [[]|[]| |[] mx ex]; simpl; auto; destruct (SFltb _ _) eqn:E; auto.
Qed.

(** [Math.max(lo, x)] is NaN, [lo], or [x] above [lo]. *)
Lemma math_max_cases (lo x : jsnum) :
  is_nan lo = false -> is_neg_zero lo = false ->
  math_max lo x = NaN \/ math_max lo x = lo \/ (math_max lo x = x /\ js_lt lo x = true).
Proof.
  intros Hn Hz. unfold math_max, max_step.
  destruct lo as [[]|[]| |[] m e]; try discriminate; unfold js_lt; simpl;
    destruct x as [[]|[]| |[] mx ex]; simpl; auto; destruct (SFltb _ _) eqn:E; auto.
Qed.

Lemma div_1_99 (m e : Z) :
  -52 <= e <= -46 -> 2 ^ 52 <= m < 2 ^ 53 -> (e = -46 -> m < 7036874417766400) -> 1 <= m / 2 ^ (- e) <= 99.
Proof.
  intros He Hm H46. assert (0 < 2 ^ (- e)) by (apply Z.pow_pos_nonneg; lia).
  pose proof (Z.pow_le_mono_r 2 (- e) 52 ltac:(lia) ltac:(lia)). split.
  - apply Z.div_le_lower_bound; lia.
  - apply Z.lt_succ_r, Z.div_lt_upper_bound; [lia|].
    destruct (Z.eq_dec e (-46)) as [->|Hne]; [specialize (H46 eq_refl); simpl; lia|].
    pose proof (Z.pow_le_mono_r 2 47 (- e) ltac:(lia) ltac:(lia)).
    assert (2 ^ 53 = 2 ^ 47 * 64) by reflexivity. lia.
Qed.

(** A canonical float strictly between 1 and 100 truncates into
    [1, 99]: its exponent lies in [-52, -46], so, being canonical, its
    mantissa has all 53 bits. *)
Lemma between_1_100 (x : jsnum) :
  valid x = true -> js_lt (of_Z 1) x = true -> js_lt x (of_Z 100) = true -> 1 <= truncate x <= 99.
Proof.
  rewrite of_Z_1, of_Z_100. unfold js_lt, SFltb.
  destruct x as [[]|[]| |[] m e]; try discriminate; cbn [SFcompare].
  unfold valid, valid_binary, bounded, canonical_mantissa. intros Hv H1 H2.
  apply andb_prop in Hv as [Hc _]. apply Z.eqb_eq in Hc. rewrite fexp64_eq in Hc.
  replace (Pos.compare_cont Eq 4503599627370496 m) with (Z.compare 4503599627370496 (Z.pos m)) in H1
    by reflexivity.
  replace (Pos.compare_cont Eq m 7036874417766400) with (Z.compare (Z.pos m) 7036874417766400) in H2
    by reflexivity.
  assert (-52 <= e) by (destruct (Z.compare_spec (-52) e); try discriminate; lia).
  assert (e <= -46 /\ (e = -46 -> Z.pos m < 7036874417766400)) as [He46 Hm46].
  { destruct (Z.compare_spec e (-46)) as [->| |]; try discriminate; [|split; lia].
    destruct (Z.compare_spec (Z.pos m) 7036874417766400); try discriminate. split; lia. }
  pose proof (Zdigits2_bounds (Z.pos m) ltac:(lia)) as Hb. cbn [Zdigits2] in Hb.
  assert (Z.pos (digits2_pos m) = 53) as Hd by lia. rewrite Hd in Hb.
  cbn [truncate cond_Zopp]. destruct (Z.leb_spec 0 e); [lia|].
  apply div_1_99; [lia| |done]. replace (53 - 1) with 52 in Hb by lia. lia.
Qed.

(** [Math.max(1, Math.min(100, x))] on a canonical [x], when it is an
    integer, truncates into [1, 100]. *)
Lemma clamp_1_100 (x : jsnum) :
  valid x = true -> is_integer (math_max (of_Z 1) (math_min (of_Z 100) x)) = true ->
  1 <= truncate (math_max (of_Z 1) (math_min (of_Z 100) x)) <= 100.
Proof.
  intros Hv Hi.
  pose proof (math_min_cases (of_Z 100) x ltac:(by rewrite of_Z_100) ltac:(by rewrite of_Z_100)) as Hz.
  remember (math_min (of_Z 100) x) as z eqn:Ez.
  destruct (math_max_cases (of_Z 1) z ltac:(by rewrite of_Z_1) ltac:(by rewrite of_Z_1)) as [E1|[E1|[E1 Hgt]]];
    rewrite E1 in *; [discriminate|rewrite of_Z_1; vm_compute; split; discriminate|].
  destruct Hz as [->|[->|[-> Hlt]]].
  - rewrite of_Z_1 in Hgt. discriminate.
  - rewrite of_Z_100. vm_compute. split; discriminate.
  - pose proof (between_1_100 x Hv Hgt Hlt). lia.
Qed.

(** [Math.max(0, x)], when it is an integer, truncates to a
    non-negative integer. *)
Lemma clamp_0 (x : jsnum) :
  is_integer (math_max (of_Z 0) x) = true -> 0 <= truncate (math_max (of_Z 0) x).
Proof.
  intros Hi. destruct (math_max_cases (of_Z 0) x eq_refl eq_refl) as [E|[E|[E Hgt]]]; rewrite E in *.
  - discriminate.
  - vm_compute. discriminate.
  - change (of_Z 0) with (S754_zero false) in Hgt.
    destruct x as [[]|[]| |[] m e]; try discriminate; cbn [truncate cond_Zopp]; try done.
    destruct (Z.leb_spec 0 e); [apply Z.mul_nonneg_nonneg; [lia|by apply Z.pow_nonneg]|].
    apply Z.div_pos; [lia|apply Z.pow_pos_nonneg; lia].
Qed.

End JsFloat.
