(* ===== verification/Uri.v ===== *)
(** * [decodeURIComponent] and [encodeURIComponent]

    Express hands the handlers of [src/routes/items.ts] the path
    parameter [:id] after [decodeURIComponent] (its [decode_param]); a
    client builds the path with [encodeURIComponent].  Both are
    modelled from ECMA-262 (Decode and Encode, with an empty reserved
    set) on strings of code points: [decode] reads the string from the
    left, copies every code point that is not [%], reads [%XY] as a
    byte, and a byte [>= 0x80] as the first of a UTF-8 sequence whose
    remaining bytes are escapes as well; a malformed escape, a bad
    leading byte or an invalid UTF-8 sequence (overlong, a surrogate,
    past U+10FFFF) is a [URIError] ([None]).  The loop consumes at least
    one code point per round, so the length of the string is enough
    fuel: [decode_total] shows that [decode] computes the outcome of the
    loop (the relation [decodes], which has no fuel) on every string.
    [decode_encode] is the round trip; [decode_bad_escape] shows that a
    [%] without two hexadecimal digits after it is a [URIError] wherever
    it stands. *)

From Stdlib Require Import ZArith.
From S2P Require Import Prelude JsString JsNumber.

Module Uri.
Local Open Scope Z_scope.
Import JsNumber.

(** ** Decoding *)

(** An escape [%XY] at the head of the string: the byte and the rest. *)
Definition escape (s : jstr) : option (Z * jstr) :=
  match s with
  | c :: h :: l :: r =>
      if c =? 37 then
        match digit_of 16 h, digit_of 16 l with
        | Some a, Some b => Some (a * 16 + b, r)
        | _, _ => None
        end
      else None
  | _ => None
  end.

(** The number [n] of bytes of a UTF-8 sequence announced by its first
    byte [b >= 0x80] (the leading one bits); [0] when [b] cannot start
    a sequence. *)
Definition utf8_length_of (b : Z) : nat :=
  if b <? 192 then 0%nat else if b <? 224 then 2%nat
  else if b <? 240 then 3%nat else if b <? 248 then 4%nat else 0%nat.

(** [n] more escapes, the continuation bytes of a sequence. *)
Fixpoint continuation (n : nat) (s : jstr) : option (list Z * jstr) :=
  match n with
  | O => Some ([], s)
  | S n' =>
      match escape s with
      | None => None
      | Some (b, r) =>
          match continuation n' r with
          | None => None
          | Some (bs, r') => Some (b :: bs, r')
          end
      end
  end.

Definition is_continuation (b : Z) : bool := (128 <=? b) && (b <? 192).

Definition is_surrogate (c : Z) : bool := (55296 <=? c) && (c <=? 57343).

(** The code point a UTF-8 sequence encodes, if it is a valid encoding
    of one: continuation bytes [10xxxxxx], the shortest form for the
    value, no surrogate, at most U+10FFFF. *)
Definition utf8_value (b : Z) (bs : list Z) : option Z :=
  match bs with
  | [b2] =>
      let v := (b - 192) * 64 + (b2 - 128) in
      if is_continuation b2 && (128 <=? v) then Some v else None
  | [b2; b3] =>
      let v := (b - 224) * 4096 + (b2 - 128) * 64 + (b3 - 128) in
      if is_continuation b2 && is_continuation b3 && (2048 <=? v) && negb (is_surrogate v)
      then Some v else None
  | [b2; b3; b4] =>
      let v := (b - 240) * 262144 + (b2 - 128) * 4096 + (b3 - 128) * 64 + (b4 - 128) in
      if is_continuation b2 && is_continuation b3 && is_continuation b4
         && (65536 <=? v) && (v <=? 1114111)
      then Some v else None
  | _ => None
  end.

(** The code point whose encoding starts with the byte [b], read from
    [r]: [b] itself below [0x80], else a UTF-8 sequence of escapes. *)
Definition decode_octets (b : Z) (r : jstr) : option (Z * jstr) :=
  if b <? 128 then Some (b, r) else
  match utf8_length_of b with
  | O => None
  | S n =>
      match continuation n r with
      | None => None
      | Some (bs, r') =>
          match utf8_value b bs with
          | Some v => Some (v, r')
          | None => None
          end
      end
  end.

(** One round of the loop of Decode: the code point it appends and the
    rest of the string. *)
Definition decode_step (s : jstr) : option (Z * jstr) :=
  match s with
  | [] => None
  | c :: r =>
      if negb (c =? 37) then Some (c, r) else
      match escape s with
      | None => None
      | Some (b, r1) => decode_octets b r1
      end
  end.

Fixpoint decode_go (fuel : nat) (s : jstr) : option jstr :=
  match s with
  | [] => Some []
  | _ =>
      match fuel with
      | O => None
      | S f =>
          match decode_step s with
          | None => None
          | Some (c, r) =>
              match decode_go f r with
              | None => None
              | Some t => Some (c :: t)
              end
          end
      end
  end.

(** [decodeURIComponent(s)]; [None] is a thrown [URIError]. *)
Definition decode (s : jstr) : option jstr := decode_go (length s) s.

(** The loop of Decode as a relation, without fuel: [decodes s o] when
    the loop started on [s] stops with the outcome [o]. *)
Inductive decodes : jstr -> option jstr -> Prop :=
  | decodes_nil : decodes [] (Some [])
  | decodes_error c s : decode_step (c :: s) = None -> decodes (c :: s) None
  | decodes_cons c s c' r o :
      decode_step (c :: s) = Some (c', r) -> decodes r o ->
      decodes (c :: s) (option_map (cons c') o).

(** ** Encoding *)

(** The code points [encodeURIComponent] leaves as they are: ASCII
    letters and digits and [- _ . ! ~ * ' ( )]. *)
Definition unreserved (c : Z) : bool :=
  ((65 <=? c) && (c <=? 90)) || ((97 <=? c) && (c <=? 122)) || ((48 <=? c) && (c <=? 57))
  || (c =? 45) || (c =? 95) || (c =? 46) || (c =? 33) || (c =? 126)
  || (c =? 42) || (c =? 39) || (c =? 40) || (c =? 41).

(** A Unicode scalar value: the code points a well-formed string holds. *)
Definition scalar (c : Z) : bool := (0 <=? c) && (c <=? 1114111) && negb (is_surrogate c).

Definition hex_upper (d : Z) : Z := if d <? 10 then 48 + d else 55 + d.

Definition pct_byte (b : Z) : jstr := [37; hex_upper (b / 16); hex_upper (b mod 16)].

(** The UTF-8 encoding of a code point. *)
Definition utf8_bytes (c : Z) : list Z :=
  if c <? 128 then [c]
  else if c <? 2048 then [192 + c / 64; 128 + c mod 64]
  else if c <? 65536 then [224 + c / 4096; 128 + (c / 64) mod 64; 128 + c mod 64]
  else [240 + c / 262144; 128 + (c / 4096) mod 64; 128 + (c / 64) mod 64; 128 + c mod 64].

Definition encode_char (c : Z) : jstr :=
  if unreserved c then [c] else concat (map pct_byte (utf8_bytes c)).

(** [encodeURIComponent(s)] on a well-formed string. *)
Definition encode (s : jstr) : jstr := concat (map encode_char s).

(** ECMA-262's condition on an escape: the two code units after [%]
    are hexadecimal digits. *)
Definition hex_digit (c : Z) : Prop := 48 <= c <= 57 \/ 65 <= c <= 70 \/ 97 <= c <= 102.

Definition escaped (t : jstr) : Prop := exists h l r, t = h :: l :: r /\ hex_digit h /\ hex_digit l.

(** A string with a [%] not followed by two hexadecimal digits. *)
Definition bad_escape (s : jstr) : Prop := exists x t, s = x ++ 37 :: t /\ ~ escaped t.

(** ** Termination of the decoding loop *)

Lemma escape_length (s r : jstr) (b : Z) : escape s = Some (b, r) -> length s = (3 + length r)%nat.
Proof.
  destruct s as [|c [|h [|l r']]]; simpl; try discriminate.
  destruct (c =? 37), (digit_of 16 h), (digit_of 16 l); intros; simplify_eq; done.
Qed.

Lemma continuation_length (n : nat) (s r : jstr) (bs : list Z) :
  continuation n s = Some (bs, r) -> length s = (3 * n + length r)%nat.
Proof.
  revert s bs. induction n as [|n IH]; intros s bs; simpl; [intros; simplify_eq; lia|].
  destruct (escape s) as [[b r1]|] eqn:E; [|discriminate].
  destruct (continuation n r1) as [[bs' r2]|] eqn:C; [|discriminate]. intros; simplify_eq.
  apply escape_length in E. apply IH in C. lia.
Qed.

(** Every round of the loop consumes at least one code point. *)
Lemma decode_step_length (s r : jstr) (c : Z) : decode_step s = Some (c, r) -> (length r < length s)%nat.
Proof.
  destruct s as [|c0 s']; cbn [decode_step]; [discriminate|].
  destruct (negb (c0 =? 37)); [intros; simplify_eq; simpl; lia|].
  destruct (escape (c0 :: s')) as [[b r1]|] eqn:E; [|discriminate].
  apply escape_length in E. simpl in E. unfold decode_octets.
  destruct (b <? 128); [intros; simplify_eq; simpl; lia|].
  destruct (utf8_length_of b) as [|n]; [discriminate|].
  destruct (continuation n r1) as [[bs r2]|] eqn:C; [|discriminate].
  apply continuation_length in C. destruct (utf8_value b bs); intros; simplify_eq; simpl; lia.
Qed.

(** ** Round trip *)

Lemma digit_of_hex_upper (d : Z) : 0 <= d < 16 -> digit_of 16 (hex_upper d) = Some d.
Proof. intros Hd. unfold hex_upper. destruct (Z.ltb_spec d 10); unfold digit_of; zbool; f_equal; lia. Qed.

Lemma escape_pct_byte (b : Z) (r : jstr) : 0 <= b < 256 -> escape (pct_byte b ++ r) = Some (b, r).
Proof.
  intros Hb. unfold pct_byte, escape. cbn [app]. rewrite Z.eqb_refl, !digit_of_hex_upper by (Z.div_mod_to_equations; lia).
  do 2 f_equal. Z.div_mod_to_equations. lia.
Qed.

Lemma continuation_pct_bytes (bs : list Z) (r : jstr) :
  Forall (fun b => 0 <= b < 256) bs -> continuation (length bs) (concat (map pct_byte bs) ++ r) = Some (bs, r).
Proof.
  induction 1 as [|b bs Hb _ IH]; [done|]. cbn [map concat length continuation].
  rewrite <- app_assoc, escape_pct_byte by done. by rewrite IH.
Qed.

(** The UTF-8 encoding of a code point past ASCII is a leading byte
    that announces the length of the sequence, then continuation bytes;
    [utf8_value] reads the code point back. *)
Lemma utf8_bytes_spec (c : Z) :
  scalar c = true -> 128 <= c ->
  exists b bs, utf8_bytes c = b :: bs /\ 128 <= b < 256 /\ Forall (fun b => 0 <= b < 256) bs /\
    utf8_length_of b = S (length bs) /\ utf8_value b bs = Some c.
Proof.
  unfold scalar, is_surrogate. intros Hc Hc128. unfold utf8_bytes.
  destruct (Z.ltb_spec c 128); [lia|]. destruct (Z.ltb_spec c 2048); [|destruct (Z.ltb_spec c 65536)];
    (eexists _, _; split; [reflexivity|]);
    repeat split; repeat constructor;
    unfold utf8_length_of, utf8_value, is_continuation, is_surrogate in *;
    Z.div_mod_to_equations; zbool; try f_equal; lia.
Qed.

Lemma decode_step_escape (s r : jstr) (b : Z) : escape s = Some (b, r) -> decode_step s = decode_octets b r.
Proof.
  intros E. destruct s as [|c s']; [discriminate|]. cbn [decode_step]. rewrite E.
  destruct s' as [|h [|l r']]; try discriminate. simpl in E. by destruct (Z.eqb_spec c 37).
Qed.

Lemma decode_step_encode_char (c : Z) (r : jstr) : scalar c = true -> decode_step (encode_char c ++ r) = Some (c, r).
Proof.
  intros Hc. unfold encode_char. destruct (unreserved c) eqn:U.
  - simpl. destruct (Z.eqb_spec c 37); [subst; discriminate|]. done.
  - destruct (Z.ltb_spec c 128) as [Hlt|Hge].
    + assert (0 <= c) by (unfold scalar in Hc; zbool; lia).
      unfold utf8_bytes. destruct (Z.ltb_spec c 128); [|lia]. cbn [map concat]. rewrite app_nil_r.
      rewrite (decode_step_escape _ r c) by (apply escape_pct_byte; lia).
      unfold decode_octets. by destruct (Z.ltb_spec c 128); [|lia].
    + destruct (utf8_bytes_spec c Hc Hge) as (b & bs & -> & Hb & Hbs & Hn & Hv).
      cbn [map concat]. rewrite <- app_assoc.
      rewrite (decode_step_escape _ _ b) by (apply escape_pct_byte; lia).
      unfold decode_octets. destruct (Z.ltb_spec b 128); [lia|]. rewrite Hn, continuation_pct_bytes by done.
      by rewrite Hv.
Qed.

Lemma decodes_step (s r : jstr) (c : Z) (o : option jstr) :
  decode_step s = Some (c, r) -> decodes r o -> decodes s (option_map (cons c) o).
Proof. destruct s; [discriminate|]. apply decodes_cons. Qed.

Lemma decodes_fun (s : jstr) (o1 o2 : option jstr) : decodes s o1 -> decodes s o2 -> o1 = o2.
Proof.
  intros H1. revert o2. induction H1 as [|c s E|c s c' r o E _ IH]; intros o2 H2; inversion H2; subst; try congruence.
  rewrite E in *. simplify_eq. by rewrite (IH _ ltac:(eassumption)).
Qed.

Lemma decodes_decode_go (f : nat) (s : jstr) : (length s <= f)%nat -> decodes s (decode_go f s).
Proof.
  revert s. induction f as [|f IH]; intros s Hs.
  - destruct s; simpl in Hs; [constructor|lia].
  - destruct s as [|c s']; [constructor|]. cbn [decode_go].
    destruct (decode_step (c :: s')) as [[c' r]|] eqn:E; [|by constructor].
    pose proof (decode_step_length _ _ _ E) as Hr. simpl in Hs, Hr.
    pose proof (decodes_step _ _ _ _ E (IH r ltac:(lia))) as H. by destruct (decode_go f r).
Qed.

Lemma decodes_decode (s : jstr) : decodes s (decode s).
Proof. apply decodes_decode_go. lia. Qed.

Lemma decodes_encode (s : jstr) : Forall (fun c => scalar c = true) s -> decodes (encode s) (Some s).
Proof.
  induction 1 as [|c s Hc _ IH]; [constructor|].
  unfold encode. cbn [map concat]. change (concat (map encode_char s)) with (encode s).
  exact (decodes_step _ _ _ _ (decode_step_encode_char c (encode s) Hc) IH).
Qed.

(** ** The encoding as a path segment *)

Lemma pct_byte_no_slash (b : Z) : 0 <= b -> Forall (fun x => x <> 47) (pct_byte b).
Proof.
  intros Hb. unfold pct_byte, hex_upper.
  repeat constructor; [lia| |]; zbool; Z.div_mod_to_equations; lia.
Qed.

(** No code point of [encodeURIComponent(s)] is a [/]. *)
Lemma encode_no_slash (s : jstr) : Forall (fun c => scalar c = true) s -> Forall (fun x => x <> 47) (encode s).
Proof.
  induction 1 as [|c s Hc _ IH]; [constructor|]. unfold encode. cbn [map concat].
  apply Forall_app; split; [|exact IH]. unfold encode_char. destruct (unreserved c) eqn:U.
  - constructor; [|constructor]. intros ->. discriminate.
  - destruct (Z.ltb_spec c 128) as [Hlt|Hge].
    + unfold utf8_bytes. destruct (Z.ltb_spec c 128); [|lia]. cbn [map concat]. rewrite app_nil_r.
      apply pct_byte_no_slash. apply andb_prop in Hc as [Hc _]. apply andb_prop in Hc as [Hc _]. lia.
    + destruct (utf8_bytes_spec c Hc Hge) as (b & bs & -> & Hb & Hbs & _).
      apply Forall_concat, Forall_map. constructor; [apply pct_byte_no_slash; lia|].
      eapply Forall_impl; [exact Hbs|]. intros x Hx. apply pct_byte_no_slash. cbv beta in Hx. lia.
Qed.

Lemma encode_nil (s : jstr) : encode s = [] -> s = [].
Proof.
  destruct s as [|c s]; [done|]. unfold encode, encode_char. cbn [map concat].
  destruct (unreserved c); [discriminate|]. unfold utf8_bytes.
  by repeat destruct (_ <? _).
Qed.

(** [decodeURIComponent] terminates on every string: the loop of
    Decode, read as a relation without fuel, stops on every input with
    exactly one outcome (a string or a [URIError]), and [decode], whose
    fuel is the length of the string, computes that outcome. *)
Theorem decode_total (s : jstr) (o : option jstr) : decodes s o <-> decode s = o.
Proof. split; [apply decodes_fun, decodes_decode|intros <-; apply decodes_decode]. Qed.

(** C23: [decodeURIComponent] inverts [encodeURIComponent]: for every
    well-formed string (Unicode scalar values only), decoding the
    encoding gives the string back. *)
Theorem decode_encode (s : jstr) : Forall (fun c => scalar c = true) s -> decode (encode s) = Some s.
Proof. intros Hs. apply (decodes_fun (encode s)); [apply decodes_decode|by apply decodes_encode]. Qed.

(** ** A [%] without two hexadecimal digits *)

Lemma digit_of_hex (c v : Z) : digit_of 16 c = Some v -> hex_digit c.
Proof. unfold digit_of, hex_digit. cbv zeta. zbool; intros Hv; try discriminate; lia. Qed.

Lemma escape_bad (s r : jstr) (b : Z) : bad_escape s -> escape s = Some (b, r) -> bad_escape r.
Proof.
  intros (x & t & -> & Ht) He.
  destruct x as [|c [|h [|l x]]]; cbn in He; repeat case_match; simplify_eq;
    repeat match goal with Hd : digit_of 16 _ = Some _ |- _ => apply digit_of_hex in Hd end;
    try (by unfold hex_digit in *; lia).
  - exfalso. apply Ht. by eexists _, _, _.
  - by exists x, t.
Qed.

Lemma continuation_bad (n : nat) (s r : jstr) (bs : list Z) :
  bad_escape s -> continuation n s = Some (bs, r) -> bad_escape r.
Proof.
  revert s bs. induction n as [|n IH]; intros s bs Hs; cbn; [by intros [= _ <-]|].
  destruct (escape s) as [[b r1]|] eqn:E; [|done].
  destruct (continuation n r1) as [[bs' r']|] eqn:Ec; intros [=]; subst.
  eapply IH; [eapply escape_bad|]; eauto.
Qed.

Lemma decode_step_bad (s r : jstr) (c : Z) : bad_escape s -> decode_step s = Some (c, r) -> bad_escape r.
Proof.
  intros Hs. destruct s as [|c0 r0]; [done|]. cbn [decode_step].
  destruct (Z.eqb_spec c0 37) as [->|Hc]; cbn [negb].
  - destruct (escape (37 :: r0)) as [[b r1]|] eqn:E; [|done].
    pose proof (escape_bad _ _ _ Hs E) as Hr1. unfold decode_octets.
    repeat case_match; intros [=]; subst; eauto using continuation_bad.
  - intros [= <- <-]. destruct Hs as ([|c1 x] & t & Hx & Ht); cbn in Hx; simplify_eq. by exists x, t.
Qed.

(** C24: [decodeURIComponent] throws a [URIError] on every string
    holding a [%] that is not followed by two hexadecimal digits,
    wherever it stands: also at the end of the string, or inside the
    escapes of a multi-byte sequence. *)
Theorem decode_bad_escape (x t : jstr) : ~ escaped t -> decode (x ++ 37 :: t) = None.
Proof.
  intros Ht. unfold decode. assert (Hb : bad_escape (x ++ 37 :: t)) by (exists x, t; done).
  generalize (length (x ++ 37 :: t)). revert Hb. generalize (x ++ 37 :: t) as s. intros s Hb f. revert s Hb.
  induction f as [|f IH]; intros s Hb; (destruct s as [|c r]; [destruct Hb as ([|] & ? & ? & _); discriminate|]);
    cbn [decode_go]; [done|].
  destruct (decode_step (c :: r)) as [[d r']|] eqn:E; [|done].
  by rewrite (IH r') by (eapply decode_step_bad; eauto).
Qed.

End Uri.
