(* ===== verification/DbPath.v ===== *)
(** * The location of the database file ([src/db.ts], lines 5-8)

    [db.ts] finds its database next to the code that runs it:
    [__filename = fileURLToPath(import.meta.url)],
    [__dirname = path.dirname(__filename)] and
    [dbPath = path.join(__dirname, "..", "data.sqlite")].  This file
    models the three library calls on POSIX, from Node's sources:
    [fileURLToPath] ([file_url_to_path]: the scheme must be [file:], the
    host empty, the path may not contain an encoded [/], and it is
    percent-decoded with [decodeURIComponent]); [path.posix.dirname]
    ([dirname], its backward scan written over the characters after the
    first); [path.posix.join] and [path.posix.normalize] ([join],
    [normalize]) with the loop of [normalizeString]
    ([normalize_string]), whose indices [lastSlash] and [i] are kept as
    the segment read since the last [/] ([seg]).  The URL is given as
    its parsed parts; WHATWG URL parsing is not modelled.

    [db_path_spec] shows that for a module at [/d1/.../dn/f] the file is
    [/d1/.../d(n-1)/data.sqlite], the parent of the module's directory,
    whatever the working directory of the process; a module at the root
    gives [/data.sqlite]. *)

From Stdlib Require Import ZArith.
From S2P Require Import Prelude JsString JsNumber Uri.

Module DbPath.
Local Open Scope Z_scope.
Import JsString Uri.

(** ** [fileURLToPath] *)

(** The parts of a parsed URL the conversion reads. *)
Record url := mkUrl {
  protocol : jstr;
  hostname : jstr;
  pathname : jstr
}.

Inductive path_error :=
  | InvalidUrlScheme        (* ERR_INVALID_URL_SCHEME *)
  | InvalidFileUrlHost      (* ERR_INVALID_FILE_URL_HOST *)
  | InvalidFileUrlPath      (* ERR_INVALID_FILE_URL_PATH *)
  | UriError.               (* decodeURIComponent's URIError *)

(** [pathname[n] === "%"], [pathname[n + 1] === "2"] and
    [(pathname.codePointAt(n + 2) | 0x20) === 102] for some [n]: an
    encoded [/]. *)
Fixpoint has_encoded_slash (p : jstr) : bool :=
  match p with
  | c :: t =>
      match t with
      | c1 :: c2 :: _ => ((c =? 37) && (c1 =? 50) && (Z.lor c2 32 =? 102)) || has_encoded_slash t
      | _ => has_encoded_slash t
      end
  | [] => false
  end.

(** [fileURLToPath(url)] on POSIX ([getPathFromURLPosix]). *)
Definition file_url_to_path (u : url) : result path_error jstr :=
  if negb (bool_decide (protocol u = js "file:")) then Err InvalidUrlScheme
  else if negb (bool_decide (hostname u = [])) then Err InvalidFileUrlHost
  else if has_encoded_slash (pathname u) then Err InvalidFileUrlPath
  else match decode (pathname u) with
       | Some p => Ok p
       | None => Err UriError
       end.

(** ** [path.posix.dirname] *)

(** The loop [for (i = path.length - 1; i >= 1; --i)] on the characters
    after the first, read backwards from index [i]: skip the trailing
    slashes, then the last segment; the index of the slash before it,
    or [-1]. *)
Fixpoint scan_end (l : jstr) (i : Z) (matched_slash : bool) : Z :=
  match l with
  | [] => -1
  | c :: l' =>
      if c =? 47 then (if matched_slash then scan_end l' (i - 1) matched_slash else i)
      else scan_end l' (i - 1) false
  end.

Definition dirname (p : jstr) : jstr :=
  match p with
  | [] => js "."
  | c0 :: rest =>
      let has_root := c0 =? 47 in
      let e := scan_end (rev rest) (Z.of_nat (length p) - 1) true in
      if e =? -1 then (if has_root then js "/" else js ".")
      else if has_root && (e =? 1) then js "//"
      else take (Z.to_nat e) p
  end.

(** ** [path.posix.normalize] and [path.posix.join] *)

(** The state of [normalizeString]: [res], [lastSegmentLength], the
    characters since the last separator ([path.slice(lastSlash + 1, i)])
    and [dots]. *)
Record nstate := mkN {
  res : jstr;
  last_len : Z;
  seg : jstr;
  dots : Z
}.

(** [s.lastIndexOf(c)], scanning from index [i] with the last index
    [found] so far. *)
Fixpoint last_index_of (c : Z) (s : jstr) (i found : Z) : Z :=
  match s with
  | [] => found
  | x :: r => last_index_of c r (i + 1) (if x =? c then i else found)
  end.

Definition last_slash (s : jstr) : Z := last_index_of 47 s 0 (-1).

(** A [..] segment: drop the last segment of [res], or keep [..] when
    the path may go above its root. *)
Definition dot_dot (allow_above_root : bool) (r : jstr) (ll : Z) : jstr * Z :=
  let n := Z.of_nat (length r) in
  let ends_dot_dot :=
    (2 <=? n) && (ll =? 2) && bool_decide (last r = Some 46) && (nth (length r - 2) r 0 =? 46) in
  if negb ends_dot_dot && (2 <? n) then
    let k := last_slash r in
    if k =? -1 then ([], 0)
    else let r' := take (Z.to_nat k) r in (r', Z.of_nat (length r') - 1 - last_slash r')
  else if negb ends_dot_dot && negb (n =? 0) then ([], 0)
  else if allow_above_root then ((if 0 <? n then r ++ js "/.." else js ".."), 2)
  else (r, ll).

(** At a separator (or at the end of the path). *)
Definition separator (allow_above_root : bool) (st : nstate) : nstate :=
  if bool_decide (seg st = []) || (dots st =? 1) then mkN (res st) (last_len st) [] 0
  else if dots st =? 2 then
    let '(r', ll') := dot_dot allow_above_root (res st) (last_len st) in mkN r' ll' [] 0
  else
    let r' := if 0 <? Z.of_nat (length (res st)) then res st ++ 47 :: seg st else seg st in
    mkN r' (Z.of_nat (length (seg st))) [] 0.

(** [if (code === CHAR_DOT && dots !== -1) ++dots; else dots = -1;] *)
Definition dot_step (d c : Z) : Z := if (c =? 46) && negb (d =? -1) then d + 1 else -1.

Definition norm_char (allow_above_root : bool) (st : nstate) (c : Z) : nstate :=
  if c =? 47 then separator allow_above_root st
  else mkN (res st) (last_len st) (seg st ++ [c]) (dot_step (dots st) c).

(** The loop runs to [i = path.length], where a path not ending in [/]
    meets one more separator (one after a final [/] changes nothing). *)
Definition normalize_string (allow_above_root : bool) (p : jstr) : jstr :=
  res (separator allow_above_root (fold_left (norm_char allow_above_root) p (mkN [] 0 [] 0))).

Definition normalize (p : jstr) : jstr :=
  match p with
  | [] => js "."
  | c :: _ =>
      let is_absolute := c =? 47 in
      let trailing := bool_decide (last p = Some 47) in
      let r := normalize_string (negb is_absolute) p in
      if bool_decide (r = []) then (if is_absolute then js "/" else if trailing then js "./" else js ".")
      else
        let r' := if trailing then r ++ [47] else r in
        if is_absolute then 47 :: r' else r'
  end.

(** [path.join(...args)]: the non-empty arguments joined by [/], then
    normalized. *)
Definition join (args : list jstr) : jstr :=
  match List.filter (fun a => bool_decide (a <> [])) args with
  | [] => js "."
  | a :: rest => normalize (fold_left (fun j x => j ++ 47 :: x) rest a)
  end.

(** ** [dbPath] *)

Definition db_path (module_url : url) : result path_error jstr :=
  match file_url_to_path module_url with
  | Err e => Err e
  | Ok filename => Ok (join [dirname filename; js ".."; js "data.sqlite"])
  end.

(** ** Paths of plain segments *)

(** A segment of a path: not empty, without [/] or [%], and neither
    [.] nor [..]. *)
Definition plain_segment (s : jstr) : Prop :=
  s <> [] /\ Forall (fun c => c <> 47 /\ c <> 37) s /\ s <> js "." /\ s <> js "..".

(** [/s1/s2/.../sn] *)
Definition abs_path (segs : list jstr) : jstr := concat (map (fun s => 47 :: s) segs).

(** [res] after one more segment. *)
Definition push (r s : jstr) : jstr := if 0 <? Z.of_nat (length r) then r ++ 47 :: s else s.

Lemma abs_path_app (l1 l2 : list jstr) : abs_path (l1 ++ l2) = abs_path l1 ++ abs_path l2.
Proof. unfold abs_path. by rewrite map_app, concat_app. Qed.

Lemma abs_path_cons (s : jstr) (l : list jstr) : abs_path (s :: l) = 47 :: s ++ abs_path l.
Proof. done. Qed.

Lemma abs_path_chars (segs : list jstr) (P : Z -> Prop) :
  P 47 -> Forall (fun s => Forall P s) segs -> Forall P (abs_path segs).
Proof.
  intros H47. induction 1 as [|s segs Hs _ IH]; [constructor|].
  rewrite abs_path_cons. constructor; [done|]. by apply Forall_app.
Qed.

Lemma plain_no_slash (s : jstr) : plain_segment s -> Forall (fun c => c <> 47) s.
Proof. intros (_ & H & _). eapply Forall_impl; [exact H|]. naive_solver. Qed.

Lemma plain_no_pct (segs : list jstr) : Forall plain_segment segs -> Forall (fun c => c <> 37) (abs_path segs).
Proof.
  intros H. apply abs_path_chars; [lia|]. eapply Forall_impl; [exact H|].
  intros s (_ & Hs & _). eapply Forall_impl; [exact Hs|]. naive_solver.
Qed.

(** ** [fileURLToPath] on a plain path *)

Lemma has_encoded_slash_none (p : jstr) : Forall (fun c => c <> 37) p -> has_encoded_slash p = false.
Proof.
  induction 1 as [|c t Hc _ IH]; [done|]. cbn [has_encoded_slash].
  destruct t as [|c1 [|c2 t']]; [done|done|]. by rewrite IH, (proj2 (Z.eqb_neq c 37)).
Qed.

Lemma decode_plain (p : jstr) : Forall (fun c => c <> 37) p -> decode p = Some p.
Proof.
  unfold decode. intros Hp. enough (H : forall f, (length p <= f)%nat -> decode_go f p = Some p) by (apply H; lia).
  induction Hp as [|c t Hc _ IH]; intros f Hf; [by destruct f|].
  destruct f as [|f]; [simpl in Hf; lia|]. cbn [decode_go]. unfold decode_step.
  rewrite (proj2 (Z.eqb_neq c 37)) by done. cbn [negb]. rewrite IH; [done|simpl in Hf; lia].
Qed.

Lemma file_url_to_path_plain (segs : list jstr) : Forall plain_segment segs ->
  file_url_to_path (mkUrl (js "file:") [] (abs_path segs)) = Ok (abs_path segs).
Proof.
  intros Hs. unfold file_url_to_path. cbn [protocol hostname pathname].
  rewrite !bool_decide_true by done. cbn [negb].
  by rewrite has_encoded_slash_none, decode_plain by (by apply plain_no_pct).
Qed.

(** ** [dirname] of a plain path *)

Lemma scan_end_solid (cs : jstr) (i : Z) (m : bool) : Forall (fun c => c <> 47) cs -> scan_end cs i m = -1.
Proof.
  intros H. revert i m. induction H as [|c cs Hc _ IH]; intros i m; [done|].
  cbn [scan_end]. by rewrite (proj2 (Z.eqb_neq c 47)).
Qed.

Lemma scan_end_app (cs l : jstr) (i : Z) (m : bool) : Forall (fun c => c <> 47) cs -> cs <> [] ->
  scan_end (cs ++ 47 :: l) i m = i - Z.of_nat (length cs).
Proof.
  intros H. revert i m. induction H as [|c cs Hc Hcs IH]; intros i m Hne; [done|].
  cbn [app scan_end]. rewrite (proj2 (Z.eqb_neq c 47)) by done.
  destruct cs as [|c' cs']; [simpl; lia|]. rewrite IH by done. simpl. lia.
Qed.

Lemma dirname_abs (dirs : list jstr) (file : jstr) : Forall plain_segment (dirs ++ [file]) ->
  dirname (abs_path (dirs ++ [file])) = match dirs with [] => js "/" | _ => abs_path dirs end.
Proof.
  intros Hall. apply Forall_app in Hall as [Hd Hf]. apply Forall_inv in Hf.
  pose proof (plain_no_slash _ Hf) as Hfs. destruct Hf as (Hfne & _).
  rewrite abs_path_app. destruct dirs as [|d ds].
  - cbn [abs_path map concat app]. rewrite app_nil_r. unfold dirname.
    rewrite scan_end_solid by (by apply Forall_rev). done.
  - set (A := d ++ abs_path ds).
    assert (Hp : abs_path (d :: ds) ++ abs_path [file] = 47 :: (A ++ 47 :: file))
      by (unfold A, abs_path; cbn; rewrite app_nil_r, <- app_assoc; reflexivity).
    rewrite Hp. unfold dirname. cbv zeta.
    rewrite rev_app_distr. cbn [rev]. rewrite <- app_assoc. cbn [app].
    rewrite scan_end_app; [|by apply Forall_rev|intros Hr; apply Hfne; by rewrite <- (rev_involutive file), Hr].
    assert (0 < length A)%nat by (destruct (Forall_inv Hd) as (Hne & _); unfold A; destruct d; simpl; [done|lia]).
    rewrite length_rev. cbn [length]. rewrite length_app. cbn [length].
    zbool.
    replace (Z.to_nat _) with (S (length A)) by lia. cbn [take]. by rewrite take_app_length.
Qed.

(** ** [normalizeString] on a plain path *)

Lemma dot_step_minus (s : jstr) : fold_left dot_step s (-1) = -1.
Proof. induction s as [|c s IH]; [done|]. cbn [fold_left]. unfold dot_step at 2. by rewrite andb_false_r. Qed.

(** [dots] counts the dots of a segment made only of dots, and is [-1]
    otherwise. *)
Lemma dot_step_fold (s : jstr) (d : Z) : 0 <= d ->
  fold_left dot_step s d = if forallb (fun c => c =? 46) s then d + Z.of_nat (length s) else -1.
Proof.
  revert d. induction s as [|c s IH]; intros d Hd; [simpl; lia|]. cbn [fold_left forallb length].
  unfold dot_step at 2. rewrite (proj2 (Z.eqb_neq d (-1))) by lia.
  destruct (Z.eqb_spec c 46); cbn [andb negb].
  - rewrite IH by lia. case_match; lia.
  - by rewrite dot_step_minus.
Qed.

Lemma plain_dots (s : jstr) : plain_segment s -> fold_left dot_step s 0 <> 1 /\ fold_left dot_step s 0 <> 2.
Proof.
  intros (Hne & _ & H1 & H2). rewrite dot_step_fold by lia.
  destruct (forallb _ s) eqn:E; [|lia]. rewrite forallb_forall in E.
  destruct s as [|a [|b [|c s']]]; [done| | |simpl; lia];
    [assert (a = 46) by (apply Z.eqb_eq, E; by left)
    |assert (a = 46) by (apply Z.eqb_eq, E; by left); assert (b = 46) by (apply Z.eqb_eq, E; right; by left)];
    subst; simpl in *; done.
Qed.

(** The state with [res] so far, [lastSegmentLength], and the pending
    segment [s]. *)
Definition pending (r : jstr) (ll : Z) (s : jstr) : nstate := mkN r ll s (fold_left dot_step s 0).

Lemma read_solid (a : bool) (s s0 r : jstr) (ll d0 : Z) : Forall (fun c => c <> 47) s ->
  fold_left (norm_char a) s (mkN r ll s0 d0) = mkN r ll (s0 ++ s) (fold_left dot_step s d0).
Proof.
  intros H. revert s0 d0. induction H as [|c s Hc _ IH]; intros s0 d0; [by rewrite app_nil_r|].
  cbn [fold_left]. unfold norm_char at 2. rewrite (proj2 (Z.eqb_neq c 47)) by done. cbn [res last_len seg dots].
  by rewrite IH, <- app_assoc.
Qed.

Lemma flush_plain (a : bool) (r s : jstr) (ll : Z) : plain_segment s ->
  separator a (pending r ll s) = mkN (push r s) (Z.of_nat (length s)) [] 0.
Proof.
  intros Hs. destruct (plain_dots s Hs) as [H1 H2]. destruct Hs as (Hne & _).
  unfold separator, pending. cbn [seg dots res last_len].
  rewrite bool_decide_false, (proj2 (Z.eqb_neq _ 1)), (proj2 (Z.eqb_neq _ 2)) by done. done.
Qed.

Lemma step_pending (a : bool) (r s s' : jstr) (ll : Z) : plain_segment s' -> plain_segment s ->
  fold_left (norm_char a) (47 :: s) (pending r ll s') = pending (push r s') (Z.of_nat (length s')) s.
Proof.
  intros Hs' Hs. cbn [fold_left]. unfold norm_char at 2. rewrite Z.eqb_refl, flush_plain by done.
  by rewrite read_solid by (by apply plain_no_slash).
Qed.

Lemma last_default {A} (x : A) (l : list A) (d d' : A) : List.last (x :: l) d = List.last (x :: l) d'.
Proof. revert x. induction l as [|y l IH]; intros x; [done|]. cbn [List.last]. apply IH. Qed.

Lemma fold_abs (a : bool) (segs : list jstr) (r s : jstr) (ll : Z) : Forall plain_segment (s :: segs) ->
  exists ll', fold_left (norm_char a) (abs_path segs) (pending r ll s) =
              pending (fold_left push (removelast (s :: segs)) r) ll' (List.last (s :: segs) s).
Proof.
  revert r s ll. induction segs as [|t segs IH]; intros r s ll Hall; [by exists ll|].
  inversion Hall as [|? ? Hs Hts]; subst. inversion Hts as [|? ? Ht _]; subst.
  rewrite abs_path_cons, app_comm_cons, fold_left_app, step_pending by done.
  destruct (IH (push r s) t (Z.of_nat (length s)) Hts) as [ll' ->]. exists ll'.
  cbn [removelast fold_left]. by rewrite (last_default t segs t s).
Qed.

Lemma last_index_of_solid (c : Z) (s : jstr) (i f : Z) : Forall (fun x => x <> c) s -> last_index_of c s i f = f.
Proof.
  intros H. revert i f. induction H as [|x s Hx _ IH]; intros i f; [done|]. cbn [last_index_of].
  by rewrite (proj2 (Z.eqb_neq x c)), IH.
Qed.

Lemma last_index_of_app (c : Z) (s1 s2 : jstr) (i f : Z) :
  last_index_of c (s1 ++ s2) i f = last_index_of c s2 (i + Z.of_nat (length s1)) (last_index_of c s1 i f).
Proof.
  revert i f. induction s1 as [|x s1 IH]; intros i f; cbn [app last_index_of length]; [by rewrite Z.add_0_r|].
  rewrite IH. f_equal. lia.
Qed.

(** A [..] after plain segments drops the last one. *)
Lemma dot_dot_push (r s : jstr) : plain_segment s ->
  fst (dot_dot false (push r s) (Z.of_nat (length s))) = r.
Proof.
  intros Hs. pose proof (plain_no_slash s Hs) as Hsl. destruct Hs as (Hne & _ & _ & Hdd).
  set (pre := if 0 <? Z.of_nat (length r) then r ++ [47] else []).
  assert (Hp : push r s = pre ++ s) by (unfold push, pre; case_match; [by rewrite <- app_assoc|done]).
  assert (Hend : ((2 <=? Z.of_nat (length (push r s))) && (Z.of_nat (length s) =? 2) &&
                  bool_decide (last (push r s) = Some 46) && (nth (length (push r s) - 2) (push r s) 0 =? 46)) = false).
  { destruct (Z.eqb_spec (Z.of_nat (length s)) 2) as [Hl|]; [|by rewrite andb_false_r].
    destruct s as [|x [|y [|z s']]]; try (simpl in Hl; lia).
    rewrite Hp, last_app by done. cbn [last]. rewrite length_app, app_nth2 by (simpl; lia). cbn [length].
    replace (length pre + 2 - 2 - length pre)%nat with 0%nat by lia. cbn [nth].
    destruct (Z.eqb_spec x 46), (bool_decide_reflect (Some y = Some 46)) as [[= ->]|]; subst;
      rewrite ?andb_false_r; done. }
  unfold dot_dot. cbv zeta. rewrite Hend. cbn [negb andb].
  unfold push. destruct (Z.ltb_spec 0 (Z.of_nat (length r))) as [Hr|Hr].
  - assert (Hk : last_slash (r ++ 47 :: s) = Z.of_nat (length r)).
    { unfold last_slash. rewrite last_index_of_app. cbn [last_index_of]. rewrite Z.eqb_refl.
      by rewrite last_index_of_solid. }
    assert (0 < length s)%nat by (destruct s; [done|simpl; lia]).
    rewrite length_app, Hk. cbn [length].
    rewrite (proj2 (Z.ltb_lt 2 _)), (proj2 (Z.eqb_neq _ (-1))) by lia. cbn [fst].
    by rewrite Nat2Z.id, take_app_length.
  - assert (r = []) as -> by (destruct r; [done|simpl in Hr; lia]).
    unfold last_slash. rewrite last_index_of_solid by done.
    destruct (2 <? _); cbn; [done|]. destruct s; [done|]. done.
Qed.


Lemma push_abs (l : list jstr) (r : jstr) : r <> [] -> Forall (fun s => s <> []) l ->
  fold_left push l r = r ++ abs_path l.
Proof.
  intros Hr Hl. revert r Hr. induction Hl as [|s l Hs _ IH]; intros r Hr; [by rewrite app_nil_r|].
  cbn [fold_left]. unfold push at 2. rewrite (proj2 (Z.ltb_lt 0 _)) by (destruct r; [done|simpl; lia]).
  rewrite IH by (by destruct r). rewrite abs_path_cons. by rewrite <- app_assoc.
Qed.

Lemma abs_push (l : list jstr) : Forall (fun s => s <> []) l -> l <> [] -> 47 :: fold_left push l [] = abs_path l.
Proof.
  intros Hl Hne. destruct Hl as [|s l Hs Hl]; [done|]. cbn [fold_left].
  replace (push [] s) with s by done. by rewrite push_abs.
Qed.

Lemma Forall_last {A} (P : A -> Prop) (x : A) (l : list A) : Forall P (x :: l) -> P (List.last (x :: l) x).
Proof.
  revert x. induction l as [|y l IH]; intros x H; [by apply Forall_inv in H|].
  change (List.last (x :: y :: l) x) with (List.last (y :: l) x). rewrite (last_default y l x y).
  apply IH. by apply Forall_inv_tail in H.
Qed.

Lemma Forall_removelast {A} (P : A -> Prop) (l : list A) : Forall P l -> Forall P (removelast l).
Proof. induction 1 as [|x l Hx Hl IH]; [constructor|]. destruct l; [constructor|]. by constructor. Qed.

Lemma plain_nonempty (l : list jstr) : Forall plain_segment l -> Forall (fun s => s <> []) l.
Proof. intros H. eapply Forall_impl; [exact H|]. by intros ? [? _]. Qed.

Lemma step_dot_dot (R L : jstr) (ll : Z) : plain_segment L ->
  exists x, fold_left (norm_char false) (47 :: js ".." ++ [47]) (pending R ll L) = mkN R x [] 0.
Proof.
  intros HL. change (js "..") with [46; 46]. cbn [fold_left app].
  unfold norm_char at 4. rewrite Z.eqb_refl, flush_plain by done.
  unfold norm_char. cbn [Z.eqb Pos.eqb res last_len seg dots app dot_step andb negb Z.add Pos.add].
  unfold separator. cbn [res last_len seg dots].
  rewrite bool_decide_false by done. cbn [orb Z.eqb Pos.eqb].
  pose proof (dot_dot_push R L HL) as Hr.
  destruct (dot_dot false (push R L) (Z.of_nat (length L))) as [r' x]. cbn in Hr. subst. by exists x.
Qed.

(** [path.normalize] of [/d1/.../dn/../data.sqlite]. *)
Lemma normalize_up (dirs : list jstr) : Forall plain_segment dirs -> dirs <> [] ->
  normalize (abs_path dirs ++ 47 :: js ".." ++ 47 :: js "data.sqlite") = abs_path (removelast dirs ++ [js "data.sqlite"]).
Proof.
  intros Hd Hne. destruct dirs as [|d ds]; [done|]. set (data := js "data.sqlite").
  assert (Hdata : plain_segment data) by (split; [done|split; [vm_compute; repeat constructor; lia|done]]).
  destruct (fold_abs false ds [] d 0 Hd) as [ll' Hf].
  set (R := fold_left push (removelast (d :: ds)) []) in Hf. set (L := List.last (d :: ds) d) in Hf.
  assert (HL : plain_segment L) by (by apply Forall_last).
  destruct (step_dot_dot R L ll' HL) as [x Hx].
  assert (H1 : fold_left (norm_char false) (47 :: d) (mkN [] 0 [] 0) = pending [] 0 d).
  { cbn [fold_left]. unfold norm_char at 2. rewrite Z.eqb_refl. unfold separator. cbn [seg dots res last_len].
    rewrite bool_decide_true by done. cbn [orb].
    by rewrite read_solid by (by apply plain_no_slash, (Forall_inv Hd)). }
  set (p := abs_path (d :: ds) ++ 47 :: js ".." ++ 47 :: data).
  assert (Hp : p = (47 :: d) ++ abs_path ds ++ (47 :: js ".." ++ [47]) ++ data)
    by (unfold p; rewrite abs_path_cons; cbn; by rewrite <- ?app_assoc).
  assert (Hfold : fold_left (norm_char false) p (mkN [] 0 [] 0) = pending R x data).
  { rewrite Hp, !fold_left_app, H1, Hf, Hx, read_solid by (by apply plain_no_slash). done. }
  assert (Hlast : bool_decide (last p = Some 47) = false).
  { rewrite Hp, !last_app by (vm_compute; discriminate). by vm_compute. }
  assert (Ht : p = 47 :: (d ++ abs_path ds ++ 47 :: js ".." ++ 47 :: data))
    by (unfold p; rewrite abs_path_cons; cbn; by rewrite <- ?app_assoc).
  unfold normalize. rewrite Ht at 1. cbv iota beta zeta. rewrite Z.eqb_refl. cbn [negb].
  unfold normalize_string. rewrite Hfold, flush_plain by done. cbn [res].
  rewrite Hlast, bool_decide_false; cycle 1.
  { unfold push. case_match; [by intros [_ ?]%app_eq_nil|apply Hdata]. }
  change (push R data) with (fold_left push [data] R). unfold R. rewrite <- fold_left_app.
  apply abs_push; [|by destruct (removelast _)].
  apply Forall_app. split; [apply plain_nonempty, Forall_removelast, Hd|by repeat constructor].
Qed.


(** C30: [db.ts] opens the database in the parent of the directory of the
    module: when the module runs from [/d1/.../dn/f] (plain segments,
    given as the [file:] URL [import.meta.url]), [dbPath] is
    [/d1/.../d(n-1)/data.sqlite], whatever the working directory of the
    process; a module at the root of the file system gives
    [/data.sqlite], since [..] does not go above the root. *)
Theorem db_path_spec (dirs : list jstr) (file : jstr) :
  Forall plain_segment (dirs ++ [file]) ->
  db_path (mkUrl (js "file:") [] (abs_path (dirs ++ [file]))) = Ok (abs_path (removelast dirs ++ [js "data.sqlite"])).
Proof.
  intros Hall. unfold db_path. rewrite file_url_to_path_plain, dirname_abs by done.
  destruct dirs as [|d ds]; [reflexivity|].
  apply Forall_app in Hall as [Hd _]. f_equal.
  unfold join. rewrite abs_path_cons. cbn [List.filter]. rewrite !bool_decide_true by done.
  cbn [fold_left]. rewrite <- abs_path_cons, <- !app_assoc. cbn [app]. by apply normalize_up.
Qed.

End DbPath.
