(* ===== verification/Like.v ===== *)
(** * SQLite's [LIKE] as used by the list endpoint

    [GET /api/items?q=..] runs [title LIKE ? OR description LIKE ?] with
    the parameter [`%${q}%`] ([src/routes/items.ts], lines 31-36).  With
    no ESCAPE clause and the default [case_sensitive_like = OFF], SQLite's
    [patternCompare] gives [%] the meaning "any sequence", [_] "any one
    character", and compares every other character exactly, except that
    ASCII letters match without regard to case.  Both operands are read
    as C strings, so they end at a first U+0000.  [like_match] is the
    declarative matcher; [contains_pattern] builds the pattern of the
    handler.  The pattern-length limit of the engine is in [Storage]. *)

From Stdlib Require Import ZArith.
From S2P Require Import Prelude JsString.

Module Like.
Local Open Scope Z_scope.

Definition pct : Z := 37.   (* '%' *)
Definition usc : Z := 95.   (* '_' *)

(** [sqlite3Tolower] on ASCII. *)
Definition ascii_lower (c : Z) : Z :=
  if (65 <=? c) && (c <=? 90) then c + 32 else c.

(** A literal pattern character [c] matches [c2]: the same code point,
    or two ASCII characters equal after case folding. *)
Definition char_match (c c2 : Z) : bool :=
  (c =? c2) || ((c <? 128) && (c2 <? 128) && (ascii_lower c =? ascii_lower c2)).

(** [sqlite3_value_text] read as a NUL-terminated string. *)
Fixpoint c_string (s : jstr) : jstr :=
  match s with
  | [] => []
  | c :: r => if c =? 0 then [] else c :: c_string r
  end.

Fixpoint like_match (p s : jstr) {struct p} : bool :=
  match p with
  | [] => match s with [] => true | _ => false end
  | c :: p' =>
      if c =? pct then
        (fix star (s : jstr) : bool :=
           like_match p' s || match s with [] => false | _ :: s' => star s' end) s
      else
        match s with
        | [] => false
        | c2 :: s' => ((c =? usc) || char_match c c2) && like_match p' s'
        end
  end.

(** The meaning of a pattern, as the SQLite documentation states it:
    [%] matches any sequence of zero or more characters, [_] any single
    character, and any other character itself up to ASCII case. *)
Inductive like_rel : jstr -> jstr -> Prop :=
  | like_nil : like_rel [] []
  | like_pct_empty p s : like_rel p s -> like_rel (pct :: p) s
  | like_pct_more p c s : like_rel (pct :: p) s -> like_rel (pct :: p) (c :: s)
  | like_char c p c2 s :
      c <> pct -> (c = usc \/ char_match c c2 = true) -> like_rel p s -> like_rel (c :: p) (c2 :: s).

(** [x LIKE pattern] *)
Definition sql_like (x pattern : jstr) : bool := like_match (c_string pattern) (c_string x).

(** The bound parameter [`%${q}%`]. *)
Definition contains_pattern (q : jstr) : jstr := pct :: q ++ [pct].

(** A string that contains no wildcard and no NUL. *)
Definition literal (q : jstr) : Prop := Forall (fun c => c <> pct /\ c <> usc /\ c <> 0) q.

(** [t] spells [q] up to ASCII case. *)
Definition matches_nocase (q t : jstr) : Prop := Forall2 (fun c c2 => char_match c c2 = true) q t.

(** ** The matcher on [%] and on literal prefixes *)

Lemma like_match_pct (p s : jstr) :
  like_match (pct :: p) s = true <-> exists a b, s = a ++ b /\ like_match p b = true.
Proof.
  simpl. induction s as [|c s IH].
  - rewrite orb_false_r. split; [by exists [], []|].
    intros ([|??] & b & Hs & Hb); simplify_eq/=; done.
  - rewrite orb_true_iff, IH. split.
    + intros [H|(a & b & -> & Hb)]; [by exists [], (c :: s)|by exists (c :: a), b].
    + intros ([|c' a] & b & Hs & Hb); simplify_eq/=; [by left|right; eauto].
Qed.

Lemma like_match_literal (q rest s : jstr) :
  literal q ->
  like_match (q ++ rest) s = true <->
  exists t s', s = t ++ s' /\ matches_nocase q t /\ like_match rest s' = true.
Proof.
  intros Hq. revert s. induction Hq as [|c q [Hpct [Husc _]] _ IH]; intros s; simpl.
  - split; [intros H; exists [], s; split; [done|split; [constructor|done]]|].
    intros (t & s' & -> & Ht & H). by inversion Ht; subst.
  - assert ((c =? pct) = false) as -> by (apply Z.eqb_neq; done).
    assert ((c =? usc) = false) as -> by (apply Z.eqb_neq; done).
    destruct s as [|c2 s]; simpl.
    + split; [done|]. intros (t & s' & Hs & Ht & _). inversion Ht; subst. discriminate.
    + rewrite andb_true_iff, IH. split.
      * intros [Hc (t & s' & -> & Ht & H)]. exists (c2 :: t), s'. split; [done|split; [by constructor|done]].
      * intros ([|c2' t] & s' & Hs & Ht & H); inversion Ht; simplify_eq/=.
        split; [done|]. by exists t, s'.
Qed.

Lemma c_string_literal (q : jstr) : Forall (fun c => c <> 0) q -> c_string q = q.
Proof. induction 1 as [|c q Hc _ IH]; [done|]. simpl. rewrite IH. by destruct (Z.eqb_spec c 0). Qed.

Lemma c_string_app (q r : jstr) : Forall (fun c => c <> 0) q -> c_string (q ++ r) = q ++ c_string r.
Proof. induction 1 as [|c q Hc _ IH]; [done|]. simpl. rewrite IH. by destruct (Z.eqb_spec c 0). Qed.

Lemma like_match_pct_end (s : jstr) : like_match [pct] s = true.
Proof. apply like_match_pct. by exists s, []; rewrite app_nil_r. Qed.

Lemma contains_pattern_c_string (q : jstr) :
  literal q -> c_string (contains_pattern q) = contains_pattern q.
Proof.
  intros Hq. apply c_string_literal. constructor; [done|].
  apply Forall_app; split; [|by repeat constructor].
  eapply Forall_impl; [exact Hq|]. by intros c [_ [_ ?]].
Qed.

Lemma like_rel_pct (p s : jstr) :
  like_rel (pct :: p) s <-> exists a b, s = a ++ b /\ like_rel p b.
Proof.
  split.
  - remember (pct :: p) as p' eqn:E. induction 1 as [|p0 s0 H _|p0 c s0 H IH|c p0 c2 s0 Hc]; simplify_eq.
    + by exists [], s0.
    + destruct (IH eq_refl) as (a & b & -> & Hb). by exists (c :: a), b.
  - intros (a & b & -> & Hb). induction a as [|c a IH]; simpl; [by constructor|by constructor].
Qed.

(** The matcher decides the relation. *)
Lemma like_match_spec (p s : jstr) : like_match p s = true <-> like_rel p s.
Proof.
  revert s. induction p as [|c p IH]; intros s.
  - destruct s as [|c2 s]; simpl.
    + split; [by constructor|done].
    + split; [done|by inversion 1].
  - destruct (Z.eqb_spec c pct) as [->|Hc].
    + rewrite like_match_pct, like_rel_pct. split; intros (a & b & -> & Hb); exists a, b; by rewrite <- IH in *.
    + simpl. rewrite (proj2 (Z.eqb_neq _ _) Hc). destruct s as [|c2 s].
      * split; [done|by inversion 1].
      * rewrite andb_true_iff, orb_true_iff, IH, Z.eqb_eq. split.
        -- intros [Hm Hr]. by constructor.
        -- by inversion 1; subst.
Qed.

(** C35: [x LIKE pattern] as SQLite evaluates it (no ESCAPE clause,
    [case_sensitive_like] off) holds exactly when [x], read up to its
    first NUL, matches the pattern, read the same way, in the sense of
    the documented meaning of [%], [_] and ASCII case folding. *)
Theorem sql_like_spec (x pattern : jstr) :
  sql_like x pattern = true <-> like_rel (c_string pattern) (c_string x).
Proof. apply like_match_spec. Qed.

(** ** The filter of the list endpoint *)

(** For a query [q] free of [%], [_] and NUL, [s LIKE '%q%'] holds
    exactly when [s] (up to a first NUL) contains [q] as a substring,
    ASCII letters compared without regard to case. *)
Lemma sql_like_contains (q s : jstr) :
  literal q ->
  sql_like s (contains_pattern q) = true <->
  exists a t b, c_string s = a ++ t ++ b /\ matches_nocase q t.
Proof.
  intros Hq. unfold sql_like. rewrite contains_pattern_c_string by done.
  unfold contains_pattern. rewrite like_match_pct. split.
  - intros (a & b & -> & Hb). apply like_match_literal in Hb as (t & s' & -> & Ht & _); [|done].
    by exists a, t, s'.
  - intros (a & t & b & -> & Ht). exists a, (t ++ b). split; [done|].
    apply like_match_literal; [done|]. exists t, b. auto using like_match_pct_end.
Qed.

(** The query is not escaped: [q = "_"] matches every non-empty
    string, so [GET /api/items?q=_] lists items whose title and
    description do not contain ["_"]. *)
Theorem sql_like_underscore_query (s : jstr) :
  c_string s <> [] -> sql_like s (contains_pattern [usc]) = true.
Proof.
  intros Hs. unfold sql_like.
  change (c_string (contains_pattern [usc])) with (contains_pattern [usc]).
  apply like_match_pct. destruct (c_string s) as [|c r]; [done|].
  exists [], (c :: r). split; [done|]. simpl. by rewrite like_match_pct_end.
Qed.

End Like.
