(* ===== verification/Storage.v ===== *)
(** * The SQLite store of [src/db.ts] and the statements of the handlers

    State: the [items] table as the list of its rows in rowid order (the
    order of its B-tree), the [sqlite_sequence] counter of the
    AUTOINCREMENT key, the catalogue flags set by the bootstrap script and
    the clock read by [CURRENT_TIMESTAMP] (seconds; the text format
    ['YYYY-MM-DD HH:MM:SS'] is not modelled).  Every statement of
    [src/routes/items.ts] is one function of the state-and-error monad
    [sql]; a failing statement changes nothing.  Bound JavaScript numbers
    reach SQLite as REAL values (better-sqlite3 binds every number with
    [sqlite3_bind_double]); [rowid_key] and [must_be_int] are the engine's
    conversions of such a value to an integer key and to a LIMIT/OFFSET
    count.  The class [ItemStore] is the interface the handlers are
    written against, [db_store] its instance; [wf] is the invariant of
    the table, preserved by every statement. *)

From Stdlib Require Import ZArith.
From stdpp Require Import sorting.
From S2P Require Import Prelude JsString JsNumber Like.

Module Storage.
Local Open Scope Z_scope.
Import JsNumber Like.

(** The [Item] type of db.ts, one row of [items]. *)
Record item := mkItem {
  id : Z;
  title : jstr;
  description : jstr;
  created_at : Z;
  updated_at : Z
}.

#[export] Instance item_eq_dec : EqDecision item.
Proof. solve_decision. Defined.

Record db := mkDb {
  wal : bool;            (* journal_mode = WAL *)
  has_items : bool;      (* CREATE TABLE IF NOT EXISTS items *)
  has_trigger : bool;    (* CREATE TRIGGER IF NOT EXISTS trg_items_updated_at *)
  rows : list item;      (* rowid order *)
  seq : Z;               (* sqlite_sequence.seq of items *)
  clock : Z              (* CURRENT_TIMESTAMP *)
}.

Inductive sql_error :=
  | SQLITE_FULL            (* AUTOINCREMENT exhausted the 64-bit rowids *)
  | SQLITE_MISMATCH        (* LIMIT/OFFSET not an integer *)
  | SQLITE_PATTERN_TOO_COMPLEX  (* LIKE pattern longer than 50000 bytes *)
  | SQLITE_NO_TABLE.       (* no such table: items *)

Definition sql (A : Type) : Type := st sql_error db A.

Definition largest_int64 : Z := 2 ^ 63 - 1.
Definition like_pattern_limit : Z := 50000.

(** ** Bootstrap (db.ts, lines 8-27) *)

Definition empty_db (now : Z) : db := mkDb false false false [] 0 now.

(** [db.pragma("journal_mode = WAL")], [CREATE TABLE IF NOT EXISTS
    items] and [CREATE TRIGGER IF NOT EXISTS trg_items_updated_at]; a
    table created here has no [sqlite_sequence] row yet, so its
    AUTOINCREMENT counter starts at 0. *)
Definition bootstrap (s : db) : db :=
  let s := mkDb true (has_items s) (has_trigger s) (rows s) (seq s) (clock s) in
  let s := if has_items s then s
           else mkDb (wal s) true (has_trigger s) [] 0 (clock s) in
  if has_trigger s then s
  else mkDb (wal s) (has_items s) true (rows s) (seq s) (clock s).

(** The clock moves forward between statements. *)
Definition tick (t : Z) (s : db) : db :=
  if clock s <=? t then mkDb (wal s) (has_items s) (has_trigger s) (rows s) (seq s) t else s.

(** ** Conversions of bound values *)

(** A REAL compared with an INTEGER PRIMARY KEY: integral values inside
    the 64-bit range name a rowid, others match no row. *)
Definition rowid_key (x : jsnum) : option Z :=
  if is_integer x && (- 2 ^ 63 <? truncate x) && (truncate x <? largest_int64)
  then Some (truncate x) else None.

(** [OP_MustBeInt] on a bound LIMIT or OFFSET. *)
Definition must_be_int (x : jsnum) : result sql_error Z :=
  match rowid_key x with Some n => Ok n | None => Err SQLITE_MISMATCH end.

(** Bytes of the UTF-8 encoding of a string. *)
Definition utf8_length (s : jstr) : Z :=
  fold_right (fun c n => (if c <? 128 then 1 else if c <? 2048 then 2
                          else if c <? 65536 then 3 else 4) + n) 0 s.

(** ** Statements *)

Definition max_id (l : list item) : Z := fold_right (fun r m => Z.max (id r) m) 0 l.

Definition find_row (k : Z) (l : list item) : option item :=
  List.find (fun r => id r =? k) l.

(** [INSERT INTO items (title, description) VALUES (?, ?)] returning
    [info.lastInsertRowid]. *)
Definition insert_item (t d : jstr) : sql Z := fun s =>
  if negb (has_items s) then (Err SQLITE_NO_TABLE, s) else
  let last := Z.max (seq s) (max_id (rows s)) in
  if largest_int64 <=? last then (Err SQLITE_FULL, s) else
  let r := mkItem (last + 1) t d (clock s) (clock s) in
  (Ok (last + 1), mkDb (wal s) (has_items s) (has_trigger s) (rows s ++ [r]) (last + 1) (clock s)).

(** [SELECT * FROM items WHERE id = ?] *)
Definition select_by_id (x : jsnum) : sql (option item) := fun s =>
  if negb (has_items s) then (Err SQLITE_NO_TABLE, s) else
  match rowid_key x with
  | Some k => (Ok (find_row k (rows s)), s)
  | None => (Ok None, s)
  end.

(** [SET title = ?, description = ?] on the row [k]. *)
Definition set_columns (k : Z) (t d : jstr) (l : list item) : list item :=
  map (fun r => if id r =? k then mkItem (id r) t d (created_at r) (updated_at r) else r) l.

(** The body of [trg_items_updated_at] for the updated row [k]:
    [UPDATE items SET updated_at = CURRENT_TIMESTAMP WHERE id = OLD.id]
    (recursive triggers are off: it fires once). *)
Definition fire_trigger (k now : Z) (l : list item) : list item :=
  map (fun r => if id r =? k
                then mkItem (id r) (title r) (description r) (created_at r) now
                else r) l.

(** [UPDATE items SET title = ?, description = ? WHERE id = ?] *)
Definition update_item (t d : jstr) (x : jsnum) : sql unit := fun s =>
  if negb (has_items s) then (Err SQLITE_NO_TABLE, s) else
  match rowid_key x with
  | Some k =>
      let l := set_columns k t d (rows s) in
      let l := if has_trigger s then fire_trigger k (clock s) l else l in
      (Ok tt, mkDb (wal s) (has_items s) (has_trigger s) l (seq s) (clock s))
  | None => (Ok tt, s)
  end.

(** [DELETE FROM items WHERE id = ?] returning [info.changes]. *)
Definition delete_item (x : jsnum) : sql Z := fun s =>
  if negb (has_items s) then (Err SQLITE_NO_TABLE, s) else
  match rowid_key x with
  | Some k =>
      let kept := filter (fun r => id r <> k) (rows s) in
      (Ok (Z.of_nat (length (rows s) - length kept)),
       mkDb (wal s) (has_items s) (has_trigger s) kept (seq s) (clock s))
  | None => (Ok 0, s)
  end.

(** [LIMIT n OFFSET m] on an ordered result. *)
Definition limit_offset (lim off : Z) (l : list item) : list item :=
  let l := drop (Z.to_nat off) l in
  if lim <? 0 then l else take (Z.to_nat lim) l.

Definition row_matches (pat : jstr) (r : item) : bool :=
  sql_like (title r) pat || sql_like (description r) pat.

(** [SELECT * FROM items [WHERE title LIKE ? OR description LIKE ?]
    ORDER BY id DESC LIMIT ? OFFSET ?]: the pattern is [None] for the
    statement without WHERE.  LIMIT and OFFSET are converted before the
    scan; the LIKE function rejects an over-long pattern on the first row
    it is applied to. *)
Definition select_page (pat : option jstr) (limit offset : jsnum) : sql (list item) := fun s =>
  if negb (has_items s) then (Err SQLITE_NO_TABLE, s) else
  match must_be_int limit, must_be_int offset with
  | Err e, _ | _, Err e => (Err e, s)
  | Ok lim, Ok off =>
      match pat with
      | None => (Ok (limit_offset lim off (rev (rows s))), s)
      | Some p =>
          if (like_pattern_limit <? utf8_length p) && negb (bool_decide (rows s = []))
          then (Err SQLITE_PATTERN_TOO_COMPLEX, s)
          else (Ok (limit_offset lim off (rev (filter (fun r => row_matches p r = true) (rows s)))), s)
      end
  end.

(** ** The statements as an interface

    The handlers reach the database only through five prepared
    statements and the clock read by [CURRENT_TIMESTAMP].  [ItemStore]
    is what the storage promises the handlers: [Items] and [Server] are
    written against it, [db_store] implements it with the table above,
    and [Table.table_store] with the abstract table of the
    specification. *)
Class ItemStore (S : Type) := {
  stmt_insert : jstr -> jstr -> st sql_error S Z;
  stmt_select : jsnum -> st sql_error S (option item);
  stmt_update : jstr -> jstr -> jsnum -> st sql_error S unit;
  stmt_delete : jsnum -> st sql_error S Z;
  stmt_page : option jstr -> jsnum -> jsnum -> st sql_error S (list item);
  store_tick : Z -> S -> S
}.

#[export] Instance db_store : ItemStore db := {|
  stmt_insert := insert_item;
  stmt_select := select_by_id;
  stmt_update := update_item;
  stmt_delete := delete_item;
  stmt_page := select_page;
  store_tick := tick
|}.

(** What the handlers may assume of any store: SELECTs do not write. *)
Class ItemStoreLaws (S : Type) `{!ItemStore S} := {
  select_pure : forall x s, snd (stmt_select x s) = s;
  page_pure : forall p l o s, snd (stmt_page p l o s) = s
}.

(** Exposes the statements of [db_store] in a goal about the database. *)
Ltac db_stmts :=
  change (@stmt_insert db db_store) with insert_item in *;
  change (@stmt_select db db_store) with select_by_id in *;
  change (@stmt_update db db_store) with update_item in *;
  change (@stmt_delete db db_store) with delete_item in *;
  change (@stmt_page db db_store) with select_page in *;
  change (@store_tick db db_store) with tick in *.

(** ** The invariant of the table *)

(** Rows are in strictly increasing id order, every id is positive and at
    most the AUTOINCREMENT counter, the counter is a 64-bit rowid, and
    every row was created no later than it was last updated, itself no
    later than the clock. *)
Record wf (s : db) : Prop := {
  wf_items : has_items s = true;
  wf_trigger : has_trigger s = true;
  wf_sorted : StronglySorted (fun a b => id a < id b) (rows s);
  wf_rows : Forall (fun r => 0 < id r <= seq s /\ created_at r <= updated_at r <= clock s) (rows s);
  wf_seq : 0 <= seq s <= largest_int64
}.

Definition new_row (s : db) (t d : jstr) : item := mkItem (seq s + 1) t d (clock s) (clock s).

Lemma max_id_le (l : list item) (n : Z) :
  0 <= n -> Forall (fun r => id r <= n) l -> max_id l <= n.
Proof. intros Hn. induction 1; simpl; lia. Qed.

Lemma wf_last (s : db) : wf s -> Z.max (seq s) (max_id (rows s)) = seq s.
Proof.
  intros Hwf.
  assert (Forall (fun r => id r <= seq s) (rows s)) as Hf
    by (eapply Forall_impl; [apply Hwf|]; intros r Hr; simpl in Hr; lia).
  pose proof (max_id_le _ _ (proj1 (wf_seq _ Hwf)) Hf). lia.
Qed.

(** INSERT on a well-formed table: the new row gets [seq + 1], is
    appended, and the counter moves to it; at the last rowid it fails. *)
Lemma insert_item_ok (s : db) (t d : jstr) :
  wf s -> seq s < largest_int64 ->
  insert_item t d s =
    (Ok (seq s + 1), mkDb (wal s) true true (rows s ++ [new_row s t d]) (seq s + 1) (clock s)).
Proof.
  intros Hwf Hlt. unfold insert_item, new_row.
  rewrite (wf_items _ Hwf), (wf_trigger _ Hwf), (wf_last _ Hwf). simpl.
  destruct (Z.leb_spec largest_int64 (seq s)); [lia|done].
Qed.

Lemma insert_item_full (s : db) (t d : jstr) :
  wf s -> seq s = largest_int64 -> insert_item t d s = (Err SQLITE_FULL, s).
Proof.
  intros Hwf Heq. unfold insert_item. rewrite (wf_items _ Hwf), (wf_last _ Hwf). simpl.
  destruct (Z.leb_spec largest_int64 (seq s)); [done|lia].
Qed.

(** Rewriting the non-key columns of some rows keeps the id order. *)
Lemma sorted_map_same_id (f : item -> item) (l : list item) :
  (forall r, id (f r) = id r) ->
  StronglySorted (fun a b => id a < id b) l -> StronglySorted (fun a b => id a < id b) (map f l).
Proof.
  intros Hf. induction 1 as [|r l _ IH Hall]; simpl; constructor; [done|].
  apply Forall_map. eapply Forall_impl; [exact Hall|]. intros r' H. by rewrite !Hf.
Qed.

Lemma sorted_filter (P : item -> Prop) `{!forall r, Decision (P r)} (l : list item) :
  StronglySorted (fun a b => id a < id b) l ->
  StronglySorted (fun a b => id a < id b) (filter P l).
Proof.
  induction 1 as [|r l _ IH Hall]; [by constructor|]. rewrite filter_cons.
  case_decide; [|done]. constructor; [done|]. by apply Forall_filter_of.
Qed.

#[export] Hint Resolve sorted_map_same_id sorted_filter : crud.

Lemma insert_item_wf (t d : jstr) : st_preserves wf (insert_item t d).
Proof.
  intros s Hwf. destruct (Z.eq_dec (seq s) largest_int64) as [Heq|Hne].
  - by rewrite insert_item_full.
  - pose proof (wf_seq _ Hwf). pose proof (wf_rows _ Hwf) as Hrows.
    rewrite insert_item_ok by (done || lia). unfold new_row.
    split; simpl; try done; try lia.
    + apply StronglySorted_app. split; [|split; [apply Hwf|by repeat constructor]].
      intros x1 x2 Hx1 ->%list_elem_of_singleton.
      rewrite Forall_forall in Hrows.
      specialize (Hrows _ Hx1). simpl. lia.
    + apply Forall_app. split; [|constructor; [simpl; lia|done]].
      eapply Forall_impl; [exact Hrows|]. intros r Hr; simpl in Hr; lia.
Qed.

Lemma select_by_id_state (x : jsnum) (s : db) : snd (select_by_id x s) = s.
Proof. unfold select_by_id. destruct (has_items s), (rowid_key x); done. Qed.

Lemma select_page_state (p : option jstr) (l o : jsnum) (s : db) : snd (select_page p l o s) = s.
Proof.
  unfold select_page. destruct (has_items s), (must_be_int l), (must_be_int o); try done.
  destruct p; [|done]. simpl. by destruct (_ && _).
Qed.

#[export] Instance db_store_laws : ItemStoreLaws db.
Proof. split; [exact select_by_id_state|exact select_page_state]. Qed.

Lemma select_by_id_wf (x : jsnum) : st_preserves wf (select_by_id x).
Proof. intros s Hwf. by rewrite select_by_id_state. Qed.

Lemma select_page_wf (p : option jstr) (l o : jsnum) : st_preserves wf (select_page p l o).
Proof. intros s Hwf. by rewrite select_page_state. Qed.

Lemma update_item_wf (t d : jstr) (x : jsnum) : st_preserves wf (update_item t d x).
Proof.
  intros s Hwf. unfold update_item. rewrite (wf_items _ Hwf), (wf_trigger _ Hwf). simpl.
  destruct (rowid_key x) as [k|]; [|done]. pose proof (wf_rows _ Hwf) as Hrows.
  split; simpl; try done; try apply Hwf.
  - apply sorted_map_same_id; [by intros r; destruct (id r =? k)|].
    apply sorted_map_same_id; [by intros r; destruct (id r =? k)|]. apply Hwf.
  - apply Forall_map, Forall_map. eapply Forall_impl; [exact Hrows|].
    intros r Hr; simpl in Hr. destruct (id r =? k) eqn:E; simpl; rewrite ?E; simpl; lia.
Qed.

Lemma delete_item_wf (x : jsnum) : st_preserves wf (delete_item x).
Proof.
  intros s Hwf. unfold delete_item. rewrite (wf_items _ Hwf). simpl.
  destruct (rowid_key x) as [k|]; [|done].
  split; simpl; try done; try apply Hwf.
  - apply sorted_filter, Hwf.
  - apply Forall_filter_of, Hwf.
Qed.

Lemma tick_wf (t : Z) (s : db) : wf s -> wf (tick t s).
Proof.
  intros Hwf. unfold tick. destruct (Z.leb_spec (clock s) t); [|done].
  split; simpl; try done; try apply Hwf.
  eapply Forall_impl; [apply Hwf|]. intros r Hr; simpl in Hr; lia.
Qed.

#[export] Hint Resolve insert_item_wf select_by_id_wf select_page_wf update_item_wf
  delete_item_wf tick_wf : crud.

(** ** Lookups by a safe id *)

Lemma rowid_key_of_Z (n : Z) : safe_id n -> rowid_key (of_Z n) = Some n.
Proof.
  intros Hn. destruct (of_Z_safe n Hn) as (Hint & Htr & _). unfold rowid_key.
  rewrite Hint, Htr. unfold safe_id, largest_int64 in *.
  rewrite (proj2 (Z.ltb_lt _ _)), (proj2 (Z.ltb_lt n _)) by lia. done.
Qed.

Lemma rowid_key_of_Z_nonneg (n : Z) : 0 <= n < 2 ^ 53 -> rowid_key (of_Z n) = Some n.
Proof.
  intros Hn. destruct (Z.eq_dec n 0) as [->|Hne]; [reflexivity|].
  apply rowid_key_of_Z. split; lia.
Qed.

Lemma find_row_none (k : Z) (l : list item) : Forall (fun r => id r <> k) l -> find_row k l = None.
Proof.
  induction 1 as [|r l Hr _ IH]; [done|]. unfold find_row in *. simpl.
  by rewrite (proj2 (Z.eqb_neq _ _) Hr).
Qed.

Lemma find_row_sorted (r : item) (l : list item) :
  StronglySorted (fun a b => id a < id b) l -> r ∈ l -> find_row (id r) l = Some r.
Proof.
  induction 1 as [|r' l _ IH Hall]; [by intros ?%elem_of_nil|].
  intros [->|Hin]%elem_of_cons; unfold find_row in *; simpl.
  - by rewrite Z.eqb_refl.
  - rewrite Forall_forall in Hall. specialize (Hall _ Hin).
    rewrite (proj2 (Z.eqb_neq _ _)) by lia. by apply IH.
Qed.

Lemma find_row_some (k : Z) (r : item) (l : list item) : find_row k l = Some r -> r ∈ l /\ id r = k.
Proof.
  unfold find_row. intros H. pose proof (find_some _ _ H) as [Hin Hk].
  split; [by apply list_elem_of_In|]. by apply Z.eqb_eq.
Qed.

Lemma find_row_app_l (k : Z) (l1 l2 : list item) (r : item) :
  find_row k l1 = Some r -> find_row k (l1 ++ l2) = Some r.
Proof.
  induction l1 as [|x l1 IH]; [done|]. unfold find_row in *. simpl.
  destruct (id x =? k); [done|]. exact IH.
Qed.

Lemma select_by_id_safe (n : Z) (s : db) :
  wf s -> safe_id n -> select_by_id (of_Z n) s = (Ok (find_row n (rows s)), s).
Proof. intros Hwf Hn. unfold select_by_id. by rewrite (wf_items _ Hwf), rowid_key_of_Z. Qed.

Lemma new_row_fresh (s : db) (t d : jstr) : wf s -> Forall (fun r => id r < id (new_row s t d)) (rows s).
Proof. intros Hwf. eapply Forall_impl; [apply Hwf|]. intros r Hr; simpl in *; lia. Qed.

Lemma find_row_new (s : db) (t d : jstr) :
  wf s -> find_row (seq s + 1) (rows s ++ [new_row s t d]) = Some (new_row s t d).
Proof.
  intros Hwf. pose proof (new_row_fresh s t d Hwf) as Hf.
  induction Hf as [|r l Hr _ IH]; unfold find_row in *; simpl.
  - by rewrite Z.eqb_refl.
  - rewrite (proj2 (Z.eqb_neq _ _)) by (simpl in Hr; lia). exact IH.
Qed.

Lemma wf_unique (s : db) (x y : item) :
  wf s -> x ∈ rows s -> y ∈ rows s -> id x = id y -> x = y.
Proof.
  intros Hwf Hx Hy Heq. pose proof (find_row_sorted x _ (wf_sorted _ Hwf) Hx) as H1.
  pose proof (find_row_sorted y _ (wf_sorted _ Hwf) Hy) as H2. congruence.
Qed.

(** The UPDATE of row [r] and the trigger it fires replace [r] by a row
    with the new columns, the same id and creation time, and the
    statement's clock as update time. *)
Lemma update_item_row (s : db) (r : item) (t d : jstr) :
  wf s -> r ∈ rows s -> safe_id (id r) ->
  update_item t d (of_Z (id r)) s =
    (Ok tt, mkDb (wal s) true true
              (map (fun x => if id x =? id r then mkItem (id r) t d (created_at r) (clock s) else x) (rows s))
              (seq s) (clock s)).
Proof.
  intros Hwf Hr Hk. unfold update_item.
  rewrite (wf_items _ Hwf), (wf_trigger _ Hwf), rowid_key_of_Z by done. simpl.
  do 3 f_equal. unfold fire_trigger, set_columns. rewrite map_map. apply map_ext_in.
  intros x Hx%list_elem_of_In. destruct (Z.eqb_spec (id x) (id r)) as [Heq|Hne]; simpl.
  - rewrite Heq, Z.eqb_refl. by rewrite (wf_unique s x r Hwf Hx Hr Heq).
  - by rewrite (proj2 (Z.eqb_neq _ _) Hne).
Qed.

(** UPDATE keeps the ids of the table, DELETE keeps a sub-list. *)
Lemma update_item_ids (t d : jstr) (x : jsnum) (s : db) :
  map id (rows (snd (update_item t d x s))) = map id (rows s).
Proof.
  unfold update_item. destruct (negb (has_items s)); [done|].
  destruct (rowid_key x) as [k|]; [|done]. simpl.
  destruct (has_trigger s); unfold fire_trigger, set_columns; rewrite ?map_map;
    apply map_ext; intros r; by repeat case_match.
Qed.

(** Every row after an UPDATE comes from a row before it with the same
    id and creation time and a last-update time no later than its own. *)
Lemma update_item_history (t d : jstr) (x : jsnum) (s : db) :
  wf s ->
  Forall (fun r' => exists r, r ∈ rows s /\ id r' = id r /\ created_at r' = created_at r /\
                              updated_at r <= updated_at r') (rows (snd (update_item t d x s))).
Proof.
  intros Hwf. pose proof (wf_rows _ Hwf) as Hrows. rewrite Forall_forall in Hrows.
  unfold update_item. rewrite (wf_items _ Hwf), (wf_trigger _ Hwf). simpl.
  apply Forall_forall. destruct (rowid_key x) as [k|]; simpl.
  - unfold fire_trigger, set_columns. rewrite map_map.
    intros r' (r & <- & Hr)%list_elem_of_In%in_map_iff. apply list_elem_of_In in Hr.
    exists r. specialize (Hrows r Hr). split; [done|].
    simpl. repeat case_match; simpl in *; rewrite ?Z.eqb_eq, ?Z.eqb_neq in *; lia.
  - intros r Hr. exists r. auto with lia.
Qed.

Lemma delete_item_rows (x : jsnum) (s : db) :
  exists P : item -> Prop, exists _ : (forall r, Decision (P r)),
    rows (snd (delete_item x s)) = filter P (rows s) \/ rows (snd (delete_item x s)) = rows s.
Proof.
  unfold delete_item. destruct (negb (has_items s)); [exists (fun _ => True); eexists; by right|].
  destruct (rowid_key x) as [k|]; [|exists (fun _ => True); eexists; by right].
  exists (fun r => id r <> k). eexists. by left.
Qed.

(** C27: AUTOINCREMENT at 64-bit width: on a well-formed table an INSERT
    takes the id [seq + 1], appends the row and advances the counter, as
    long as [seq] is below [2^63 - 1]; at [2^63 - 1] it fails with
    SQLITE_FULL and changes nothing. *)
Theorem insert_item_bounds (s : db) (t d : jstr) :
  wf s ->
  (seq s < largest_int64 ->
     exists s', insert_item t d s = (Ok (seq s + 1), s') /\
                rows s' = rows s ++ [new_row s t d] /\ seq s' = seq s + 1 /\ clock s' = clock s) /\
  (seq s = largest_int64 -> insert_item t d s = (Err SQLITE_FULL, s)).
Proof.
  intros Hwf. split.
  - intros Hlt. eexists. split; [by apply insert_item_ok|done].
  - by apply insert_item_full.
Qed.

(** C28: the bootstrap script of db.ts is idempotent, and on a database
    file that already holds the table it keeps the rows and the
    AUTOINCREMENT counter. *)
Theorem bootstrap_idempotent (s : db) :
  bootstrap (bootstrap s) = bootstrap s /\
  (has_items s = true -> rows (bootstrap s) = rows s /\ seq (bootstrap s) = seq s) /\
  has_items (bootstrap s) = true /\ has_trigger (bootstrap s) = true /\ wal (bootstrap s) = true.
Proof.
  destruct s as [w it tr l sq c]. unfold bootstrap.
  destruct it, tr; simpl; repeat split; done.
Qed.

End Storage.
