(* ===== verification/Items.v ===== *)
(** * The route handlers of [src/routes/items.ts]

    Each handler is a computation of the state-and-error monad over any
    store of the interface [ItemStore] of [Storage] (the database in the
    service, the abstract table of [Table] in the specification): it
    validates its input the way the source does, runs the statements in
    the source's order and returns the status code and the JSON reply.
    Early [return res.status(..)] are the [st_ret] branches.  An engine
    error thrown by a statement becomes Express's generic 500 reply
    ([run]).  Inputs are the values Express hands over: the decoded path
    parameter [:id], the parsed query object [req.query] and the parsed
    body [req.body] ([None] when no body parser ran).  The theorems
    state each handler's behaviour on the database, on every branch. *)

From Stdlib Require Import ZArith.
From S2P Require Import Prelude JsString JsNumber JsFloat Like Storage.

Module Items.
Local Open Scope Z_scope.
Local Open Scope crud_scope.
Import JsString JsNumber JsFloat Like Storage.

(** ** Request and response values *)

(** A parsed JSON value ([express.json()]). *)
#[warnings="-register-all"]
Inductive json :=
  | JNull
  | JBool (b : bool)
  | JNum (x : jsnum)
  | JStr (s : jstr)
  | JArr (l : list json)
  | JObj (fields : list (jstr * json)).

(** A value of [req.query]: a string, a repeated key, or a nested object. *)
Inductive qval :=
  | QStr (s : jstr)
  | QArr (l : list jstr)
  | QObj.

(** The property [k] of an object; [JSON.parse] keeps the last of
    duplicate keys. *)
Fixpoint lookup_field (k : jstr) (fs : list (jstr * json)) : option json :=
  match fs with
  | [] => None
  | (k', v) :: fs' =>
      match lookup_field k fs' with
      | Some v' => Some v'
      | None => if decide (k = k') then Some v else None
      end
  end.

(** [const { title, description } = req.body ?? {}]: destructuring reads
    properties of objects only; other values have none. *)
Definition body_or_empty (b : option json) : json :=
  match b with None | Some JNull => JObj [] | Some v => v end.

Definition get_field (k : jstr) (v : json) : option json :=
  match v with JObj fs => lookup_field k fs | _ => None end.

Fixpoint lookup_query (k : jstr) (q : list (jstr * qval)) : option qval :=
  match q with
  | [] => None
  | (k', v) :: q' => if decide (k = k') then Some v else lookup_query k q'
  end.

(** [Array.prototype.join(",")] *)
Fixpoint join_comma (l : list jstr) : jstr :=
  match l with
  | [] => []
  | [s] => s
  | s :: l' => s ++ [44] ++ join_comma l'
  end.

(** [Number(v)] on a query value ([undefined] is NaN; an array goes
    through its [toString]; an object prints as ["[object Object]"]). *)
Definition to_number_query (v : option qval) : jsnum :=
  match v with
  | None | Some QObj => NaN
  | Some (QStr s) => to_number_str s
  | Some (QArr l) => to_number_str (join_comma l)
  end.

Inductive reply :=
  | RItem (r : option item)       (* res.json(row); None is undefined *)
  | RPage (items : list item) (limit offset : jsnum) (count : Z)
  | RError (msg : jstr)           (* { error: msg } *)
  | RNoContent                    (* 204, empty body *)
  | RHealth                       (* { status: "ok" } *)
  | RServerError.                 (* Express's default error handler *)

Record response := mkResponse { status : Z; payload : reply }.

(** ** Handlers

    The handlers are written against the statements of [ItemStore]; the
    database of [Storage] is the instance the service runs with. *)

Section Handlers.
Context {S : Type} `{!ItemStore S}.

Definition respond (code : Z) (r : reply) : st sql_error S response := st_ret (mkResponse code r).

(** [!Number.isInteger(id) || id <= 0] *)
Definition invalid_id (x : jsnum) : bool := negb (is_integer x) || js_le x pos_zero.

(** POST / *)
Definition create_item (body : option json) : st sql_error S response :=
  let b := body_or_empty body in
  match get_field (js "title") b with
  | Some (JStr title) =>
      if negb (js_truthy_str (trim title)) then respond 400 (RError (js "title is required"))
      else
        let desc := match get_field (js "description") b with Some (JStr d) => d | _ => [] end in
        rowid <- stmt_insert (trim title) desc ;;
        created <- stmt_select (of_Z rowid) ;;
        respond 201 (RItem created)
  | _ => respond 400 (RError (js "title is required"))
  end.

(** [Math.max(1, Math.min(100, Number(req.query.limit) || 20))] *)
Definition page_limit (q : list (jstr * qval)) : jsnum :=
  math_max (of_Z 1) (math_min (of_Z 100) (js_or (to_number_query (lookup_query (js "limit") q)) (of_Z 20))).

(** [Math.max(0, Number(req.query.offset) || 0)] *)
Definition page_offset (q : list (jstr * qval)) : jsnum :=
  math_max (of_Z 0) (js_or (to_number_query (lookup_query (js "offset") q)) (of_Z 0)).

(** [typeof req.query.q === "string" ? req.query.q.trim() : ""] *)
Definition query_text (q : list (jstr * qval)) : jstr :=
  match lookup_query (js "q") q with Some (QStr s) => trim s | _ => [] end.

(** GET / *)
Definition list_items (q : list (jstr * qval)) : st sql_error S response :=
  let text := query_text q in
  let limit := page_limit q in
  let offset := page_offset q in
  rows <- stmt_page (if js_truthy_str text then Some (contains_pattern text) else None) limit offset ;;
  respond 200 (RPage rows limit offset (Z.of_nat (length rows))).

(** GET /:id *)
Definition get_item (param : jstr) : st sql_error S response :=
  let x := to_number_str param in
  if invalid_id x then respond 400 (RError (js "invalid id")) else
  row <- stmt_select x ;;
  match row with
  | None => respond 404 (RError (js "not found"))
  | Some r => respond 200 (RItem (Some r))
  end.

(** PATCH /:id *)
Definition update_item_handler (param : jstr) (body : option json) : st sql_error S response :=
  let x := to_number_str param in
  if invalid_id x then respond 400 (RError (js "invalid id")) else
  existing <- stmt_select x ;;
  match existing with
  | None => respond 404 (RError (js "not found"))
  | Some ex =>
      let b := body_or_empty body in
      let newTitle := match get_field (js "title") b with
                      | Some (JStr t) => if js_truthy_str (trim t) then trim t else title ex
                      | _ => title ex
                      end in
      let newDesc := match get_field (js "description") b with
                     | Some (JStr d) => d
                     | _ => description ex
                     end in
      stmt_update newTitle newDesc x ;;;
      updated <- stmt_select x ;;
      respond 200 (RItem updated)
  end.

(** DELETE /:id *)
Definition delete_item_handler (param : jstr) : st sql_error S response :=
  let x := to_number_str param in
  if invalid_id x then respond 400 (RError (js "invalid id")) else
  changes <- stmt_delete x ;;
  if changes =? 0 then respond 404 (RError (js "not found"))
  else respond 204 RNoContent.

(** A thrown engine error reaches Express's default handler. *)
Definition run (h : st sql_error S response) (s : S) : response * S :=
  match h s with
  | (Ok r, s') => (r, s')
  | (Err _, s') => (mkResponse 500 RServerError, s')
  end.

End Handlers.

(** The limit the list handler computes from a decimal [limit]. *)
Definition clamp_limit (n : Z) : Z := if n =? 0 then 20 else Z.max 1 (Z.min 100 n).

(** ** Behaviour of the handlers *)

Definition body_description (b : option json) : jstr :=
  match get_field (js "description") (body_or_empty b) with Some (JStr d) => d | _ => [] end.

Lemma invalid_id_of_Z (n : Z) : safe_id n -> invalid_id (of_Z n) = false.
Proof. intros Hn. destruct (of_Z_safe n Hn) as (Hint & _ & Hle). unfold invalid_id. by rewrite Hint, Hle. Qed.

Lemma truthy_trim (t : jstr) : trim t <> [] -> js_truthy_str (trim t) = true.
Proof. by destruct (trim t). Qed.

(** C1: [POST /api/items] with a [title] string that is not blank after
    trimming inserts one row, at id [seq + 1], with the trimmed title,
    the [description] string (or [""]), and both timestamps at the
    statement's clock, and replies 201 with that row as re-read from the
    table. *)
Theorem create_item_ok (s : db) (b : option json) (t : jstr) :
  wf s -> safe_id (seq s + 1) ->
  get_field (js "title") (body_or_empty b) = Some (JStr t) -> trim t <> [] ->
  run (create_item b) s =
    (mkResponse 201 (RItem (Some (new_row s (trim t) (body_description b)))),
     mkDb (wal s) true true (rows s ++ [new_row s (trim t) (body_description b)]) (seq s + 1) (clock s)).
Proof.
  intros Hwf Hsafe Ht Hne. unfold run, create_item. rewrite Ht, truthy_trim by done. simpl.
  unfold st_bind. rewrite insert_item_ok by (done || (unfold safe_id, largest_int64 in *; lia)).
  unfold select_by_id. simpl. rewrite rowid_key_of_Z by done.
  fold (body_description b). by rewrite find_row_new.
Qed.

(** C2: [POST /api/items] whose [title] is absent, not a string, or
    blank after trimming replies 400 ["title is required"] and runs no
    statement. *)
Theorem create_item_rejects (s : db) (b : option json) :
  (forall t, get_field (js "title") (body_or_empty b) = Some (JStr t) -> trim t = []) ->
  run (create_item b) s = (mkResponse 400 (RError (js "title is required")), s).
Proof.
  intros H. unfold run, create_item.
  destruct (get_field (js "title") (body_or_empty b)) as [[]|] eqn:E; try reflexivity.
  by rewrite (H _ eq_refl).
Qed.


Lemma wf_id_safe (s : db) (r : item) : wf s -> r ∈ rows s -> id r < 2 ^ 53 -> safe_id (id r).
Proof.
  intros Hwf Hr Hlt. pose proof (wf_rows _ Hwf) as Hrows. rewrite Forall_forall in Hrows.
  specialize (Hrows _ Hr). split; lia.
Qed.

Lemma get_item_safe (s : db) (k : Z) :
  wf s -> safe_id k ->
  run (get_item (dec_string k)) s =
    match find_row k (rows s) with
    | Some r => (mkResponse 200 (RItem (Some r)), s)
    | None => (mkResponse 404 (RError (js "not found")), s)
    end.
Proof.
  intros Hwf Hk. unfold run, get_item.
  rewrite number_of_dec_string, invalid_id_of_Z by (done || (destruct Hk; lia)). simpl.
  unfold st_bind. rewrite select_by_id_safe by done. by destruct (find_row k (rows s)).
Qed.

Lemma get_item_missing (s : db) (k : Z) :
  wf s -> safe_id k -> Forall (fun r => id r <> k) (rows s) ->
  run (get_item (dec_string k)) s = (mkResponse 404 (RError (js "not found")), s).
Proof. intros Hwf Hk Hnone. by rewrite get_item_safe, find_row_none. Qed.

(** C3: [GET /api/items/:id] with the decimal id of a row replies 200
    with that row, and with the decimal form of a safe id that no row
    has replies 404; neither changes the table. *)
Theorem get_item_spec (s : db) (k : Z) :
  wf s -> safe_id k ->
  (forall r, r ∈ rows s -> id r = k ->
     run (get_item (dec_string k)) s = (mkResponse 200 (RItem (Some r)), s)) /\
  (Forall (fun r => id r <> k) (rows s) ->
     run (get_item (dec_string k)) s = (mkResponse 404 (RError (js "not found")), s)).
Proof.
  intros Hwf Hk. split; [|by apply get_item_missing].
  intros r Hr <-. rewrite get_item_safe by done. by rewrite find_row_sorted by (done || apply Hwf).
Qed.

(** C5: [DELETE /api/items/:id] with the decimal id of a row removes
    exactly that row and replies 204; a following GET of the same id
    replies 404.  For a safe id no row has, it replies 404 and changes
    nothing. *)
Theorem delete_item_spec (s : db) (k : Z) :
  wf s -> safe_id k ->
  (forall r, r ∈ rows s -> id r = k ->
     let s' := mkDb (wal s) true true (filter (fun x => id x <> k) (rows s)) (seq s) (clock s) in
     run (delete_item_handler (dec_string k)) s = (mkResponse 204 RNoContent, s') /\
     fst (run (get_item (dec_string k)) s') = mkResponse 404 (RError (js "not found"))) /\
  (Forall (fun r => id r <> k) (rows s) ->
     run (delete_item_handler (dec_string k)) s = (mkResponse 404 (RError (js "not found")), s)).
Proof.
  intros Hwf Hk.
  assert (Hdel : delete_item (of_Z k) s =
    (Ok (Z.of_nat (length (rows s) - length (filter (fun x => id x <> k) (rows s)))),
     mkDb (wal s) true true (filter (fun x => id x <> k) (rows s)) (seq s) (clock s))).
  { unfold delete_item. by rewrite (wf_items _ Hwf), (wf_trigger _ Hwf), rowid_key_of_Z. }
  set (s' := mkDb (wal s) true true (filter (fun x => id x <> k) (rows s)) (seq s) (clock s)) in *.
  assert (Hrun : run (delete_item_handler (dec_string k)) s =
    if Z.of_nat (length (rows s) - length (filter (fun x => id x <> k) (rows s))) =? 0
    then (mkResponse 404 (RError (js "not found")), s') else (mkResponse 204 RNoContent, s')).
  { unfold run, delete_item_handler.
    rewrite number_of_dec_string, invalid_id_of_Z by (done || (destruct Hk; lia)). simpl.
    unfold st_bind. rewrite Hdel. by destruct (_ =? 0). }
  rewrite Hrun. split.
  - intros r Hr Hid.
    pose proof (length_filter_lt (fun x => id x <> k) (rows s) r Hr ltac:(auto)) as Hlt.
    rewrite (proj2 (Z.eqb_neq _ 0)) by lia. split; [done|].
    pose proof (delete_item_wf (of_Z k) s Hwf) as Hwf'. rewrite Hdel in Hwf'. simpl in Hwf'.
    rewrite (get_item_missing _ k Hwf' Hk); [done|]. apply Forall_forall.
    intros x Hx%list_elem_of_filter. apply Hx.
  - intros Hnone. subst s'. rewrite filter_all, Nat.sub_diag by done. simpl.
    destruct s as [w it tr l sq c]; simpl in *.
    pose proof (wf_items _ Hwf). pose proof (wf_trigger _ Hwf). simpl in *. by subst.
Qed.

(** C4: [PATCH /api/items/:id] with the decimal id of a row replaces
    that row, and only it: the title becomes the trimmed [title] string
    when it is not blank and is kept otherwise, the description becomes
    any [description] string (even [""]) and is kept otherwise, the id
    and creation time are kept, and the trigger sets the update time to
    the statement's clock even when nothing else changes.  The reply is
    200 with the row re-read after the update. *)
Theorem update_item_spec (s : db) (r : item) (b : option json) :
  wf s -> r ∈ rows s -> id r < 2 ^ 53 ->
  exists r',
    run (update_item_handler (dec_string (id r)) b) s =
      (mkResponse 200 (RItem (Some r')),
       mkDb (wal s) true true (map (fun x => if id x =? id r then r' else x) (rows s)) (seq s) (clock s)) /\
    id r' = id r /\ created_at r' = created_at r /\ updated_at r' = clock s /\
    (forall t, get_field (js "title") (body_or_empty b) = Some (JStr t) ->
       (trim t <> [] -> title r' = trim t) /\ (trim t = [] -> title r' = title r)) /\
    ((forall t, get_field (js "title") (body_or_empty b) <> Some (JStr t)) -> title r' = title r) /\
    (forall d, get_field (js "description") (body_or_empty b) = Some (JStr d) -> description r' = d) /\
    ((forall d, get_field (js "description") (body_or_empty b) <> Some (JStr d)) ->
       description r' = description r).
Proof.
  intros Hwf Hr Hlt. pose proof (wf_id_safe s r Hwf Hr Hlt) as Hk.
  set (nt := match get_field (js "title") (body_or_empty b) with
             | Some (JStr t) => if js_truthy_str (trim t) then trim t else title r
             | _ => title r end).
  set (nd := match get_field (js "description") (body_or_empty b) with
             | Some (JStr d) => d | _ => description r end).
  set (r' := mkItem (id r) nt nd (created_at r) (clock s)).
  exists r'.
  pose proof (update_item_row s r nt nd Hwf Hr Hk) as Hupd.
  pose proof (update_item_wf nt nd (of_Z (id r)) s Hwf) as Hwf'. rewrite Hupd in Hwf'. simpl in Hwf'.
  assert (Hin : r' ∈ map (fun x => if id x =? id r then r' else x) (rows s)).
  { apply list_elem_of_In, in_map_iff. exists r. rewrite Z.eqb_refl. split; [done|]. by apply list_elem_of_In. }
  split.
  - unfold run, update_item_handler.
    rewrite number_of_dec_string, invalid_id_of_Z by (done || (destruct Hk; lia)). simpl.
    unfold st_bind. rewrite select_by_id_safe, find_row_sorted by (done || apply Hwf).
    fold nt nd. rewrite Hupd. rewrite select_by_id_safe by done.
    change (id r) with (id r') at 1. by rewrite find_row_sorted by (done || apply Hwf').
  - split; [done|]. split; [done|]. split; [done|]. subst r' nt nd. simpl.
    split; [|split; [|split]].
    + intros t ->. split; intros Ht; [by rewrite truthy_trim|by rewrite Ht].
    + intros Hno. destruct (get_field (js "title") _) as [j|] eqn:E; [|done].
      destruct j; try done. by destruct (Hno s0).
    + by intros d ->.
    + intros Hno. destruct (get_field (js "description") _) as [j|] eqn:E; [|done].
      destruct j; try done. by destruct (Hno s0).
Qed.

Lemma page_limit_decimal (q : list (jstr * qval)) (n : Z) :
  0 <= n < 2 ^ 53 -> lookup_query (js "limit") q = Some (QStr (dec_string n)) ->
  page_limit q = of_Z (clamp_limit n).
Proof.
  intros Hn Hq. unfold page_limit, clamp_limit. rewrite Hq. unfold to_number_query.
  rewrite number_of_dec_string, js_or_of_Z by lia.
  destruct (Z.eqb_spec n 0) as [->|Hn0].
  - rewrite math_min_of_Z, math_max_of_Z by (split; lia). reflexivity.
  - rewrite math_min_of_Z, math_max_of_Z by (split; lia). reflexivity.
Qed.

Lemma page_offset_decimal (q : list (jstr * qval)) (m : Z) :
  0 <= m < 2 ^ 53 -> lookup_query (js "offset") q = Some (QStr (dec_string m)) ->
  page_offset q = of_Z m.
Proof.
  intros Hm Hq. unfold page_offset. rewrite Hq. unfold to_number_query.
  rewrite number_of_dec_string, js_or_of_Z by lia.
  destruct (Z.eqb_spec m 0) as [->|Hm0]; [reflexivity|]. by apply math_max_zero_of_Z.
Qed.

Lemma list_items_unfiltered (s : db) (q : list (jstr * qval)) (L m : Z) :
  wf s -> 0 < L <= 100 -> 0 <= m < 2 ^ 53 ->
  page_limit q = of_Z L -> page_offset q = of_Z m -> query_text q = [] ->
  run (list_items q) s =
    (mkResponse 200 (RPage (take (Z.to_nat L) (drop (Z.to_nat m) (rev (rows s)))) (of_Z L) (of_Z m)
                           (Z.of_nat (length (take (Z.to_nat L) (drop (Z.to_nat m) (rev (rows s))))))), s).
Proof.
  intros Hwf HL Hm Hl Ho Ht.
  unfold run, list_items. rewrite Ht, Hl, Ho.
  db_stmts. unfold st_bind, select_page. rewrite (wf_items _ Hwf). unfold must_be_int.
  rewrite !rowid_key_of_Z_nonneg by lia. simpl. unfold limit_offset.
  by rewrite (proj2 (Z.ltb_ge _ 0)) by lia.
Qed.

(** C7: [GET /api/items?limit=n&offset=m] with decimal [n] and [m] and
    no search text replies 200 with the rows in decreasing id order,
    skipping [m] and keeping at most [clamp_limit n] of them, where
    [clamp_limit] clamps [n] to [1..100] and maps [0] to the default 20;
    the reply echoes the limit and the offset and counts the page. *)
Theorem list_items_spec (s : db) (q : list (jstr * qval)) (n m : Z) :
  wf s -> 0 <= n < 2 ^ 53 -> 0 <= m < 2 ^ 53 ->
  lookup_query (js "limit") q = Some (QStr (dec_string n)) ->
  lookup_query (js "offset") q = Some (QStr (dec_string m)) ->
  query_text q = [] ->
  exists page,
    run (list_items q) s = (mkResponse 200 (RPage page (of_Z (clamp_limit n)) (of_Z m) (Z.of_nat (length page))), s) /\
    page = take (Z.to_nat (clamp_limit n)) (drop (Z.to_nat m) (rev (rows s))) /\
    (length page <= 100)%nat /\
    StronglySorted (fun a b => id b < id a) page.
Proof.
  intros Hwf Hn Hm Hl Ho Ht.
  assert (0 < clamp_limit n <= 100) by (unfold clamp_limit; case_match; lia).
  eexists. split.
  { apply list_items_unfiltered; try done. by apply page_limit_decimal. by apply page_offset_decimal. }
  split; [done|]. split.
  - rewrite length_take. unfold clamp_limit. case_match; lia.
  - apply StronglySorted_take, StronglySorted_drop, StronglySorted_rev, Hwf.
Qed.

(** The query [?limit=L&offset=o] of a client paging through the list. *)
Definition paging_query (L o : Z) : list (jstr * qval) :=
  [(js "limit", QStr (dec_string L)); (js "offset", QStr (dec_string o))].

(** The rows of a page reply. *)
Definition reply_rows (r : response) : list item :=
  match payload r with RPage page _ _ _ => page | _ => [] end.

(** C16: a client that pages through [GET /api/items] with a fixed
    [limit=L] (1 to 100) and the offsets [0], [L], [2L], ... sees every
    row exactly once, newest first: the pages of the first [k] requests,
    once [k * L] reaches the number of rows, concatenate to all the rows
    in decreasing id order. *)
Theorem list_pages_cover (s : db) (L : Z) (k : nat) :
  wf s -> 1 <= L <= 100 -> (length (rows s) <= k * Z.to_nat L)%nat -> Z.of_nat k * L < 2 ^ 53 ->
  concat (map (fun i => reply_rows (fst (run (list_items (paging_query L (Z.of_nat i * L))) s))) (List.seq 0 k)) =
    rev (rows s).
Proof.
  intros Hwf HL Hk Hb.
  rewrite <- (concat_windows (Z.to_nat L) k (rev (rows s))) by (rewrite length_rev; lia).
  f_equal. apply map_ext_in. intros i Hi%list_elem_of_In%elem_of_seq.
  assert (0 <= Z.of_nat i * L < 2 ^ 53) by nia.
  rewrite (list_items_unfiltered s _ L (Z.of_nat i * L)); [| done | lia | done | | | done].
  - cbn. by rewrite Z2Nat.inj_mul, Nat2Z.id by lia.
  - rewrite (page_limit_decimal _ L) by (done || lia). f_equal. unfold clamp_limit. zbool; lia.
  - by apply page_offset_decimal.
Qed.

(** C33: [GET /api/items?limit=0] does not clamp the limit to 1: [0] is
    falsy, so [Number(..) || 20] picks the default and the page holds up
    to 20 rows. *)
Theorem list_limit_zero_is_default (s : db) :
  wf s ->
  run (list_items [(js "limit", QStr (js "0"))]) s =
    (mkResponse 200 (RPage (take 20 (rev (rows s))) (of_Z 20) (of_Z 0)
                           (Z.of_nat (length (take 20 (rev (rows s)))))), s).
Proof. intros Hwf. by rewrite (list_items_unfiltered s _ 20 0). Qed.

(** C34: a limit that is not an integer, such as [limit=2.5], survives
    the clamp and reaches SQLite as a REAL that LIMIT rejects: the list
    request fails with 500 instead of returning a page. *)
Theorem list_fractional_limit_fails (s : db) :
  wf s -> run (list_items [(js "limit", QStr (js "2.5"))]) s = (mkResponse 500 RServerError, s).
Proof. intros Hwf. unfold run, list_items. db_stmts. unfold st_bind, select_page. by rewrite (wf_items _ Hwf). Qed.

(** The id check accepts every spelling [Number(..)] reads as a
    positive integer: [/api/items/0x1], [/api/items/1.0], [/api/items/1e0]
    and [/api/items/%201] all address item 1. *)
Theorem id_spellings_alias (s : db) :
  run (get_item (js "0x1")) s = run (get_item (dec_string 1)) s /\
  run (get_item (js "1.0")) s = run (get_item (dec_string 1)) s /\
  run (get_item (js "1e0")) s = run (get_item (dec_string 1)) s /\
  run (get_item (js " 1")) s = run (get_item (dec_string 1)) s.
Proof.
  unfold get_item. rewrite number_of_dec_string by lia.
  by repeat split; f_equal; vm_compute.
Qed.

(** C38: past [Number.MAX_SAFE_INTEGER] the re-read after INSERT goes
    wrong: at [seq = 2^53] the new row gets id [2^53 + 1], but
    [info.lastInsertRowid] rounds to the double [2^53], so the handler
    replies 201 with the older row [2^53] instead of the row it created. *)
Theorem create_reply_past_2_53 (s : db) (b : option json) (t : jstr) (r : item) :
  wf s -> seq s = 2 ^ 53 -> r ∈ rows s -> id r = 2 ^ 53 ->
  get_field (js "title") (body_or_empty b) = Some (JStr t) -> trim t <> [] ->
  run (create_item b) s =
    (mkResponse 201 (RItem (Some r)),
     mkDb (wal s) true true (rows s ++ [new_row s (trim t) (body_description b)]) (seq s + 1) (clock s)).
Proof.
  intros Hwf Hseq Hr Hid Ht Hne. unfold run, create_item. rewrite Ht, truthy_trim by done. simpl.
  unfold st_bind. rewrite insert_item_ok by (done || (unfold largest_int64; lia)).
  unfold select_by_id. simpl.
  replace (of_Z (seq s + 1)) with (of_Z (2 ^ 53)) by (rewrite Hseq; vm_compute; reflexivity).
  replace (rowid_key (of_Z (2 ^ 53))) with (Some (id r)) by (rewrite Hid; vm_compute; reflexivity).
  fold (body_description b). rewrite (find_row_app_l _ _ _ r); [done|].
  apply find_row_sorted; [apply Hwf|done].
Qed.

(** C26: the id path of the API: the decimal form of a safe id, as
    [res.json] prints it, passes the id check of the [:id] routes and
    reaches SQLite as exactly that rowid. *)
Theorem id_path_roundtrip (n : Z) :
  safe_id n ->
  invalid_id (to_number_str (dec_string n)) = false /\ rowid_key (to_number_str (dec_string n)) = Some n.
Proof.
  intros Hn. rewrite number_of_dec_string by (destruct Hn; lia).
  split; [by apply invalid_id_of_Z|by apply rowid_key_of_Z].
Qed.

(** An array of two or more strings prints with a comma. *)
Lemma join_comma_comma (l : list jstr) : (2 <= length l)%nat -> 44 ∈ join_comma l.
Proof.
  destruct l as [|a [|b l]]; simpl; try lia. intros _.
  apply elem_of_app; right. apply elem_of_cons; by left.
Qed.

Lemma to_number_query_array (l : list jstr) : (2 <= length l)%nat -> to_number_query (Some (QArr l)) = NaN.
Proof. intros Hl. simpl. by apply to_number_str_comma, join_comma_comma. Qed.

(** C25: repeated query parameters are ignored: with [?q=a&q=b] Express
    hands the handler an array for [q], which the [typeof] check drops,
    and with [?limit=5&limit=7] an array, which [Number] reads as NaN
    through its comma-joined string; the request lists the 20 newest rows,
    unfiltered. *)
Theorem list_repeated_params (s : db) (q : list (jstr * qval)) (qs ls : list jstr) :
  wf s -> lookup_query (js "q") q = Some (QArr qs) ->
  lookup_query (js "limit") q = Some (QArr ls) -> (2 <= length ls)%nat ->
  lookup_query (js "offset") q = None ->
  run (list_items q) s =
    (mkResponse 200 (RPage (take 20 (rev (rows s))) (of_Z 20) (of_Z 0)
                           (Z.of_nat (length (take 20 (rev (rows s)))))), s).
Proof.
  intros Hwf Hq Hl Hls Ho. apply (list_items_unfiltered s q 20 0); try done; try lia.
  - unfold page_limit. rewrite Hl, to_number_query_array by done. reflexivity.
  - unfold page_offset. by rewrite Ho.
  - unfold query_text. by rewrite Hq.
Qed.

Lemma page_defaults (q : list (jstr * qval)) :
  lookup_query (js "limit") q = None -> lookup_query (js "offset") q = None ->
  page_limit q = of_Z 20 /\ page_offset q = of_Z 0.
Proof. intros Hl Ho. unfold page_limit, page_offset. by rewrite Hl, Ho. Qed.

Lemma list_items_filtered (s : db) (q : list (jstr * qval)) (t : jstr) :
  wf s -> query_text q = t -> t <> [] ->
  lookup_query (js "limit") q = None -> lookup_query (js "offset") q = None ->
  list_items q s =
    if (like_pattern_limit <? utf8_length (contains_pattern t)) && negb (bool_decide (rows s = []))
    then (Err SQLITE_PATTERN_TOO_COMPLEX, s)
    else (Ok (mkResponse 200 (RPage (take 20 (rev (filter (fun r => row_matches (contains_pattern t) r = true) (rows s))))
                                    (of_Z 20) (of_Z 0)
                                    (Z.of_nat (length (take 20 (rev (filter (fun r => row_matches (contains_pattern t) r = true) (rows s)))))))), s).
Proof.
  intros Hwf Ht Hne Hl Ho. destruct (page_defaults q Hl Ho) as [HL HO].
  unfold list_items. rewrite Ht, HL, HO. destruct t as [|c t']; [done|]. simpl js_truthy_str.
  db_stmts. unfold st_bind, select_page. rewrite (wf_items _ Hwf). unfold must_be_int.
  rewrite !rowid_key_of_Z_nonneg by lia. simpl negb. cbv iota beta.
  by destruct (_ && _).
Qed.

(** The pattern [%%%] of [q=%] matches every string; the pattern [%_%]
    of [q=_] every string with a character before its first NUL. *)
Lemma row_matches_pct (r : item) : row_matches (contains_pattern [pct]) r = true.
Proof.
  unfold row_matches, sql_like. change (c_string (contains_pattern [pct])) with (pct :: [pct; pct]).
  apply orb_true_iff. left. apply like_match_pct. exists (c_string (title r)), [].
  split; [by rewrite app_nil_r|reflexivity].
Qed.

Lemma row_matches_usc (r : item) :
  row_matches (contains_pattern [usc]) r = true <-> c_string (title r) <> [] \/ c_string (description r) <> [].
Proof.
  unfold row_matches. rewrite orb_true_iff.
  assert (H : forall x, sql_like x (contains_pattern [usc]) = true <-> c_string x <> []).
  { intros x. split; [intros Hx Hn; unfold sql_like in Hx; by rewrite Hn in Hx|apply sql_like_underscore_query]. }
  by rewrite !H.
Qed.

(** C22: the search text reaches LIKE unescaped, so [%] and [_] in [q]
    are wildcards, not the characters the spec's keyword filter looks
    for: on every database, [GET /api/items?q=%] lists the 20 newest
    rows whatever their text, and [GET /api/items?q=_] the 20 newest
    rows with a non-empty title or description. *)
Theorem list_search_wildcards (s : db) :
  wf s ->
  run (list_items [(js "q", QStr [pct])]) s =
    (mkResponse 200 (RPage (take 20 (rev (rows s))) (of_Z 20) (of_Z 0) (Z.of_nat (length (take 20 (rev (rows s)))))), s) /\
  let hits := filter (fun r => c_string (title r) <> [] \/ c_string (description r) <> []) (rows s) in
  run (list_items [(js "q", QStr [usc])]) s =
    (mkResponse 200 (RPage (take 20 (rev hits)) (of_Z 20) (of_Z 0) (Z.of_nat (length (take 20 (rev hits))))), s).
Proof.
  intros Hwf. unfold run. split.
  - rewrite (list_items_filtered s _ [pct]) by done.
    replace (like_pattern_limit <? utf8_length (contains_pattern [pct])) with false by reflexivity.
    rewrite filter_all; [done|]. apply Forall_forall. intros r _. apply row_matches_pct.
  - rewrite (list_items_filtered s _ [usc]) by done.
    replace (like_pattern_limit <? utf8_length (contains_pattern [usc])) with false by reflexivity.
    cbn zeta. rewrite (list_filter_iff _ (fun r => c_string (title r) <> [] \/ c_string (description r) <> []));
      [done|]. intros r. apply row_matches_usc.
Qed.

(** C8: [GET /api/items?q=t] with a search text free of [%], [_] and NUL
    (and no limit or offset) replies 200 with at most 20 rows, newest
    first: exactly the rows whose title or description contains [t],
    ASCII letters compared without regard to case. *)
Theorem list_items_search (s : db) (q : list (jstr * qval)) (t : jstr) :
  wf s -> query_text q = t -> t <> [] -> literal t ->
  lookup_query (js "limit") q = None -> lookup_query (js "offset") q = None ->
  utf8_length (contains_pattern t) <= like_pattern_limit ->
  exists page,
    run (list_items q) s = (mkResponse 200 (RPage page (of_Z 20) (of_Z 0) (Z.of_nat (length page))), s) /\
    page = take 20 (rev (filter (fun r => row_matches (contains_pattern t) r = true) (rows s))) /\
    (forall r, row_matches (contains_pattern t) r = true <->
       (exists a u b, c_string (title r) = a ++ u ++ b /\ matches_nocase t u) \/
       (exists a u b, c_string (description r) = a ++ u ++ b /\ matches_nocase t u)).
Proof.
  intros Hwf Ht Hne Hlit Hl Ho Hlen. eexists. split; [|split; [reflexivity|]].
  - unfold run. rewrite (list_items_filtered s q t) by done.
    by rewrite (proj2 (Z.ltb_ge _ _) Hlen).
  - intros r. unfold row_matches. rewrite orb_true_iff, !sql_like_contains by done. done.
Qed.

(** C36: the LIKE function refuses a pattern longer than 50000 bytes, so a
    search text of about 50000 bytes makes the list request fail with
    500 as soon as the table has a row, and succeeds on an empty table. *)
Theorem list_pattern_too_long (s : db) (q : list (jstr * qval)) (t : jstr) :
  wf s -> query_text q = t -> t <> [] ->
  lookup_query (js "limit") q = None -> lookup_query (js "offset") q = None ->
  like_pattern_limit < utf8_length (contains_pattern t) ->
  (rows s <> [] -> run (list_items q) s = (mkResponse 500 RServerError, s)) /\
  (rows s = [] -> run (list_items q) s = (mkResponse 200 (RPage [] (of_Z 20) (of_Z 0) 0), s)).
Proof.
  intros Hwf Ht Hne Hl Ho Hlen. unfold run. rewrite (list_items_filtered s q t) by done.
  rewrite (proj2 (Z.ltb_lt _ _) Hlen). split.
  - intros Hrows. by rewrite bool_decide_false.
  - intros Hrows. rewrite bool_decide_true by done. rewrite Hrows. done.
Qed.

(** ** The numbers of a request, and the page bound for every query *)

Lemma to_number_query_valid (v : option qval) : valid (to_number_query v) = true.
Proof. destruct v as [[]|]; simpl; try done; apply to_number_str_valid. Qed.

Lemma of_Z_valid (n : Z) : valid (of_Z n) = true.
Proof. apply binary_normalize_valid. Qed.

Lemma page_limit_valid (q : list (jstr * qval)) : valid (page_limit q) = true.
Proof.
  unfold page_limit. apply math_max_valid; [apply of_Z_valid|]. apply math_min_valid; [apply of_Z_valid|].
  apply js_or_valid; [apply to_number_query_valid|apply of_Z_valid].
Qed.

Lemma page_offset_valid (q : list (jstr * qval)) : valid (page_offset q) = true.
Proof.
  unfold page_offset. apply math_max_valid; [apply of_Z_valid|].
  apply js_or_valid; [apply to_number_query_valid|apply of_Z_valid].
Qed.

Lemma must_be_int_truncate (x : jsnum) (k : Z) : must_be_int x = Ok k -> is_integer x = true /\ truncate x = k.
Proof.
  unfold must_be_int, rowid_key. destruct (is_integer x); [|discriminate].
  by destruct (_ && _); intros [=].
Qed.

Lemma page_limit_int (q : list (jstr * qval)) (k : Z) : must_be_int (page_limit q) = Ok k -> 1 <= k <= 100.
Proof.
  intros [Hi <-]%must_be_int_truncate. unfold page_limit in *. apply clamp_1_100; [|done].
  apply js_or_valid; [apply to_number_query_valid|apply of_Z_valid].
Qed.

Lemma page_offset_int (q : list (jstr * qval)) (o : Z) : must_be_int (page_offset q) = Ok o -> 0 <= o.
Proof. intros [Hi <-]%must_be_int_truncate. unfold page_offset in *. by apply clamp_0. Qed.

Lemma limit_offset_length (k o : Z) (l : list item) : 0 <= k -> (length (limit_offset k o l) <= Z.to_nat k)%nat.
Proof. intros Hk. unfold limit_offset. destruct (Z.ltb_spec k 0); [lia|]. apply take_length_le. Qed.

(** C9: for every query and every database, [GET /api/items] either
    fails with 500 (a LIMIT or OFFSET that is not an integer, a search
    pattern over SQLite's limit, or no table) or replies 200 with a page
    of at most [k] rows, where [k], the LIMIT SQLite received, is an
    integer in [1, 100] and the OFFSET a non-negative integer: the clamp
    of the source holds for every spelling of [limit] and [offset]
    ([Infinity], [1e400], [-0], [0x10], [0.5], repeated keys, ...). *)
Theorem list_page_bounded (q : list (jstr * qval)) (s : db) :
  status (fst (run (list_items q) s)) = 500 \/
  exists page k o,
    fst (run (list_items q) s) = mkResponse 200 (RPage page (page_limit q) (page_offset q) (Z.of_nat (length page))) /\
    must_be_int (page_limit q) = Ok k /\ 1 <= k <= 100 /\
    must_be_int (page_offset q) = Ok o /\ 0 <= o /\ (length page <= Z.to_nat k)%nat.
Proof.
  unfold run, list_items. db_stmts. unfold st_bind, select_page.
  destruct (negb (has_items s)); [by left|].
  destruct (must_be_int (page_limit q)) as [k|] eqn:Hk; [|by left].
  destruct (must_be_int (page_offset q)) as [o|] eqn:Ho; [|by left].
  pose proof (page_limit_int q k Hk). pose proof (page_offset_int q o Ho).
  destruct (js_truthy_str (query_text q)); [destruct (_ && _); [by left|]|];
    right; eexists _, k, o; (split; [reflexivity|]); repeat split; try done; try lia;
    apply limit_offset_length; lia.
Qed.

End Items.
