(* ===== verification/Json.v ===== *)
(** * JSON texts: [JSON.parse] and the text of a value

    [express.json()] (the [app.use] of [src/app.ts], line 9) hands the
    request body text to [JSON.parse]; this file models that parser on
    strings of code points, following ECMA-404 and ECMA-262's
    [JSON.parse]: white space is only space, tab, line feed and carriage
    return; a number is [-? (0 | [1-9][0-9]* ) (.[0-9]+)? ([eE][+-]?[0-9]+)?]
    whose value is its decimal value rounded to the nearest binary64
    ([JsNumber.round_decimal]); a string is read as UTF-16 code units,
    with a backslash escaping a quote, a backslash, a slash, [b], [f],
    [n], [r], [t] or [uXXXX], no control
    character unescaped, and a [\uD8xx\uDCxx] pair of escapes making one
    code point ([utf16_combine]); arrays and objects keep their members
    in text order (duplicate keys included: [Items.lookup_field] reads
    the last, as the object [JSON.parse] builds does).

    The descent through nested values is a fuelled mutual recursion
    ([parse_value], [parse_elements], [parse_members]) whose result
    tells running out of fuel ([NoFuel]) apart from a syntax error
    ([Invalid]); [json_parse] gives it twice the length of the text,
    and [parse_value_fuel] shows that no text exhausts that.

    [json_text] writes a value the way [JSON.stringify] does (the
    escapes of QuoteJSONString, numbers by Number::toString) for the
    values whose numbers are integers below [2^53]; it stands for a
    client that sends a body, and [json_parse_text] is the round trip. *)

From Stdlib Require Import ZArith.
From S2P Require Import Prelude JsString JsNumber Uri Items.

Module Json.
Local Open Scope Z_scope.
Import JsString JsNumber Uri Items.

(** ** Lexical structure *)

Definition json_ws (c : Z) : bool := (c =? 32) || (c =? 9) || (c =? 10) || (c =? 13).

Fixpoint skip_ws (s : jstr) : jstr :=
  match s with
  | c :: r => if json_ws c then skip_ws r else s
  | [] => []
  end.

(** ** Numbers *)

(** [int = 0 | [1-9][0-9]*]: a leading [0] stands alone. *)
Definition int_part (s : jstr) : option (Z * jstr) :=
  match s with
  | c :: r => if c =? 48 then Some (0, r) else
      match scan_digits 10 s 0 0 with
      | (m, S _, r') => Some (m, r')
      | _ => None
      end
  | [] => None
  end.

(** [frac = . [0-9]+]: the digits join the mantissa [m]. *)
Definition fraction (m : Z) (r : jstr) : option (Z * Z * jstr) :=
  match r with
  | c :: r1 =>
      if c =? 46 then
        match scan_digits 10 r1 m 0 with
        | (m', S k, r2) => Some (m', - Z.of_nat (S k), r2)
        | _ => None
        end
      else Some (m, 0, r)
  | [] => Some (m, 0, [])
  end.

(** An optional sign [+] or [-]: whether it is [-], and the rest. *)
Definition sign (s : jstr) : bool * jstr :=
  match s with
  | c :: r => if c =? 45 then (true, r) else if c =? 43 then (false, r) else (false, s)
  | [] => (false, [])
  end.

(** An optional [-]. *)
Definition minus_sign (s : jstr) : bool * jstr :=
  match s with
  | c :: r => if c =? 45 then (true, r) else (false, s)
  | [] => (false, [])
  end.

(** [exp = [eE] [+-]? [0-9]+]. *)
Definition exponent (r : jstr) : option (Z * jstr) :=
  match r with
  | c :: r1 =>
      if (c =? 101) || (c =? 69) then
        let '(neg, r2) := sign r1 in
        match scan_digits 10 r2 0 0 with
        | (x, S _, r3) => Some (if neg then - x else x, r3)
        | _ => None
        end
      else Some (0, r)
  | [] => Some (0, [])
  end.

(** [number = -? int frac? exp?]; its value is the decimal rounded to
    binary64. *)
Definition parse_number (s : jstr) : option (jsnum * jstr) :=
  let '(neg, s1) := minus_sign s in
  match int_part s1 with
  | None => None
  | Some (m, r1) =>
      match fraction m r1 with
      | None => None
      | Some (m', e1, r2) =>
          match exponent r2 with
          | None => None
          | Some (e2, r3) => Some (round_decimal neg m' (e1 + e2), r3)
          end
      end
  end.

(** ** Strings *)

(** The character an escape [\c] stands for. *)
Definition escape_char (c : Z) : option Z :=
  if c =? 34 then Some 34 else if c =? 92 then Some 92 else if c =? 47 then Some 47
  else if c =? 98 then Some 8 else if c =? 102 then Some 12 else if c =? 110 then Some 10
  else if c =? 114 then Some 13 else if c =? 116 then Some 9 else None.

(** Inside a string: a plain character, after a backslash, or in the
    hex digits of [\u] with [k + 1] digits to go and the value so far. *)
Inductive lex_state := SChar | SEsc | SHex (k : nat) (v : Z).

(** The code units of a string up to its closing quote (reversed in
    [acc]), and the text after it. *)
Fixpoint lex_string (q : lex_state) (s : jstr) (acc : list Z) : option (list Z * jstr) :=
  match s with
  | [] => None
  | c :: r =>
      match q with
      | SChar =>
          if c =? 34 then Some (rev acc, r)
          else if c =? 92 then lex_string SEsc r acc
          else if c <? 32 then None
          else lex_string SChar r (c :: acc)
      | SEsc =>
          match escape_char c with
          | Some u => lex_string SChar r (u :: acc)
          | None => if c =? 117 then lex_string (SHex 3 0) r acc else None
          end
      | SHex k v =>
          match digit_of 16 c with
          | None => None
          | Some d =>
              match k with
              | O => lex_string SChar r ((v * 16 + d) :: acc)
              | S k' => lex_string (SHex k' (v * 16 + d)) r acc
              end
          end
      end
  end.

Definition is_high (c : Z) : bool := (55296 <=? c) && (c <=? 56319).
Definition is_low (c : Z) : bool := (56320 <=? c) && (c <=? 57343).

(** A JavaScript string is a sequence of UTF-16 code units: a leading
    surrogate followed by a trailing one is a single code point. *)
Fixpoint utf16_combine (l : list Z) : jstr :=
  match l with
  | h :: (lo :: r) as t =>
      if is_high h && is_low lo then (65536 + (h - 55296) * 1024 + (lo - 56320)) :: utf16_combine r
      else h :: utf16_combine t
  | _ => l
  end.

Definition parse_string (s : jstr) : option (jstr * jstr) :=
  match lex_string SChar s [] with
  | Some (u, r) => Some (utf16_combine u, r)
  | None => None
  end.

(** ** Values *)

(** The rest of [s] after the literal text [p]. *)
Fixpoint strip_literal (p s : jstr) : option jstr :=
  match p, s with
  | [], _ => Some s
  | a :: p', c :: s' => if c =? a then strip_literal p' s' else None
  | _ :: _, [] => None
  end.

(** [true], [false], [null] or a number. *)
Definition parse_scalar (t : jstr) : option (json * jstr) :=
  match strip_literal (js "true") t with
  | Some r => Some (JBool true, r)
  | None =>
  match strip_literal (js "false") t with
  | Some r => Some (JBool false, r)
  | None =>
  match strip_literal (js "null") t with
  | Some r => Some (JNull, r)
  | None =>
  match parse_number t with
  | Some (x, r) => Some (JNum x, r)
  | None => None
  end end end end.

Inductive parsed := Parsed (v : json) (rest : jstr) | Invalid | NoFuel.

(** The character after white space, and the text after it. *)
Definition next_char (s : jstr) : option (Z * jstr) :=
  match skip_ws s with
  | c :: r => Some (c, r)
  | [] => None
  end.

Fixpoint parse_value (fuel : nat) (s : jstr) : parsed :=
  match fuel with
  | O => NoFuel
  | S f =>
      match next_char s with
      | None => Invalid
      | Some (c, r) =>
          if c =? 123 then
            match next_char r with
            | Some (c', r') => if c' =? 125 then Parsed (JObj []) r' else parse_members f r []
            | None => parse_members f r []
            end
          else if c =? 91 then
            match next_char r with
            | Some (c', r') => if c' =? 93 then Parsed (JArr []) r' else parse_elements f r []
            | None => parse_elements f r []
            end
          else if c =? 34 then
            match parse_string r with
            | Some (x, r') => Parsed (JStr x) r'
            | None => Invalid
            end
          else
            match parse_scalar (c :: r) with
            | Some (v, r') => Parsed v r'
            | None => Invalid
            end
      end
  end

(** The elements of an array after its opening bracket, [acc] those
    read so far. *)
with parse_elements (fuel : nat) (s : jstr) (acc : list json) : parsed :=
  match fuel with
  | O => NoFuel
  | S f =>
      match parse_value f s with
      | Parsed v r =>
          match next_char r with
          | Some (c, r') =>
              if c =? 44 then parse_elements f r' (v :: acc)
              else if c =? 93 then Parsed (JArr (rev (v :: acc))) r'
              else Invalid
          | None => Invalid
          end
      | e => e
      end
  end

(** The members of an object after its [{]. *)
with parse_members (fuel : nat) (s : jstr) (acc : list (jstr * json)) : parsed :=
  match fuel with
  | O => NoFuel
  | S f =>
      match next_char s with
      | Some (c0, r) =>
          if negb (c0 =? 34) then Invalid else
          match parse_string r with
          | None => Invalid
          | Some (k, r1) =>
              match next_char r1 with
              | Some (c1, r2) =>
                  if negb (c1 =? 58) then Invalid else
                  match parse_value f r2 with
                  | Parsed v r3 =>
                      match next_char r3 with
                      | Some (c, r4) =>
                          if c =? 44 then parse_members f r4 ((k, v) :: acc)
                          else if c =? 125 then Parsed (JObj (rev ((k, v) :: acc))) r4
                          else Invalid
                      | None => Invalid
                      end
                  | e => e
                  end
              | None => Invalid
              end
          end
      | None => Invalid
      end
  end.

(** [JSON.parse(text)]: one value, then only white space. *)
Definition json_parse (s : jstr) : option json :=
  match parse_value (S (2 * length s)) s with
  | Parsed v r => if forallb json_ws r then Some v else None
  | _ => None
  end.

(** ** The text of a value *)

Definition hex_lower (d : Z) : Z := if d <? 10 then 48 + d else 87 + d.

(** QuoteJSONString on one code point. *)
Definition quote_char (c : Z) : jstr :=
  if c =? 34 then [92; 34] else if c =? 92 then [92; 92]
  else if c =? 8 then [92; 98] else if c =? 12 then [92; 102]
  else if c =? 10 then [92; 110] else if c =? 13 then [92; 114]
  else if c =? 9 then [92; 116]
  else if (c <? 32) || is_surrogate c then
    [92; 117; hex_lower (c / 4096); hex_lower (c / 256 mod 16); hex_lower (c / 16 mod 16); hex_lower (c mod 16)]
  else [c].

Definition quote (s : jstr) : jstr := 34 :: flat_map quote_char s ++ [34].

(** Number::toString on an integer of magnitude below [2^53]: its
    decimal digits, with [-] when negative ([-0] prints as [0]). *)
Definition number_text (x : jsnum) : option jstr :=
  if is_integer x && (Z.abs (truncate x) <? 2 ^ 53) then
    Some ((if truncate x <? 0 then [45] else []) ++ dec_string (Z.abs (truncate x)))
  else None.

Fixpoint omap {A B} (f : A -> option B) (l : list A) : option (list B) :=
  match l with
  | [] => Some []
  | a :: l' =>
      match f a, omap f l' with
      | Some b, Some bs => Some (b :: bs)
      | _, _ => None
      end
  end.

Fixpoint json_text (v : json) : option jstr :=
  match v with
  | JNull => Some (js "null")
  | JBool true => Some (js "true")
  | JBool false => Some (js "false")
  | JNum x => number_text x
  | JStr s => Some (quote s)
  | JArr l => option_map (fun ts => 91 :: join_comma ts ++ [93]) (omap json_text l)
  | JObj fs =>
      option_map (fun ts => 123 :: join_comma ts ++ [125])
        (omap (fun '(k, x) => option_map (fun t => quote k ++ 58 :: t) (json_text x)) fs)
  end.

(** ** Values a text can carry *)

(** A string of code points as JavaScript holds it: no leading
    surrogate right before a trailing one (that pair is one code point). *)
Fixpoint no_pair (s : jstr) : bool :=
  match s with
  | h :: (lo :: _) as t => negb (is_high h && is_low lo) && no_pair t
  | _ => true
  end.

Definition str_ok (s : jstr) : Prop := Forall (fun c => 0 <= c) s /\ no_pair s = true.

(** The values [json_text] writes and [json_parse] reads back: strings
    as above, numbers the integers from [0] to [2^53 - 1]. *)
Fixpoint json_ok (v : json) : Prop :=
  match v with
  | JNum x => exists n, 0 <= n < 2 ^ 53 /\ x = of_Z n
  | JStr s => str_ok s
  | JArr l => (fix go l := match l with [] => True | x :: l' => json_ok x /\ go l' end) l
  | JObj fs =>
      (fix go fs := match fs with [] => True | (k, x) :: fs' => str_ok k /\ json_ok x /\ go fs' end) fs
  | _ => True
  end.

(** What may follow a value inside a text: its end, or the comma or
    closing bracket of the array or object around it. *)
Definition stops (r : jstr) : Prop :=
  match r with [] => True | c :: _ => c = 44 \/ c = 93 \/ c = 125 end.

(** ** Every step consumes text *)

Lemma skip_ws_length (s : jstr) : (length (skip_ws s) <= length s)%nat.
Proof. induction s as [|c r IH]; simpl; [lia|]. destruct (json_ws c); simpl; lia. Qed.

Lemma next_char_length (s r : jstr) (c : Z) : next_char s = Some (c, r) -> (length r < length s)%nat.
Proof.
  unfold next_char. pose proof (skip_ws_length s).
  destruct (skip_ws s) as [|c' r'] eqn:E; intros [=]; subst. simpl in *. lia.
Qed.

Lemma scan_digits_length (radix : Z) (s : jstr) (acc : Z) (n : nat) (v : Z) (k : nat) (r : jstr) :
  scan_digits radix s acc n = (v, k, r) -> (length r + n <= length s + k)%nat /\ (length r + k = length s + n)%nat.
Proof.
  revert acc n. induction s as [|c s IH]; intros acc n; simpl; [intros [=]; subst; simpl; lia|].
  destruct (digit_of radix c); [intros H%IH; simpl; lia|intros [=]; subst; simpl; lia].
Qed.

Lemma int_part_length (s r : jstr) (m : Z) : int_part s = Some (m, r) -> (length r < length s)%nat.
Proof.
  unfold int_part. destruct s as [|c s]; [done|]. case_match; [intros [=]; subst; simpl; lia|].
  destruct (scan_digits 10 (c :: s) 0 0) as [[v [|k]] r'] eqn:E; [done|].
  intros [=]; subst. apply scan_digits_length in E. lia.
Qed.

Lemma fraction_length (m m' e : Z) (r r' : jstr) : fraction m r = Some (m', e, r') -> (length r' <= length r)%nat.
Proof.
  unfold fraction. destruct r as [|c r]; [intros [=]; subst; lia|]. case_match; [|intros [=]; subst; lia].
  destruct (scan_digits 10 r m 0) as [[v [|k]] r2] eqn:E; [done|].
  intros [=]; subst. apply scan_digits_length in E. simpl. lia.
Qed.

Lemma sign_length (s : jstr) : (length (snd (sign s)) <= length s)%nat /\ (length (snd (minus_sign s)) <= length s)%nat.
Proof. unfold sign, minus_sign. destruct s; [done|]. repeat case_match; simpl; lia. Qed.

Lemma exponent_length (e : Z) (r r' : jstr) : exponent r = Some (e, r') -> (length r' <= length r)%nat.
Proof.
  unfold exponent. destruct r as [|c r]; [intros [=]; subst; lia|]. case_match; [|intros [=]; subst; lia].
  pose proof (proj1 (sign_length r)) as Hs.
  destruct (sign r) as [neg r2]. simpl in Hs.
  destruct (scan_digits 10 r2 0 0) as [[v [|k]] r3] eqn:E; [done|].
  intros [=]; subst. apply scan_digits_length in E. simpl. lia.
Qed.

Lemma parse_number_length (s r : jstr) (x : jsnum) : parse_number s = Some (x, r) -> (length r < length s)%nat.
Proof.
  unfold parse_number. pose proof (proj2 (sign_length s)) as Hs.
  destruct (minus_sign s) as [neg s1]. simpl in Hs.
  destruct (int_part s1) as [[m r1]|] eqn:E1; [|done]. apply int_part_length in E1.
  destruct (fraction m r1) as [[[m' e1] r2]|] eqn:E2; [|done]. apply fraction_length in E2.
  destruct (exponent r2) as [[e2 r3]|] eqn:E3; [|done]. apply exponent_length in E3.
  intros [=]; subst. lia.
Qed.

Lemma strip_literal_length (p s r : jstr) : strip_literal p s = Some r -> (length r + length p = length s)%nat.
Proof.
  revert s. induction p as [|a p IH]; intros s; simpl; [intros [=]; subst; lia|].
  destruct s as [|c s]; [done|]. case_match; [intros Hp%IH; simpl; lia|done].
Qed.

Lemma parse_scalar_length (t r : jstr) (v : json) : parse_scalar t = Some (v, r) -> (length r < length t)%nat.
Proof.
  unfold parse_scalar.
  repeat case_match; intros [=]; subst;
    repeat match goal with H : strip_literal _ _ = Some _ |- _ => apply strip_literal_length in H
                         | H : parse_number _ = Some _ |- _ => apply parse_number_length in H end;
    simpl in *; lia.
Qed.

Lemma lex_string_length (q : lex_state) (s : jstr) (acc u r : list Z) :
  lex_string q s acc = Some (u, r) -> (length r < length s)%nat.
Proof.
  revert q acc. induction s as [|c s IH]; intros q acc; simpl; [done|].
  destruct q; repeat case_match; intros Hl; simplify_eq; try (apply IH in Hl); simpl; lia.
Qed.

Lemma parse_string_length (s k r : jstr) : parse_string s = Some (k, r) -> (length r < length s)%nat.
Proof.
  unfold parse_string. destruct (lex_string SChar s []) as [[u r']|] eqn:E; [|done].
  intros [=]; subst. by eapply lex_string_length.
Qed.

Ltac json_lengths :=
  repeat match goal with
  | H : next_char _ = Some _ |- _ => apply next_char_length in H
  | H : parse_string _ = Some _ |- _ => apply parse_string_length in H
  | H : parse_scalar _ = Some _ |- _ => apply parse_scalar_length in H
  end.

Lemma parse_length (f : nat) :
  (forall s v r, parse_value f s = Parsed v r -> (length r < length s)%nat) /\
  (forall s acc v r, parse_elements f s acc = Parsed v r -> (length r < length s)%nat) /\
  (forall s acc v r, parse_members f s acc = Parsed v r -> (length r < length s)%nat).
Proof.
  induction f as [|f (IHv & IHe & IHm)]; [done|].
  split; [|split]; intros *; simpl; repeat case_match; intros Hl; simplify_eq; json_lengths;
    repeat match goal with
    | H : parse_value f _ = Parsed _ _ |- _ => apply IHv in H
    | H : parse_elements f _ _ = Parsed _ _ |- _ => apply IHe in H
    | H : parse_members f _ _ = Parsed _ _ |- _ => apply IHm in H
    end; simpl in *; lia.
Qed.

Ltac parse_lengths :=
  json_lengths;
  repeat match goal with
  | H : parse_value ?f _ = Parsed _ _ |- _ => apply (proj1 (parse_length f)) in H
  end.

(** ** Fuel *)

(** Twice the length of the text is enough fuel: a value needs one
    round more than the array or object it opens, an element list one
    more than its first element, and both consume text. *)
Lemma parse_fuel (f : nat) :
  (forall s, (2 * length s < f)%nat -> parse_value f s <> NoFuel) /\
  (forall s acc, (2 * length s + 1 < f)%nat -> parse_elements f s acc <> NoFuel) /\
  (forall s acc, (2 * length s + 1 < f)%nat -> parse_members f s acc <> NoFuel).
Proof.
  induction f as [|f (IHv & IHe & IHm)]; [split; [|split]; intros; lia|].
  split; [|split]; intros * Hf; simpl; repeat case_match; try discriminate; parse_lengths;
    first [ apply IHv | apply IHe | apply IHm
          | match goal with H : parse_value f _ = NoFuel |- _ => exfalso; revert H; apply IHv end ];
    simpl in *; lia.
Qed.

(** More fuel changes no outcome reached with less. *)
Lemma parse_mono (f : nat) :
  (forall f' s, (f <= f')%nat -> parse_value f s <> NoFuel -> parse_value f' s = parse_value f s) /\
  (forall f' s acc, (f <= f')%nat -> parse_elements f s acc <> NoFuel -> parse_elements f' s acc = parse_elements f s acc) /\
  (forall f' s acc, (f <= f')%nat -> parse_members f s acc <> NoFuel -> parse_members f' s acc = parse_members f s acc).
Proof.
  induction f as [|f (IHv & IHe & IHm)]; [split; [|split]; intros; simpl in *; congruence|].
  split; [|split]; intros [|f'] * Hf Hn; try lia; simpl in *.
  - repeat case_match; try done; first [apply IHm | apply IHe]; done || lia.
  - destruct (parse_value f s) eqn:E; try done;
      rewrite (IHv f' s), E by (lia || congruence); [|done].
    repeat case_match; try done. apply IHe; done || lia.
  - destruct (next_char s) as [[c0 r]|]; [|done]. destruct (negb (c0 =? 34)); [done|].
    destruct (parse_string r) as [[k r1]|]; [|done]. destruct (next_char r1) as [[c1 r2]|]; [|done].
    destruct (negb (c1 =? 58)); [done|].
    destruct (parse_value f r2) eqn:E; try done; rewrite (IHv f' r2), E by (lia || congruence); [|done].
    repeat case_match; try done. apply IHm; done || lia.
Qed.

(** ** Induction on nested values *)

Section JsonInd.
Variable P : json -> Prop.
Hypothesis P_null : P JNull.
Hypothesis P_bool : forall b, P (JBool b).
Hypothesis P_num : forall x, P (JNum x).
Hypothesis P_str : forall s, P (JStr s).
Hypothesis P_arr : forall l, Forall P l -> P (JArr l).
Hypothesis P_obj : forall fs, Forall (fun kv => P (snd kv)) fs -> P (JObj fs).

Fixpoint json_ind' (v : json) : P v :=
  match v with
  | JNull => P_null
  | JBool b => P_bool b
  | JNum x => P_num x
  | JStr s => P_str s
  | JArr l =>
      P_arr l ((fix go l : Forall P l :=
                  match l with
                  | [] => List.Forall_nil _
                  | x :: l' => List.Forall_cons P x l' (json_ind' x) (go l')
                  end) l)
  | JObj fs =>
      P_obj fs ((fix go fs : Forall (fun kv => P (snd kv)) fs :=
                   match fs with
                   | [] => List.Forall_nil _
                   | kv :: fs' => List.Forall_cons (fun kv => P (snd kv)) kv fs' (json_ind' (snd kv)) (go fs')
                   end) fs)
  end.
End JsonInd.

Lemma json_ok_arr (l : list json) : json_ok (JArr l) <-> Forall json_ok l.
Proof. simpl. induction l as [|x l IH]; [split; constructor|]. rewrite Forall_cons, <- IH. done. Qed.

Lemma json_ok_obj (fs : list (jstr * json)) :
  json_ok (JObj fs) <-> Forall (fun kv => str_ok (fst kv) /\ json_ok (snd kv)) fs.
Proof.
  simpl. induction fs as [|[k x] fs IH]; [split; constructor|].
  rewrite Forall_cons, <- IH. simpl. tauto.
Qed.

(** ** Strings read back *)

Lemma digit_of_hex_lower (d : Z) : 0 <= d < 16 -> digit_of 16 (hex_lower d) = Some d.
Proof. intros Hd. unfold hex_lower. destruct (Z.ltb_spec d 10); unfold digit_of; zbool; f_equal; lia. Qed.

(** Each code point written by QuoteJSONString is read back as itself. *)
Lemma lex_quote_char (c : Z) (r : jstr) (acc : list Z) : 0 <= c ->
  lex_string SChar (quote_char c ++ r) acc = lex_string SChar r (c :: acc).
Proof.
  intros Hc. unfold quote_char.
  destruct (Z.eqb_spec c 34) as [->|H34]; [reflexivity|].
  destruct (Z.eqb_spec c 92) as [->|H92]; [reflexivity|].
  destruct (Z.eqb_spec c 8) as [->|]; [reflexivity|].
  destruct (Z.eqb_spec c 12) as [->|]; [reflexivity|].
  destruct (Z.eqb_spec c 10) as [->|]; [reflexivity|].
  destruct (Z.eqb_spec c 13) as [->|]; [reflexivity|].
  destruct (Z.eqb_spec c 9) as [->|]; [reflexivity|].
  destruct ((c <? 32) || is_surrogate c) eqn:Hu.
  - assert (c < 65536).
    { unfold is_surrogate in Hu. apply orb_true_iff in Hu as [Hu|Hu];
        [apply Z.ltb_lt in Hu|apply andb_true_iff in Hu as [_ Hu]; apply Z.leb_le in Hu]; lia. }
    cbn [app]. simpl lex_string.
    repeat (rewrite digit_of_hex_lower by (Z.div_mod_to_equations; lia); simpl lex_string).
    do 3 f_equal. Z.div_mod_to_equations. lia.
  - apply orb_false_iff in Hu as [Hu _]. apply Z.ltb_ge in Hu.
    cbn [app lex_string]. rewrite (proj2 (Z.eqb_neq c 34)), (proj2 (Z.eqb_neq c 92)) by done.
    by rewrite (proj2 (Z.ltb_ge c 32)).
Qed.

Lemma lex_quote (s r : jstr) (acc : list Z) : Forall (fun c => 0 <= c) s ->
  lex_string SChar (flat_map quote_char s ++ 34 :: r) acc = Some (rev acc ++ s, r).
Proof.
  intros Hs. revert acc. induction Hs as [|c s Hc _ IH]; intros acc; [by rewrite app_nil_r|].
  cbn [flat_map]. rewrite <- app_assoc, lex_quote_char, IH by done. cbn [rev]. by rewrite <- app_assoc.
Qed.

Lemma utf16_combine_no_pair (s : jstr) : no_pair s = true -> utf16_combine s = s.
Proof.
  induction s as [|h t IH]; [done|]. destruct t as [|lo r]; [done|].
  cbn [no_pair utf16_combine]. intros [Hp Ht]%andb_true_iff. apply negb_true_iff in Hp.
  rewrite Hp. f_equal. by apply IH.
Qed.

Lemma parse_string_quote (s r : jstr) : str_ok s -> parse_string (flat_map quote_char s ++ 34 :: r) = Some (s, r).
Proof. intros [Hs Hp]. unfold parse_string. rewrite lex_quote by done. simpl. by rewrite utf16_combine_no_pair. Qed.

(** ** Numbers read back *)

Lemma scan_digits_stop (r : jstr) (acc : Z) (k : nat) : stops r -> scan_digits 10 r acc k = (acc, k, r).
Proof. destruct r as [|c r]; [done|]. by intros [->|[->| ->]]. Qed.

Lemma fraction_stop (m : Z) (r : jstr) : stops r -> fraction m r = Some (m, 0, r).
Proof. destruct r as [|c r]; [done|]. by intros [->|[->| ->]]. Qed.

Lemma exponent_stop (r : jstr) : stops r -> exponent r = Some (0, r).
Proof. destruct r as [|c r]; [done|]. by intros [->|[->| ->]]. Qed.

Lemma parse_number_dec (n : Z) (r : jstr) : 0 <= n -> stops r -> parse_number (dec_string n ++ r) = Some (of_Z n, r).
Proof.
  intros Hn Hr. destruct (Z.eq_dec n 0) as [->|Hn0].
  - change (dec_string 0 ++ r) with (48 :: r). unfold parse_number. simpl.
    by rewrite fraction_stop, exponent_stop.
  - destruct (dec_string_spec n Hn) as (ds & Hds & Hdig & Hval & _).
    destruct (dec_string_head n ltac:(lia)) as (c & ds' & Hc & Hcr). rewrite Hc in Hds. subst ds.
    rewrite Hc. unfold parse_number.
    assert (Hm : minus_sign ((c :: ds') ++ r) = (false, (c :: ds') ++ r))
      by (cbn; by rewrite (proj2 (Z.eqb_neq c 45)) by lia).
    assert (Hi : int_part ((c :: ds') ++ r) = Some (n, r)).
    { unfold int_part. cbn [app]. rewrite (proj2 (Z.eqb_neq c 48)) by lia.
      change (c :: ds' ++ r) with ((c :: ds') ++ r). by rewrite scan_digits_app, scan_digits_stop, Hval. }
    rewrite Hm, Hi, fraction_stop, exponent_stop by done.
    unfold round_decimal, of_Z. rewrite (proj2 (Z.eqb_neq n 0)) by done. simpl. by rewrite Z.mul_1_r.
Qed.

Lemma number_text_of_Z (n : Z) : 0 <= n < 2 ^ 53 -> number_text (of_Z n) = Some (dec_string n).
Proof.
  intros Hn. destruct (Z.eq_dec n 0) as [->|Hn0]; [reflexivity|].
  destruct (of_Z_safe n ltac:(unfold safe_id; lia)) as (Hi & Ht & _).
  unfold number_text. rewrite Hi, Ht, Z.abs_eq by lia. zbool. reflexivity.
Qed.

(** ** Values read back *)

Lemma value_lift (f f' : nat) (s r : jstr) (v : json) :
  parse_value f s = Parsed v r -> (f <= f')%nat -> parse_value f' s = Parsed v r.
Proof. intros E Hf. by rewrite (proj1 (parse_mono f) f' s Hf) by congruence. Qed.

Lemma elements_lift (f f' : nat) (s r : jstr) (acc : list json) (v : json) :
  parse_elements f s acc = Parsed v r -> (f <= f')%nat -> parse_elements f' s acc = Parsed v r.
Proof. intros E Hf. by rewrite (proj1 (proj2 (parse_mono f)) f' s acc Hf) by congruence. Qed.

Lemma members_lift (f f' : nat) (s r : jstr) (acc : list (jstr * json)) (v : json) :
  parse_members f s acc = Parsed v r -> (f <= f')%nat -> parse_members f' s acc = Parsed v r.
Proof. intros E Hf. by rewrite (proj2 (proj2 (parse_mono f)) f' s acc Hf) by congruence. Qed.

Lemma next_char_cons (c : Z) (t : jstr) : json_ws c = false -> next_char (c :: t) = Some (c, t).
Proof. intros Hc. unfold next_char. cbn [skip_ws]. by rewrite Hc. Qed.

(** Every text starts with a character that is not white space and
    closes nothing. *)
Lemma json_text_head (v : json) (t : jstr) : json_text v = Some t ->
  exists c t', t = c :: t' /\ json_ws c = false /\ c <> 93 /\ c <> 125.
Proof.
  destruct v as [|[]|x|s|l|fs]; cbn [json_text]; intros E.
  - injection E as <-. by exists 110, (js "ull").
  - injection E as <-. by exists 116, (js "rue").
  - injection E as <-. by exists 102, (js "alse").
  - unfold number_text in E. destruct (_ && _); [|done]. injection E as <-.
    destruct (dec_string_spec (Z.abs (truncate x)) ltac:(lia)) as (ds & -> & Hdig & _ & Hne).
    destruct (truncate x <? 0).
    + by exists 45, ds.
    + destruct ds as [|c ds]; [done|]. apply Forall_cons in Hdig as [Hc _]. unfold is_digit in Hc.
      exists c, ds. split; [done|]. unfold json_ws. zbool. repeat split; lia.
  - injection E as <-. by eexists 34, _.
  - destruct (omap json_text l); [|done]. injection E as <-. by eexists 91, _.
  - destruct (omap _ fs); [|done]. injection E as <-. by eexists 123, _.
Qed.

Lemma omap_cons {A B} (f : A -> option B) (a : A) (l : list A) (bs : list B) :
  omap f (a :: l) = Some bs -> exists b bs', f a = Some b /\ omap f l = Some bs' /\ bs = b :: bs'.
Proof. cbn [omap]. destruct (f a), (omap f l); intros; simplify_eq; eauto. Qed.

Lemma omap_nil {A B} (f : A -> option B) (bs : list B) : omap f [] = Some bs -> bs = [].
Proof. by intros [=]. Qed.

(** What a text written by [json_text] reads back to. *)
Definition reads_back (v : json) : Prop :=
  forall t r, json_text v = Some t -> stops r -> exists f, parse_value f (t ++ r) = Parsed v r.

Lemma parse_value_scalar (f : nat) (c : Z) (t : jstr) :
  json_ws c = false -> c <> 123 -> c <> 91 -> c <> 34 ->
  parse_value (S f) (c :: t) = match parse_scalar (c :: t) with Some (v, r') => Parsed v r' | None => Invalid end.
Proof.
  intros Hw H1 H2 H3. cbn [parse_value]. rewrite next_char_cons by done.
  by rewrite (proj2 (Z.eqb_neq c 123)), (proj2 (Z.eqb_neq c 91)), (proj2 (Z.eqb_neq c 34)).
Qed.

Lemma parse_scalar_digit (c : Z) (t : jstr) : 48 <= c <= 57 ->
  parse_scalar (c :: t) = match parse_number (c :: t) with Some (x, r) => Some (JNum x, r) | None => None end.
Proof.
  intros Hc. unfold parse_scalar.
  change (js "true") with [116; 114; 117; 101]. change (js "false") with [102; 97; 108; 115; 101].
  change (js "null") with [110; 117; 108; 108]. cbn [strip_literal].
  by rewrite (proj2 (Z.eqb_neq c 116)), (proj2 (Z.eqb_neq c 102)), (proj2 (Z.eqb_neq c 110)) by lia.
Qed.

Lemma reads_back_num (n : Z) : 0 <= n < 2 ^ 53 -> reads_back (JNum (of_Z n)).
Proof.
  intros Hn t r Ht Hr. cbn [json_text] in Ht. rewrite number_text_of_Z in Ht by done. injection Ht as <-.
  exists 1%nat. destruct (dec_string_spec n ltac:(lia)) as (ds & Hds & Hdig & _ & Hne).
  destruct ds as [|c ds']; [done|]. pose proof (Forall_inv Hdig) as Hc. unfold is_digit in Hc.
  pose proof (parse_number_dec n r ltac:(lia) Hr) as Hp. rewrite Hds in Hp |- *. cbn [app] in Hp |- *.
  rewrite parse_value_scalar, parse_scalar_digit, Hp by (unfold json_ws; zbool; done || lia). done.
Qed.

Lemma reads_back_str (s : jstr) : str_ok s -> reads_back (JStr s).
Proof.
  intros Hs t r Ht Hr. injection Ht as <-. exists 1%nat. unfold quote.
  rewrite <- app_comm_cons, <- app_assoc. cbn [parse_value app]. rewrite next_char_cons by done.
  cbn [Z.eqb Pos.eqb]. by rewrite parse_string_quote.
Qed.

Lemma stops_44 (r : jstr) : stops (44 :: r).
Proof. simpl. auto. Qed.
Lemma stops_93 (r : jstr) : stops (93 :: r).
Proof. simpl. auto. Qed.
Lemma stops_125 (r : jstr) : stops (125 :: r).
Proof. simpl. auto. Qed.

Lemma parse_elements_text (l : list json) (ts : list jstr) (acc : list json) (r : jstr) :
  Forall reads_back l -> omap json_text l = Some ts -> l <> [] ->
  exists f, parse_elements f (join_comma ts ++ 93 :: r) acc = Parsed (JArr (rev acc ++ l)) r.
Proof.
  revert ts acc. induction l as [|v l IH]; intros ts acc Hl Ht Hne; [done|].
  apply Forall_cons in Hl as [Hv Hl]. destruct (omap_cons _ _ _ _ Ht) as (t1 & ts' & Ht1 & Hts & ->).
  destruct l as [|v' l'].
  - apply omap_nil in Hts as ->. destruct (Hv t1 (93 :: r) Ht1 (stops_93 r)) as [f1 Hf1].
    exists (S f1). cbn [join_comma parse_elements]. by rewrite Hf1.
  - destruct (omap_cons _ _ _ _ Hts) as (t2 & ts'' & _ & _ & ->).
    destruct (Hv t1 (44 :: join_comma (t2 :: ts'') ++ 93 :: r) Ht1 (stops_44 _)) as [f1 Hf1].
    destruct (IH (t2 :: ts'') (v :: acc) Hl Hts ltac:(done)) as [f2 Hf2].
    exists (S (f1 + f2)).
    replace (join_comma (t1 :: t2 :: ts'') ++ 93 :: r) with (t1 ++ 44 :: join_comma (t2 :: ts'') ++ 93 :: r)
      by (cbn [join_comma]; by rewrite <- app_assoc).
    cbn [parse_elements]. rewrite (value_lift _ (f1 + f2) _ _ _ Hf1) by lia.
    rewrite next_char_cons by done. cbn [Z.eqb Pos.eqb].
    rewrite (elements_lift _ _ _ _ _ _ Hf2) by lia. cbn [rev]. by rewrite <- app_assoc.
Qed.

Lemma members_open (f : nat) (k tx rest : jstr) (acc : list (jstr * json)) : str_ok k ->
  parse_members (S f) ((quote k ++ 58 :: tx) ++ rest) acc =
  match parse_value f (tx ++ rest) with
  | Parsed v r3 =>
      match next_char r3 with
      | Some (c, r4) =>
          if c =? 44 then parse_members f r4 ((k, v) :: acc)
          else if c =? 125 then Parsed (JObj (rev ((k, v) :: acc))) r4 else Invalid
      | None => Invalid
      end
  | e => e
  end.
Proof.
  intros Hk. unfold quote. rewrite <- app_comm_cons, <- !app_assoc. cbn [parse_members app].
  rewrite next_char_cons by done. cbn [negb Z.eqb Pos.eqb]. rewrite <- app_assoc. cbn [app].
  rewrite parse_string_quote by done.
  rewrite next_char_cons by done. done.
Qed.

Lemma parse_members_text (fs : list (jstr * json)) (ts : list jstr) (acc : list (jstr * json)) (r : jstr) :
  Forall (fun kv => str_ok (fst kv) /\ reads_back (snd kv)) fs ->
  omap (fun '(k, x) => option_map (fun t => quote k ++ 58 :: t) (json_text x)) fs = Some ts -> fs <> [] ->
  exists f, parse_members f (join_comma ts ++ 125 :: r) acc = Parsed (JObj (rev acc ++ fs)) r.
Proof.
  revert ts acc. induction fs as [|[k x] fs IH]; intros ts acc Hfs Ht Hne; [done|].
  apply Forall_cons in Hfs as [[Hk Hx] Hfs]. destruct (omap_cons _ _ _ _ Ht) as (tk & ts' & Htk & Hts & ->).
  change (option_map (fun t => quote k ++ 58 :: t) (json_text x) = Some tk) in Htk.
  destruct (json_text x) as [tx|] eqn:Etx; [|done].
  assert (tk = quote k ++ 58 :: tx) as -> by (unfold option_map in Htk; congruence).
  destruct fs as [|kv' fs'].
  - apply omap_nil in Hts as ->. destruct (Hx tx (125 :: r) Etx (stops_125 r)) as [f1 Hf1].
    exists (S f1). cbn [join_comma]. rewrite members_open, Hf1 by done. done.
  - destruct (omap_cons _ _ _ _ Hts) as (t2 & ts'' & _ & _ & ->).
    destruct (Hx tx (44 :: join_comma (t2 :: ts'') ++ 125 :: r) Etx (stops_44 _)) as [f1 Hf1].
    destruct (IH (t2 :: ts'') ((k, x) :: acc) Hfs Hts ltac:(done)) as [f2 Hf2].
    exists (S (f1 + f2)).
    replace (join_comma ((quote k ++ 58 :: tx) :: t2 :: ts'') ++ 125 :: r)
      with ((quote k ++ 58 :: tx) ++ 44 :: join_comma (t2 :: ts'') ++ 125 :: r)
      by (cbn [join_comma]; by rewrite <- !app_assoc).
    rewrite members_open by done. rewrite (value_lift _ (f1 + f2) _ _ _ Hf1) by lia.
    rewrite next_char_cons by done. cbn [Z.eqb Pos.eqb].
    rewrite (members_lift _ _ _ _ _ _ Hf2) by lia. cbn [rev]. by rewrite <- app_assoc.
Qed.

Lemma join_comma_head (c : Z) (t : jstr) (ts : list jstr) (x : jstr) :
  exists y, join_comma ((c :: t) :: ts) ++ x = c :: y.
Proof. destruct ts; cbn [join_comma app]; eauto. Qed.

Lemma reads_back_ok (v : json) : json_ok v -> reads_back v.
Proof.
  induction v as [|b|x|s|l IH|fs IH] using json_ind'; intros Hok.
  - intros t r Ht _. injection Ht as <-. by exists 1%nat.
  - intros t r Ht _. destruct b; injection Ht as <-; by exists 1%nat.
  - destruct Hok as (n & Hn & ->). by apply reads_back_num.
  - by apply reads_back_str.
  - apply json_ok_arr in Hok. intros t r Ht Hr. cbn [json_text] in Ht.
    destruct (omap json_text l) as [ts|] eqn:Hts; [|done]. injection Ht as <-.
    destruct l as [|v l'].
    + exists 1%nat. by apply omap_nil in Hts as ->.
    + assert (Hl : Forall reads_back (v :: l')).
      { apply Forall_forall. intros y Hy. rewrite Forall_forall in IH, Hok. by apply IH, Hok. }
      destruct (parse_elements_text _ _ [] r Hl Hts ltac:(done)) as [f Hf].
      destruct (omap_cons _ _ _ _ Hts) as (t1 & ts' & Ht1 & _ & ->).
      destruct (json_text_head v t1 Ht1) as (c & t' & -> & Hw & H93 & _).
      exists (S f). rewrite <- app_comm_cons, <- app_assoc. cbn [parse_value app].
      rewrite next_char_cons by done. cbn [Z.eqb Pos.eqb].
      destruct (join_comma_head c t' ts' (93 :: r)) as [y Hy]. rewrite Hy in Hf |- *.
      by rewrite next_char_cons, (proj2 (Z.eqb_neq c 93)) by done.
  - apply json_ok_obj in Hok. intros t r Ht Hr. cbn [json_text] in Ht.
    destruct (omap _ fs) as [ts|] eqn:Hts; [|done]. injection Ht as <-.
    destruct fs as [|[k x] fs'].
    + exists 1%nat. by apply omap_nil in Hts as ->.
    + assert (Hl : Forall (fun kv => str_ok (fst kv) /\ reads_back (snd kv)) ((k, x) :: fs')).
      { apply Forall_forall. intros y Hy. rewrite Forall_forall in IH, Hok.
        split; [apply Hok|apply IH]; done || (apply Hok; done). }
      destruct (parse_members_text _ _ [] r Hl Hts ltac:(done)) as [f Hf].
      destruct (omap_cons _ _ _ _ Hts) as (t1 & ts' & Ht1 & _ & ->).
      change (option_map (fun t => quote k ++ 58 :: t) (json_text x) = Some t1) in Ht1.
      destruct (json_text x) as [tx|]; [|done].
      assert (t1 = quote k ++ 58 :: tx) as -> by (unfold option_map in Ht1; congruence).
      change (quote k ++ 58 :: tx) with (34 :: (flat_map quote_char k ++ [34]) ++ 58 :: tx) in *.
      exists (S f). rewrite <- app_comm_cons, <- app_assoc. cbn [parse_value app].
      rewrite next_char_cons by done. cbn [Z.eqb Pos.eqb].
      destruct (join_comma_head 34 ((flat_map quote_char k ++ [34]) ++ 58 :: tx) ts' (125 :: r)) as [y Hy].
      rewrite Hy in Hf |- *. by rewrite next_char_cons.
Qed.

Lemma omap_some {A B} (f : A -> option B) (l : list A) :
  Forall (fun a => exists b, f a = Some b) l -> exists bs, omap f l = Some bs.
Proof. induction 1 as [|a l [b Hb] _ [bs Hbs]]; [by exists []|]. exists (b :: bs). cbn. by rewrite Hb, Hbs. Qed.

Lemma json_text_ok (v : json) : json_ok v -> exists t, json_text v = Some t.
Proof.
  induction v as [|b|x|s|l IH|fs IH] using json_ind'; intros Hok; cbn [json_text].
  - eauto.
  - destruct b; eauto.
  - destruct Hok as (n & Hn & ->). rewrite number_text_of_Z by done. eauto.
  - eauto.
  - apply json_ok_arr in Hok. destruct (omap_some json_text l) as [ts ->]; [|eauto].
    apply Forall_forall. intros y Hy. rewrite Forall_forall in IH, Hok. by apply IH, Hok.
  - apply json_ok_obj in Hok. destruct (omap_some (fun '(k, x) => option_map (fun t => quote k ++ 58 :: t) (json_text x)) fs)
      as [ts ->]; [|eauto].
    apply Forall_forall. intros [k x] Hy. rewrite Forall_forall in IH, Hok.
    destruct (IH (k, x) Hy (proj2 (Hok (k, x) Hy))) as [t Ht]. simpl in Ht. rewrite Ht. eauto.
Qed.

(** The outcome reached with some fuel is the one [json_parse]'s fuel
    reaches. *)
Lemma parse_value_enough (f : nat) (s : jstr) (p : parsed) :
  parse_value f s = p -> p <> NoFuel -> parse_value (S (2 * length s)) s = p.
Proof.
  intros E Hp. subst p. destruct (Nat.le_ge_cases f (S (2 * length s))).
  - by apply (proj1 (parse_mono f)).
  - symmetry. apply (proj1 (parse_mono _)); [lia|]. apply (proj1 (parse_fuel _)). lia.
Qed.

(** [JSON.parse] terminates on every text: the fuel [json_parse]
    gives the descent (twice the length of the text, plus one) never
    runs out, and whatever outcome any amount of fuel reaches, a value
    or a syntax error, is the one [json_parse] reports. *)
Theorem json_parse_terminates (s : jstr) :
  parse_value (S (2 * length s)) s <> NoFuel /\
  (forall f, parse_value f s = Invalid -> json_parse s = None) /\
  (forall f v r, parse_value f s = Parsed v r -> json_parse s = if forallb json_ws r then Some v else None).
Proof.
  split; [apply (proj1 (parse_fuel _)); lia|]. unfold json_parse.
  split; intros * E; by rewrite (parse_value_enough _ _ _ E).
Qed.

(** C21: the round trip of the request body: every value whose strings
    are well formed and whose numbers are integers from [0] to
    [2^53 - 1] has a JSON text, the one [JSON.stringify] writes, and
    [JSON.parse] reads that text back as the same value. *)
Theorem json_parse_text (v : json) : json_ok v -> exists t, json_text v = Some t /\ json_parse t = Some v.
Proof.
  intros Hok. destruct (json_text_ok v Hok) as [t Ht]. exists t. split; [done|].
  destruct (reads_back_ok v Hok t [] Ht I) as [f Hf]. rewrite app_nil_r in Hf.
  unfold json_parse. by rewrite (parse_value_enough _ _ _ Hf).
Qed.

End Json.
