(* ===== verification/BodyParser.v ===== *)
(** * [express.json()]: the JSON body parser of [src/app.ts]

    [app.use(express.json())] (line 9) installs body-parser's JSON
    parser with its defaults: [limit = "100kb"], [strict = true],
    [type = "application/json"].  On a request it sets [req.body] to
    [{}], and then:
    - a request without a body (neither [Content-Length] nor
      [Transfer-Encoding]), or whose [Content-Type] is not
      [application/json], passes on with that [{}];
    - the charset of the [Content-Type] (lower-cased, [utf-8] when
      absent) must start with [utf-], else 415;
    - a [Content-Length] above the limit is a 413;
    - a charset iconv-lite does not know is a 415;
    - the text is decoded; an empty text is [{}]; in strict mode the
      first character after JSON white space must be [{] or [[], else
      400; then [JSON.parse] ([Json.json_parse]), whose [SyntaxError]
      is a 400.
    The error goes to Express's final handler, which answers with its
    status.  A body is given here as its parsed [Content-Type] (the
    type/subtype lower-cased by the header parser, and the charset
    parameter), its length in bytes and its text as the charset decodes
    it; the decoding itself (iconv-lite) and [Content-Encoding] are not
    modelled. *)

From Stdlib Require Import ZArith.
From S2P Require Import Prelude JsString JsNumber Uri Items Json.

Module BodyParser.
Local Open Scope Z_scope.
Import JsString Items Json.

(** ** Requests bodies *)

(** A parsed [Content-Type]: the type/subtype and the charset
    parameter, if any. *)
Record media := mkMedia {
  mtype : jstr;
  mcharset : option jstr
}.

(** The body as [express.json()] finds it. *)
Inductive raw_body :=
  | NoBody
  | Body (ct : option media) (len : Z) (text : jstr).

(** [limit: "100kb"], in bytes. *)
Definition json_limit : Z := 102400.

Definition lower_ascii (c : Z) : Z := if (65 <=? c) && (c <=? 90) then c + 32 else c.

(** [getCharset(req) || "utf-8"], lower-cased. *)
Definition body_charset (ct : media) : jstr :=
  match mcharset ct with
  | Some cs => map lower_ascii cs
  | None => js "utf-8"
  end.

(** [charset.slice(0, 4) !== "utf-"] *)
Definition starts_utf (cs : jstr) : bool := bool_decide (take 4 cs = js "utf-").

(** iconv-lite's name of an encoding: lower case, a final [:dddd]
    removed, then everything but [0-9a-z]. *)
Definition is_alnum (c : Z) : bool := ((48 <=? c) && (c <=? 57)) || ((97 <=? c) && (c <=? 122)).

Definition strip_colon_digits (cs : jstr) : jstr :=
  match rev cs with
  | d4 :: d3 :: d2 :: d1 :: c :: r =>
      if (c =? 58) && forallb (fun d => (48 <=? d) && (d <=? 57)) [d1; d2; d3; d4] then rev r else cs
  | _ => cs
  end.

Definition iconv_name (cs : jstr) : jstr := filter is_alnum (strip_colon_digits (map lower_ascii cs)).

(** The encodings of iconv-lite whose names start with [utf]. *)
Definition utf_encodings : list jstr :=
  map js ["utf8"; "utf16le"; "utf16be"; "utf16"; "utf32le"; "utf32be"; "utf32"; "utf7"; "utf7imap"]%string.

Definition encoding_exists (cs : jstr) : bool := bool_decide (iconv_name cs ∈ utf_encodings).

(** [app.use(express.json())]: [Ok None] leaves [req.body] as [{}],
    [Ok (Some v)] sets it to [v], [Err c] ends the request with [c]. *)
Definition json_body (b : raw_body) : result Z (option json) :=
  match b with
  | NoBody | Body None _ _ => Ok None
  | Body (Some ct) len text =>
      if negb (bool_decide (mtype ct = js "application/json")) then Ok None else
      let cs := body_charset ct in
      if negb (starts_utf cs) then Err 415
      else if json_limit <? len then Err 413
      else if negb (encoding_exists cs) then Err 415
      else if bool_decide (text = []) then Ok (Some (JObj []))
      else
        match next_char text with
        | Some (c, _) =>
            if (c =? 123) || (c =? 91) then
              match json_parse text with
              | Some v => Ok (Some v)
              | None => Err 400
              end
            else Err 400
        | None => Err 400
        end
  end.

(** ** Lemmas *)

Lemma json_body_err (b : raw_body) (c : Z) : json_body b = Err c -> c = 400 \/ c = 413 \/ c = 415.
Proof. unfold json_body. repeat case_match; intros [=]; lia. Qed.

Lemma json_body_415 (ct : media) (len : Z) (text : jstr) :
  mtype ct = js "application/json" -> starts_utf (body_charset ct) = false -> json_body (Body (Some ct) len text) = Err 415.
Proof. intros Ht Hu. unfold json_body. cbv zeta. by rewrite bool_decide_true, Hu. Qed.

Lemma json_body_413 (ct : media) (len : Z) (text : jstr) :
  mtype ct = js "application/json" -> starts_utf (body_charset ct) = true -> json_limit < len ->
  json_body (Body (Some ct) len text) = Err 413.
Proof. intros Ht Hu Hl. unfold json_body. cbv zeta. by rewrite bool_decide_true, Hu, (proj2 (Z.ltb_lt _ _)). Qed.

(** The first character of a text decides the kind of the value it
    parses to. *)
Lemma parse_members_obj (f : nat) (s : jstr) (acc : list (jstr * json)) (v : json) (r : jstr) :
  parse_members f s acc = Parsed v r -> exists fs, v = JObj fs.
Proof.
  revert s acc. induction f as [|f IH]; intros s acc; [done|]. cbn [parse_members].
  repeat case_match; intros E; simplify_eq; eauto.
Qed.

Lemma parse_elements_arr (f : nat) (s : jstr) (acc : list json) (v : json) (r : jstr) :
  parse_elements f s acc = Parsed v r -> exists l, v = JArr l.
Proof.
  revert s acc. induction f as [|f IH]; intros s acc; [done|]. cbn [parse_elements].
  repeat case_match; intros E; simplify_eq; eauto.
Qed.

Lemma parse_scalar_kind (t r : jstr) (v : json) : parse_scalar t = Some (v, r) ->
  (forall fs, v <> JObj fs) /\ (forall l, v <> JArr l).
Proof. unfold parse_scalar. repeat case_match; intros E; simplify_eq; done. Qed.

Lemma parse_value_kind (f : nat) (s : jstr) (c : Z) (r : jstr) (v : json) (r' : jstr) :
  next_char s = Some (c, r) -> parse_value f s = Parsed v r' ->
  (c = 123 -> exists fs, v = JObj fs) /\ (c = 91 -> exists l, v = JArr l) /\
  (c <> 123 -> c <> 91 -> (forall fs, v <> JObj fs) /\ (forall l, v <> JArr l)).
Proof.
  intros Hc. destruct f as [|f]; [done|]. cbn [parse_value]. rewrite Hc.
  repeat case_match; intros E; simplify_eq;
    repeat match goal with
    | E : parse_members _ _ _ = Parsed _ _ |- _ => apply parse_members_obj in E
    | E : parse_elements _ _ _ = Parsed _ _ |- _ => apply parse_elements_arr in E
    | E : parse_scalar _ = Some _ |- _ => apply parse_scalar_kind in E
    | H : (_ =? _) = true |- _ => apply Z.eqb_eq in H
    | H : (_ =? _) = false |- _ => apply Z.eqb_neq in H
    end; naive_solver.
Qed.

Lemma json_parse_parsed (s : jstr) (v : json) : json_parse s = Some v -> exists f r, parse_value f s = Parsed v r.
Proof. unfold json_parse. case_match; [|done..]. case_match; intros [=]; subst; eauto. Qed.

Lemma json_parse_blank (s : jstr) : next_char s = None -> json_parse s = None.
Proof. intros E. unfold json_parse. cbn [parse_value]. by rewrite E. Qed.

(** C20: in strict mode the check of the first character is the check of
    the parsed value: a non-empty [application/json] body within the
    limit, in a charset iconv-lite decodes, becomes [req.body] exactly
    when [JSON.parse] reads it as an object or an array, and is a 400
    otherwise (not JSON, or a string, number, boolean or [null]). *)
Theorem json_body_strict (ct : media) (len : Z) (text : jstr) :
  mtype ct = js "application/json" -> starts_utf (body_charset ct) = true ->
  encoding_exists (body_charset ct) = true -> len <= json_limit -> text <> [] ->
  json_body (Body (Some ct) len text) =
    match json_parse text with
    | Some (JObj fs) => Ok (Some (JObj fs))
    | Some (JArr l) => Ok (Some (JArr l))
    | _ => Err 400
    end.
Proof.
  intros Ht Hu He Hl Hne. unfold json_body. cbv zeta. rewrite bool_decide_true by done.
  rewrite Hu, He, (proj2 (Z.ltb_ge _ _)), bool_decide_false by done. cbn [negb].
  destruct (next_char text) as [[c r]|] eqn:Hc; [|by rewrite json_parse_blank].
  destruct (json_parse text) as [v|] eqn:Hp; [|by destruct (_ || _)].
  destruct (json_parse_parsed _ _ Hp) as (f & r' & Hf).
  destruct (parse_value_kind _ _ _ _ _ _ Hc Hf) as (Ho & Ha & Hn).
  destruct (Z.eqb_spec c 123) as [->|H1]; [by destruct (Ho eq_refl) as [fs ->]|].
  destruct (Z.eqb_spec c 91) as [->|H2]; [by destruct (Ha eq_refl) as [l ->]|].
  destruct (Hn H1 H2) as [Hno Hna]. cbn [orb]. destruct v; try done; exfalso; [by eapply Hna|by eapply Hno].
Qed.

End BodyParser.
