(* ===== verification/Timestamp.v ===== *)
(** * The text of [CURRENT_TIMESTAMP]

    [db.ts] declares [created_at] and [updated_at] with [DEFAULT
    CURRENT_TIMESTAMP], and its trigger sets [updated_at =
    CURRENT_TIMESTAMP]; SQLite stores the text [YYYY-MM-DD HH:MM:SS] of
    the UTC time, and the handlers send it back as the strings of
    [Item] (lines 33-34).  The clock of [Storage] counts the seconds
    since 1970-01-01 00:00:00 UTC; [timestamp_text] is the text SQLite
    writes for it: the day splits into a proleptic Gregorian date
    ([civil]: years, then months, each a [unit_loop] that skips whole
    units while the days left fill one), the second of the day into
    hours, minutes and seconds, each printed with a fixed number of
    digits.  The loops' fuel is enough: a year has at least 365 days,
    so [z / 365 + 1] rounds of the year loop reach the year of the day
    [z], and 12 rounds of the month loop reach its month
    ([unit_loop_spec]).  [timestamp_order] shows that, up to the year
    9999, the order of the texts as JavaScript (and SQLite's BINARY
    collation) compares strings is the order of the times. *)

From Stdlib Require Import ZArith.
From S2P Require Import Prelude JsString JsNumber Storage.

Module Timestamp.
Local Open Scope Z_scope.
Import JsString Storage.

(** ** Calendar *)

Definition leap (y : Z) : bool := ((y mod 4 =? 0) && negb (y mod 100 =? 0)) || (y mod 400 =? 0).

Definition year_days (y : Z) : Z := if leap y then 366 else 365.

Definition month_days (y m : Z) : Z :=
  if m =? 2 then (if leap y then 29 else 28)
  else if (m =? 4) || (m =? 6) || (m =? 9) || (m =? 11) then 30 else 31.

Section Units.
Variable size : Z -> Z.

(** Skip whole units from unit [k] while the [d] days left fill one;
    returns the unit reached and the days left in it. *)
Fixpoint unit_loop (fuel : nat) (k d : Z) : Z * Z :=
  match fuel with
  | O => (k, d)
  | S f => if d <? size k then (k, d) else unit_loop f (k + 1) (d - size k)
  end.

(** The days of the [n] units from [k0] on. *)
Fixpoint units_days (k0 : Z) (n : nat) : Z :=
  match n with
  | O => 0
  | S n' => units_days k0 n' + size (k0 + Z.of_nat n')
  end.

(** The days from the start of unit [k0] to the start of unit [k]. *)
Definition before (k0 k : Z) : Z := units_days k0 (Z.to_nat (k - k0)).
End Units.

(** The year and the month of the day [z] counted from 1970-01-01, and
    the day of the month. *)
Definition civil (z : Z) : Z * Z * Z :=
  let '(y, dy) := unit_loop year_days (Z.to_nat (z / 365 + 1)) 1970 z in
  let '(m, dm) := unit_loop (month_days y) 12 1 dy in
  (y, m, dm + 1).

(** ** Text *)

Definition digits2 (n : Z) : jstr := [48 + n / 10; 48 + n mod 10].

Definition digits4 (n : Z) : jstr :=
  [48 + n / 1000; 48 + (n / 100) mod 10; 48 + (n / 10) mod 10; 48 + n mod 10].

(** The fields of the time [t]: year, month, day, hour, minute, second. *)
Definition fields (t : Z) : list Z :=
  let '(y, m, d) := civil (t / 86400) in
  let s := t mod 86400 in
  [y; m; d; s / 3600; (s / 60) mod 60; s mod 60].

(** The text of the fields: [YYYY-MM-DD HH:MM:SS]. *)
Definition render (f : list Z) : jstr :=
  match f with
  | [y; m; d; h; mi; s] =>
      digits4 y ++ [45] ++ digits2 m ++ [45] ++ digits2 d ++ [32] ++
      digits2 h ++ [58] ++ digits2 mi ++ [58] ++ digits2 s
  | _ => []
  end.

(** [CURRENT_TIMESTAMP] at [t] seconds after 1970-01-01 00:00:00 UTC. *)
Definition timestamp_text (t : Z) : jstr := render (fields t).

(** JavaScript's [a < b] on strings: code units in lexicographic order
    (also SQLite's BINARY collation on ASCII text). *)
Fixpoint str_lt (a b : jstr) : bool :=
  match a, b with
  | _, [] => false
  | [], _ :: _ => true
  | x :: a', y :: b' => (x <? y) || ((x =? y) && str_lt a' b')
  end.

(** 10000-01-01 00:00:00 UTC, where the year needs a fifth digit. *)
Definition max_time : Z := 253402300800.

(** ** The unit loop *)

Section UnitLemmas.
Variable size : Z -> Z.
Hypothesis size_pos : forall k, 1 <= size k.

Lemma before_refl (k0 : Z) : before size k0 k0 = 0.
Proof. unfold before. by rewrite Z.sub_diag. Qed.

Lemma before_succ (k0 k : Z) : k0 <= k -> before size k0 (k + 1) = before size k0 k + size k.
Proof.
  intros Hk. unfold before. replace (Z.to_nat (k + 1 - k0)) with (S (Z.to_nat (k - k0))) by lia.
  cbn [units_days]. do 2 f_equal. lia.
Qed.

Lemma before_mono (k0 k1 k2 : Z) : k0 <= k1 <= k2 -> before size k0 k1 <= before size k0 k2.
Proof.
  intros [H1 H2]. replace k2 with (k1 + Z.of_nat (Z.to_nat (k2 - k1))) by lia.
  induction (Z.to_nat (k2 - k1)) as [|n IH]; [rewrite Z.add_0_r; lia|].
  replace (k1 + Z.of_nat (S n)) with (k1 + Z.of_nat n + 1) by lia.
  rewrite before_succ by lia. pose proof (size_pos (k1 + Z.of_nat n)). lia.
Qed.

(** Days given as a unit and the days into it are ordered by the unit
    first. *)
Lemma position_lex (k0 k1 k2 e1 e2 : Z) :
  k0 <= k1 -> k0 <= k2 -> 0 <= e1 < size k1 -> 0 <= e2 < size k2 ->
  before size k0 k1 + e1 < before size k0 k2 + e2 -> k1 < k2 \/ (k1 = k2 /\ e1 < e2).
Proof.
  intros H1 H2 He1 He2 Hlt. destruct (Z.lt_total k1 k2) as [|[<-|Hgt]]; [by left|right; split; [done|lia]|].
  pose proof (before_mono k0 (k2 + 1) k1 ltac:(lia)). rewrite before_succ in * by lia. lia.
Qed.

(** With fuel for [f] units, the loop reaches the unit of the day [d]. *)
Lemma unit_loop_spec (f : nat) (k0 k d : Z) :
  k0 <= k -> 0 <= d < before size k0 (k + Z.of_nat f) - before size k0 k ->
  k <= fst (unit_loop size f k d) /\
  before size k0 (fst (unit_loop size f k d)) + snd (unit_loop size f k d) = before size k0 k + d /\
  0 <= snd (unit_loop size f k d) < size (fst (unit_loop size f k d)).
Proof.
  revert k d. induction f as [|f IH]; intros k d Hk Hd; [rewrite Z.add_0_r in Hd; lia|]. cbn [unit_loop].
  destruct (Z.ltb_spec d (size k)); [simpl; lia|].
  destruct (IH (k + 1) (d - size k)) as (H1 & H2 & H3); [lia| |].
  - replace (k + 1 + Z.of_nat f) with (k + Z.of_nat (S f)) by lia. rewrite before_succ by lia. lia.
  - split; [lia|]. split; [|done]. rewrite H2, before_succ by lia. lia.
Qed.

Lemma units_days_lower (c : Z) (k0 : Z) (n : nat) :
  (forall k, c <= size k) -> c * Z.of_nat n <= units_days size k0 n.
Proof. intros Hc. induction n as [|n IH]; cbn [units_days]; [lia|]. specialize (Hc (k0 + Z.of_nat n)). lia. Qed.
End UnitLemmas.

(** ** The calendar *)

Lemma year_days_bounds (y : Z) : 365 <= year_days y <= 366.
Proof. unfold year_days. destruct (leap y); lia. Qed.

Lemma year_days_pos (y : Z) : 1 <= year_days y.
Proof. pose proof (year_days_bounds y). lia. Qed.

Lemma month_days_pos (y m : Z) : 1 <= month_days y m.
Proof. unfold month_days. repeat case_match; lia. Qed.

(** The twelve months make the year. *)
Lemma months_of_year (y : Z) : before (month_days y) 1 13 = year_days y.
Proof. unfold before, year_days, month_days. cbn -[leap]. by destruct (leap y). Qed.

(** [civil z] is the year, month and day of the day [z >= 0]: [z] is
    the days of the years before, then of the months before, then the
    days before in the month. *)
Lemma civil_spec (z : Z) : 0 <= z ->
  exists y m d dy,
    civil z = (y, m, d) /\ 1970 <= y /\ before year_days 1970 y + dy = z /\ 0 <= dy < year_days y /\
    1 <= m /\ before (month_days y) 1 m + (d - 1) = dy /\ 0 <= d - 1 < month_days y m.
Proof.
  intros Hz. unfold civil.
  set (f := Z.to_nat (z / 365 + 1)).
  assert (z < before year_days 1970 (1970 + Z.of_nat f) - before year_days 1970 1970) as Hf.
  { rewrite before_refl. unfold before. replace (Z.to_nat (1970 + Z.of_nat f - 1970)) with f by lia.
    pose proof (units_days_lower year_days 365 1970 f (fun k => proj1 (year_days_bounds k))).
    unfold f in *. rewrite Z2Nat.id in * by (pose proof (Z.div_pos z 365); lia). Z.div_mod_to_equations. lia. }
  destruct (unit_loop_spec year_days f 1970 1970 z ltac:(lia) ltac:(lia)) as (Hy & Hpos & Hdy).
  destruct (unit_loop year_days f 1970 z) as [y dy]. simpl in Hy, Hpos, Hdy. rewrite before_refl in Hpos.
  destruct (unit_loop_spec (month_days y) 12 1 1 dy ltac:(lia)) as (Hm & Hmpos & Hdm).
  { change (1 + Z.of_nat 12) with 13. rewrite months_of_year, before_refl. lia. }
  destruct (unit_loop (month_days y) 12 1 dy) as [m dm]. simpl in Hm, Hmpos, Hdm. rewrite before_refl in Hmpos.
  exists y, m, (dm + 1), dy. repeat split; try lia.
Qed.

(** Later days have later dates, in the order year, month, day. *)
Lemma civil_lt (z1 z2 : Z) : 0 <= z1 < z2 ->
  match civil z1, civil z2 with
  | (y1, m1, d1), (y2, m2, d2) => y1 < y2 \/ (y1 = y2 /\ (m1 < m2 \/ (m1 = m2 /\ d1 < d2)))
  end.
Proof.
  intros Hz.
  destruct (civil_spec z1 ltac:(lia)) as (y1 & m1 & d1 & dy1 & -> & Hy1 & Hp1 & Hd1 & Hm1 & Hq1 & Hr1).
  destruct (civil_spec z2 ltac:(lia)) as (y2 & m2 & d2 & dy2 & -> & Hy2 & Hp2 & Hd2 & Hm2 & Hq2 & Hr2).
  assert (y1 < y2 \/ (y1 = y2 /\ dy1 < dy2)) as [Hy|[<- Hdy]]
    by (apply (position_lex year_days year_days_pos 1970); lia); [by left|].
  right. split; [done|].
  assert (m1 < m2 \/ (m1 = m2 /\ d1 - 1 < d2 - 1))
    by (apply (position_lex (month_days y1) (month_days_pos y1) 1); lia). lia.
Qed.

(** ** Fields and their text *)

(** Ranges of the fields of a time before the year 10000. *)
Definition fields_ok (f : list Z) : Prop :=
  match f with
  | [y; m; d; h; mi; s] => 0 <= y < 10000 /\ 0 <= m < 100 /\ 0 <= d < 100 /\ 0 <= h < 100 /\ 0 <= mi < 100 /\ 0 <= s < 100
  | _ => False
  end.

Lemma fields_ok_time (t : Z) : 0 <= t < max_time -> fields_ok (fields t).
Proof.
  intros Ht. unfold fields, max_time in *.
  destruct (civil_spec (t / 86400) ltac:(apply Z.div_pos; lia)) as (y & m & d & dy & -> & Hy & Hp & Hd & Hm & Hq & Hr).
  assert (before year_days 1970 10000 = 2932897) as H10000 by (vm_compute; reflexivity).
  assert (y < 10000).
  { destruct (Z.lt_ge_cases y 10000) as [|Hge]; [done|].
    pose proof (before_mono year_days year_days_pos 1970 10000 y ltac:(lia)) as Hb. rewrite H10000 in Hb.
    assert (t / 86400 < 2932897) by (apply Z.div_lt_upper_bound; lia). lia. }
  assert (month_days y m <= 31) by (unfold month_days; repeat case_match; lia).
  assert (m <= 12).
  { destruct (Z.le_gt_cases m 12) as [|Hgt]; [done|].
    pose proof (before_mono (month_days y) (month_days_pos y) 1 13 m ltac:(lia)). rewrite months_of_year in *. lia. }
  unfold fields_ok. pose proof (Z.mod_pos_bound t 86400 ltac:(lia)) as Hr86.
  set (r := t mod 86400) in *.
  assert (0 <= r / 3600 < 24) by (split; [apply Z.div_pos|apply Z.div_lt_upper_bound]; lia).
  pose proof (Z.mod_pos_bound (r / 60) 60 ltac:(lia)). pose proof (Z.mod_pos_bound r 60 ltac:(lia)).
  clear Hp Hq Hd. repeat split; lia.
Qed.

(** Later times have later fields, in lexicographic order. *)
Lemma fields_lt (t1 t2 : Z) : 0 <= t1 < t2 -> str_lt (fields t1) (fields t2) = true.
Proof.
  intros Ht. unfold fields.
  assert (0 <= t1 / 86400 <= t2 / 86400) by (split; [apply Z.div_pos|apply Z.div_le_mono]; lia).
  destruct (Z.eq_dec (t1 / 86400) (t2 / 86400)) as [Hq|Hq].
  - rewrite <- Hq. destruct (civil (t1 / 86400)) as [[y m] d].
    assert (t1 mod 86400 < t2 mod 86400) by (Z.div_mod_to_equations; lia).
    cbn [str_lt]. rewrite !Z.ltb_irrefl, !Z.eqb_refl. cbn [orb andb].
    zbool; try reflexivity; exfalso; Z.div_mod_to_equations; lia.
  - pose proof (civil_lt (t1 / 86400) (t2 / 86400) ltac:(lia)) as Hc.
    destruct (civil (t1 / 86400)) as [[y1 m1] d1], (civil (t2 / 86400)) as [[y2 m2] d2].
    cbn [str_lt]. zbool; try reflexivity; exfalso; lia.
Qed.

Lemma str_lt_irrefl (a : jstr) : str_lt a a = false.
Proof. induction a as [|x a IH]; [done|]. cbn [str_lt]. by rewrite Z.ltb_irrefl, Z.eqb_refl, IH. Qed.

Lemma str_lt_asym (a b : jstr) : str_lt a b = true -> str_lt b a = false.
Proof.
  revert b. induction a as [|x a IH]; intros [|y b]; cbn [str_lt]; try done.
  destruct (Z.ltb_spec x y), (Z.ltb_spec y x), (Z.eqb_spec x y), (Z.eqb_spec y x); cbn [orb andb];
    try lia; try done; auto.
Qed.

Lemma str_lt_sep (c : Z) (r1 r2 : jstr) : str_lt ([c] ++ r1) ([c] ++ r2) = str_lt r1 r2.
Proof. cbn [app str_lt]. by rewrite Z.ltb_irrefl, Z.eqb_refl. Qed.

Lemma str_lt_digits2 (a b : Z) (r1 r2 : jstr) : 0 <= a < 100 -> 0 <= b < 100 ->
  str_lt (digits2 a ++ r1) (digits2 b ++ r2) = (a <? b) || ((a =? b) && str_lt r1 r2).
Proof.
  intros Ha Hb. unfold digits2. cbn [app str_lt].
  zbool; try reflexivity; exfalso; Z.div_mod_to_equations; lia.
Qed.

Lemma str_lt_digits2_end (a b : Z) : 0 <= a < 100 -> 0 <= b < 100 -> str_lt (digits2 a) (digits2 b) = (a <? b).
Proof.
  intros Ha Hb. rewrite <- (app_nil_r (digits2 a)), <- (app_nil_r (digits2 b)), str_lt_digits2 by done.
  by destruct (a <? b), (a =? b).
Qed.

Lemma str_lt_digits4 (a b : Z) (r1 r2 : jstr) : 0 <= a < 10000 -> 0 <= b < 10000 ->
  str_lt (digits4 a ++ r1) (digits4 b ++ r2) = (a <? b) || ((a =? b) && str_lt r1 r2).
Proof.
  intros Ha Hb. unfold digits4. cbn [app str_lt].
  zbool; try reflexivity; exfalso; Z.div_mod_to_equations; lia.
Qed.

(** On fields in range, the text compares as the fields. *)
Lemma render_lt (f1 f2 : list Z) : fields_ok f1 -> fields_ok f2 -> str_lt (render f1) (render f2) = str_lt f1 f2.
Proof.
  destruct f1 as [|y1 [|m1 [|d1 [|h1 [|i1 [|s1 [|]]]]]]]; try done;
    destruct f2 as [|y2 [|m2 [|d2 [|h2 [|i2 [|s2 [|]]]]]]]; try done.
  intros (?&?&?&?&?&?) (?&?&?&?&?&?). unfold render.
  rewrite str_lt_digits4 by lia.
  repeat first [rewrite str_lt_sep | rewrite str_lt_digits2 by lia | rewrite str_lt_digits2_end by lia].
  cbn [str_lt]. by rewrite !andb_false_r, !orb_false_r.
Qed.

Lemma text_lt_of_lt (t1 t2 : Z) : 0 <= t1 -> t1 < t2 < max_time ->
  str_lt (timestamp_text t1) (timestamp_text t2) = true.
Proof.
  intros H1 H2. unfold timestamp_text. rewrite render_lt by (apply fields_ok_time; lia).
  apply fields_lt. lia.
Qed.

Lemma lt_of_text_lt (t1 t2 : Z) : 0 <= t1 < max_time -> 0 <= t2 < max_time ->
  str_lt (timestamp_text t1) (timestamp_text t2) = true -> t1 < t2.
Proof.
  intros H1 H2 Hlt. destruct (Z.lt_trichotomy t1 t2) as [|[->|Hgt]]; [done| |].
  - by rewrite str_lt_irrefl in Hlt.
  - by rewrite (str_lt_asym _ _ (text_lt_of_lt t2 t1 ltac:(lia) ltac:(lia))) in Hlt.
Qed.

(** C31: up to the year 9999, the texts SQLite writes for
    [CURRENT_TIMESTAMP] ([YYYY-MM-DD HH:MM:SS], UTC) are ordered as the
    times are: for clock values [t1] and [t2] from 1970 on, [t1 < t2]
    exactly when the text of [t1] is less than the text of [t2] as
    JavaScript (and SQLite's BINARY collation) compares strings. *)
Theorem timestamp_order (t1 t2 : Z) :
  0 <= t1 < max_time -> 0 <= t2 < max_time ->
  (t1 < t2 <-> str_lt (timestamp_text t1) (timestamp_text t2) = true).
Proof.
  intros H1 H2. split; [intros; apply text_lt_of_lt; lia|by apply lt_of_text_lt].
Qed.

End Timestamp.
