(* ===== verification/Server.v ===== *)
(** * The process of [src/app.ts]

    [app.ts] mounts the items router at [/api/items] and answers
    [GET /health] itself; [db.ts] runs its bootstrap when the process
    starts.  A route handler runs to completion before the next request
    is handled: better-sqlite3 is synchronous and no handler awaits, so
    the server is the sequence of its requests.  [serve] runs one request
    at a clock reading, [serve_all] a list of requests in order; [steps]
    is any sequence of requests and process restarts on the same
    database file.  Generic sections lift properties of the statements
    of any [ItemStore] to all handlers (invariants, simulations, status
    codes, read-only routes); the remaining theorems are invariants of
    the database across [steps] (well-formedness, ids never reused, the
    history of a row) and the port choice. *)

From Stdlib Require Import ZArith.
From S2P Require Import Prelude JsString JsNumber Like Storage Items.

Module Server.
Local Open Scope Z_scope.
Import JsString JsNumber Storage Items.

(** The routes of the application, with the inputs their handlers read. *)
Inductive route :=
  | Health
  | PostItems (body : option json)
  | ListItems (query : list (jstr * qval))
  | GetItem (param : jstr)
  | PatchItem (param : jstr) (body : option json)
  | DeleteItem (param : jstr).

Section Dispatch.
Context {S : Type} `{!ItemStore S}.

(** [app.get("/health", ...)] *)
Definition health : st sql_error S response := respond 200 RHealth.

Definition handle (r : route) : st sql_error S response :=
  match r with
  | Health => health
  | PostItems b => create_item b
  | ListItems q => list_items q
  | GetItem p => get_item p
  | PatchItem p b => update_item_handler p b
  | DeleteItem p => delete_item_handler p
  end.

(** One request, served when the clock reads [now]. *)
Definition serve (now : Z) (r : route) (s : S) : response * S := run (handle r) (store_tick now s).

(** Requests served one after the other, each to completion: the
    handlers never await, so the listener does not interleave them. *)
Fixpoint serve_all (reqs : list (Z * route)) (s : S) : list response * S :=
  match reqs with
  | [] => ([], s)
  | (now, r) :: reqs' =>
      let (resp, s1) := serve now r s in
      let (resps, s2) := serve_all reqs' s1 in
      (resp :: resps, s2)
  end.
End Dispatch.

(** [process.env.PORT ? Number(process.env.PORT) : 3000] *)
Definition listen_port (env : option jstr) : jsnum :=
  match env with
  | Some p => if js_truthy_str p then to_number_str p else of_Z 3000
  | None => of_Z 3000
  end.

(** Requests and restarts, from one database state to a later one. *)
Inductive steps : db -> db -> Prop :=
  | steps_refl s : steps s s
  | steps_serve s s' now r : steps (snd (serve now r s)) s' -> steps s s'
  | steps_restart s s' : steps (bootstrap s) s' -> steps s s'.

(** The states of the database file: created empty, then changed by
    requests and restarts. *)
Definition reachable (s : db) : Prop := exists now, steps (bootstrap (empty_db now)) s.

(** The id [k] has been handed out and no row carries it. *)
Definition retired (k : Z) (s : db) : Prop :=
  wf s /\ k <= seq s /\ Forall (fun i => i <> k) (map id (rows s)).

(** The row [k] was created at [c] and last updated no earlier than [u]. *)
Definition history (k c u : Z) (s : db) : Prop :=
  wf s /\ k <= seq s /\ Forall (fun r => id r = k -> created_at r = c /\ u <= updated_at r) (rows s).

(** The status codes the API table of the specification lists for each
    route, and the 500 of a statement that fails. *)
Definition allowed_status (r : route) : list Z :=
  match r with
  | Health => [200]
  | PostItems _ => [201; 400; 500]
  | ListItems _ => [200; 500]
  | GetItem _ => [200; 400; 404; 500]
  | PatchItem _ _ => [200; 400; 404; 500]
  | DeleteItem _ => [204; 400; 404; 500]
  end.

(** The routes that only read the table. *)
Definition is_read (r : route) : bool :=
  match r with Health | ListItems _ | GetItem _ => true | _ => false end.

(** ** Invariants of all handlers *)

Section HandlerInvariant.
Context {S : Type} `{!ItemStore S}.
Variable P : S -> Prop.
Hypothesis P_insert : forall t d, st_preserves P (stmt_insert t d).
Hypothesis P_select : forall x, st_preserves P (stmt_select x).
Hypothesis P_update : forall t d x, st_preserves P (stmt_update t d x).
Hypothesis P_delete : forall x, st_preserves P (stmt_delete x).
Hypothesis P_page : forall p l o, st_preserves P (stmt_page p l o).

Local Hint Resolve P_insert P_select P_update P_delete P_page : crud.

Lemma respond_preserves (code : Z) (r : reply) : st_preserves P (respond code r).
Proof. apply st_preserves_ret. Qed.
Local Hint Resolve respond_preserves : crud.

Ltac preserves :=
  repeat first [ apply st_preserves_bind; [solve [eauto with crud]|intros ?]
               | case_match
               | solve [eauto with crud] ].

Lemma handle_preserves (r : route) : st_preserves P (handle r).
Proof.
  destruct r; simpl;
    unfold health, create_item, list_items, get_item, update_item_handler, delete_item_handler;
    preserves.
Qed.

Lemma run_handle_preserves (r : route) (s : S) : P s -> P (snd (run (handle r) s)).
Proof.
  intros HP. pose proof (handle_preserves r s HP) as H. unfold run.
  by destruct (handle r s) as [[]].
Qed.
End HandlerInvariant.

(** ** Simulation of all handlers

    The handlers only reach the store through [ItemStore]: two stores
    whose statements and clocks simulate each other under [R] serve
    every request, and every sequence of requests, with the same
    responses. *)

Section HandlerSimulation.
Context {S1 S2 : Type} `{!ItemStore S1} `{!ItemStore S2}.
Variable R : S1 -> S2 -> Prop.
Hypothesis R_insert : forall t d, st_sim R (stmt_insert t d) (stmt_insert t d).
Hypothesis R_select : forall x, st_sim R (stmt_select x) (stmt_select x).
Hypothesis R_update : forall t d x, st_sim R (stmt_update t d x) (stmt_update t d x).
Hypothesis R_delete : forall x, st_sim R (stmt_delete x) (stmt_delete x).
Hypothesis R_page : forall p l o, st_sim R (stmt_page p l o) (stmt_page p l o).
Hypothesis R_tick : forall now s1 s2, R s1 s2 -> R (store_tick now s1) (store_tick now s2).

Local Hint Resolve R_insert R_select R_update R_delete R_page : crud.

Lemma respond_sim (code : Z) (r : reply) : st_sim R (respond code r) (respond code r).
Proof. apply st_sim_ret. Qed.
Local Hint Resolve respond_sim : crud.

Lemma handle_sim (r : route) : st_sim R (handle r) (handle r).
Proof.
  destruct r; simpl;
    unfold health, create_item, list_items, get_item, update_item_handler, delete_item_handler;
    repeat first [ apply st_sim_bind; [solve [eauto with crud]|intros ?]
                 | case_match
                 | solve [eauto with crud] ].
Qed.

Lemma serve_sim (now : Z) (r : route) (s1 : S1) (s2 : S2) :
  R s1 s2 -> fst (serve now r s1) = fst (serve now r s2) /\ R (snd (serve now r s1)) (snd (serve now r s2)).
Proof.
  intros HR. unfold serve, run.
  destruct (handle_sim r _ _ (R_tick now _ _ HR)) as [Hr HR'].
  destruct (handle r (store_tick now s1)) as [[]], (handle r (store_tick now s2)) as [[]];
    simpl in *; simplify_eq; auto.
Qed.

Lemma serve_all_sim (reqs : list (Z * route)) (s1 : S1) (s2 : S2) :
  R s1 s2 ->
  fst (serve_all reqs s1) = fst (serve_all reqs s2) /\ R (snd (serve_all reqs s1)) (snd (serve_all reqs s2)).
Proof.
  revert s1 s2. induction reqs as [|[now r] reqs IH]; intros s1 s2 HR; [done|]. simpl.
  destruct (serve_sim now r s1 s2 HR) as [H1 HR1].
  destruct (serve now r s1) as [resp1 t1], (serve now r s2) as [resp2 t2]; simpl in *; subst.
  destruct (IH t1 t2 HR1) as [H2 HR2].
  destruct (serve_all reqs t1), (serve_all reqs t2); simpl in *; by subst.
Qed.
End HandlerSimulation.

Lemma bootstrap_empty_wf (now : Z) : wf (bootstrap (empty_db now)).
Proof. split; simpl; [done|done|constructor|constructor|unfold largest_int64; lia]. Qed.

Lemma bootstrap_wf (s : db) : wf s -> wf (bootstrap s).
Proof.
  intros Hwf. unfold bootstrap. simpl. rewrite (wf_items _ Hwf), (wf_trigger _ Hwf).
  split; simpl; try done; apply Hwf.
Qed.

Lemma serve_wf (now : Z) (r : route) (s : db) : wf s -> wf (snd (serve now r s)).
Proof.
  intros Hwf. apply (run_handle_preserves wf); eauto with crud.
Qed.

(** C10: every state of the database file satisfies the table
    invariant: ids strictly increase in rowid order, are positive and at
    most the AUTOINCREMENT counter, which stays a 64-bit rowid, and every
    row was created no later than its last update, itself no later than
    the clock. *)
Theorem reachable_wf (s : db) : reachable s -> wf s.
Proof.
  intros [now Hs]. remember (bootstrap (empty_db now)) as s0 eqn:E.
  assert (wf s0) as H0 by (subst; apply bootstrap_empty_wf). clear E.
  induction Hs; auto using serve_wf, bootstrap_wf.
Qed.

(** ** Ids are never reused *)

Section FreshIds.
Variable k : Z.

Lemma absent_ids (l : list item) :
  Forall (fun i => i <> k) (map id l) <-> Forall (fun r => id r <> k) l.
Proof. apply (Forall_map id (fun i => i <> k) l). Qed.

Lemma retired_insert (t d : jstr) : st_preserves (retired k) (insert_item t d).
Proof.
  intros s (Hwf & Hk & Hall). pose proof (insert_item_wf t d s Hwf) as Hwf'.
  destruct (Z.eq_dec (seq s) largest_int64) as [Heq|Hne]; [by rewrite insert_item_full|].
  rewrite insert_item_ok in * by (done || (pose proof (wf_seq _ Hwf); lia)). simpl in *.
  split; [done|]. cbn. split; [lia|]. rewrite map_app. apply Forall_app.
  split; [done|]. constructor; [simpl; lia|done].
Qed.

Lemma retired_update (t d : jstr) (x : jsnum) : st_preserves (retired k) (update_item t d x).
Proof.
  intros s (Hwf & Hk & Hall). split; [by apply update_item_wf|].
  rewrite update_item_ids. split; [|done].
  unfold update_item. destruct (negb (has_items s)); [done|]. by destruct (rowid_key x).
Qed.

Lemma retired_delete (x : jsnum) : st_preserves (retired k) (delete_item x).
Proof.
  intros s (Hwf & Hk & Hall). split; [by apply delete_item_wf|].
  split; [unfold delete_item; destruct (negb (has_items s)); [done|]; by destruct (rowid_key x)|].
  destruct (delete_item_rows x s) as (P & HP & [-> | ->]); [|done].
  apply absent_ids, Forall_filter_of, absent_ids, Hall.
Qed.

Lemma retired_select (x : jsnum) : st_preserves (retired k) (select_by_id x).
Proof. intros s Hs. by rewrite select_by_id_state. Qed.

Lemma retired_page (p : option jstr) (l o : jsnum) : st_preserves (retired k) (select_page p l o).
Proof. intros s Hs. by rewrite select_page_state. Qed.

Lemma retired_serve (now : Z) (r : route) (s : db) : retired k s -> retired k (snd (serve now r s)).
Proof.
  intros (Hwf & Hk & Hall). apply (run_handle_preserves (retired k));
    auto using retired_insert, retired_update, retired_delete, retired_select, retired_page.
  db_stmts. unfold tick. split; [by apply tick_wf|]. by destruct (clock s <=? now).
Qed.

Lemma retired_bootstrap (s : db) : retired k s -> retired k (bootstrap s).
Proof.
  intros (Hwf & Hk & Hall). split; [by apply bootstrap_wf|].
  unfold bootstrap. simpl. by rewrite (wf_items _ Hwf), (wf_trigger _ Hwf).
Qed.
End FreshIds.

(** C11: AUTOINCREMENT never hands an id out twice: an id that has been
    assigned ([k <= seq]) and that no row carries any more stays absent
    through every later sequence of requests and restarts. *)
Theorem deleted_id_never_reused (s s' : db) (k : Z) :
  wf s -> steps s s' -> k <= seq s -> Forall (fun r => id r <> k) (rows s) ->
  Forall (fun r => id r <> k) (rows s').
Proof.
  intros Hwf Hsteps Hk Hall.
  assert (retired k s) as Hr by (split; [done|]; split; [done|]; by apply absent_ids).
  clear Hwf Hk Hall. induction Hsteps as [s|s s' now r _ IH|s s' _ IH].
  - destruct Hr as (_ & _ & H). by apply absent_ids.
  - apply IH, retired_serve, Hr.
  - apply IH, retired_bootstrap, Hr.
Qed.

(** ** The history of a row *)

Section RowHistory.
Variables k c u : Z.

Lemma history_insert (t d : jstr) : st_preserves (history k c u) (insert_item t d).
Proof.
  intros s (Hwf & Hk & Hall). pose proof (insert_item_wf t d s Hwf) as Hwf'.
  destruct (Z.eq_dec (seq s) largest_int64) as [Heq|Hne]; [by rewrite insert_item_full|].
  rewrite insert_item_ok in * by (done || (pose proof (wf_seq _ Hwf); lia)). simpl in *.
  split; [done|]. cbn. split; [lia|]. apply Forall_app. split; [done|].
  constructor; [simpl; lia|done].
Qed.

Lemma history_update (t d : jstr) (x : jsnum) : st_preserves (history k c u) (update_item t d x).
Proof.
  intros s (Hwf & Hk & Hall). split; [by apply update_item_wf|].
  split; [unfold update_item; destruct (negb (has_items s)); [done|]; by destruct (rowid_key x)|].
  eapply Forall_impl; [apply (update_item_history t d x s Hwf)|].
  intros r' (r & Hr & Hid & Hc & Hu) Hk'. rewrite Forall_forall in Hall.
  destruct (Hall r Hr) as [Hc' Hu']; [congruence|]. split; lia.
Qed.

Lemma history_delete (x : jsnum) : st_preserves (history k c u) (delete_item x).
Proof.
  intros s (Hwf & Hk & Hall). split; [by apply delete_item_wf|].
  split; [unfold delete_item; destruct (negb (has_items s)); [done|]; by destruct (rowid_key x)|].
  destruct (delete_item_rows x s) as (P & HP & [-> | ->]); [|done].
  by apply Forall_filter_of.
Qed.

Lemma history_serve (now : Z) (r : route) (s : db) :
  history k c u s -> history k c u (snd (serve now r s)).
Proof.
  intros (Hwf & Hk & Hall). apply (run_handle_preserves (history k c u));
    auto using history_insert, history_update, history_delete.
  - intros x s' Hs. by rewrite select_by_id_state.
  - intros p l o s' Hs. by rewrite select_page_state.
  - db_stmts. unfold tick. split; [by apply tick_wf|]. by destruct (clock s <=? now).
Qed.

Lemma history_bootstrap (s : db) : history k c u s -> history k c u (bootstrap s).
Proof.
  intros (Hwf & Hk & Hall). split; [by apply bootstrap_wf|].
  unfold bootstrap. simpl. by rewrite (wf_items _ Hwf), (wf_trigger _ Hwf).
Qed.
End RowHistory.

(** C13: the history of a row: through any sequence of requests and
    restarts, a row that is still present (the same id: ids are never
    reused) keeps its creation time, and its last-update time never
    moves back. *)
Theorem row_history (s s' : db) (r r' : item) :
  wf s -> steps s s' -> r ∈ rows s -> r' ∈ rows s' -> id r' = id r ->
  created_at r' = created_at r /\ updated_at r <= updated_at r'.
Proof.
  intros Hwf Hsteps Hr Hr' Hid.
  assert (history (id r) (created_at r) (updated_at r) s) as Hh.
  { split; [done|]. pose proof (wf_rows _ Hwf) as Hrows. rewrite Forall_forall in Hrows.
    split; [destruct (Hrows r Hr); lia|]. apply Forall_forall. intros x Hx Hxid.
    rewrite (wf_unique s x r Hwf Hx Hr Hxid). split; lia. }
  clear Hwf Hr. induction Hsteps as [s|s s'' now q _ IH|s s'' _ IH].
  - destruct Hh as (_ & _ & Hall). rewrite Forall_forall in Hall. by apply Hall.
  - apply IH; [done|by apply history_serve].
  - apply IH; [done|by apply history_bootstrap].
Qed.

(** ** A created item can be read back *)

(** C14: on a well-formed database whose next id is a safe integer,
    [POST /api/items] with a non-blank title followed, at any later
    time, by [GET /api/items/<the new id>] answers 201 and then 200 with
    the same row, which carries the new id and the trimmed title. *)
Theorem create_then_get (s : db) (now1 now2 : Z) (b : option json) (t : jstr) :
  wf s -> safe_id (seq s + 1) ->
  get_field (js "title") (body_or_empty b) = Some (JStr t) -> trim t <> [] ->
  exists r, id r = seq s + 1 /\ title r = trim t /\
    fst (serve_all [(now1, PostItems b); (now2, GetItem (dec_string (seq s + 1)))] s) =
      [mkResponse 201 (RItem (Some r)); mkResponse 200 (RItem (Some r))].
Proof.
  intros Hwf Hsafe Ht Hne.
  set (s1 := tick now1 s). pose proof (tick_wf now1 s Hwf) as Hwf1.
  assert (Hseq : seq s1 = seq s) by (unfold s1, tick; by destruct (clock s <=? now1)).
  set (r := new_row s1 (trim t) (body_description b)).
  set (s2 := mkDb (wal s1) true true (rows s1 ++ [r]) (seq s1 + 1) (clock s1)).
  assert (Hpost : serve now1 (PostItems b) s = (mkResponse 201 (RItem (Some r)), s2)).
  { unfold serve. db_stmts. fold s1. simpl. unfold run, create_item. rewrite Ht, truthy_trim by done. simpl.
    unfold st_bind. rewrite insert_item_ok by (done || (unfold safe_id, largest_int64 in *; lia)).
    unfold select_by_id. simpl. rewrite Hseq, rowid_key_of_Z by done. rewrite <- Hseq.
    fold (body_description b). by rewrite find_row_new. }
  pose proof (serve_wf now1 (PostItems b) s Hwf) as Hwf2. rewrite Hpost in Hwf2. simpl in Hwf2.
  pose proof (tick_wf now2 s2 Hwf2) as Hwf3.
  assert (Hget : fst (serve now2 (GetItem (dec_string (seq s + 1))) s2) = mkResponse 200 (RItem (Some r))).
  { unfold serve. db_stmts. simpl. rewrite get_item_safe by done.
    replace (seq s + 1) with (id r) by (simpl; lia).
    rewrite find_row_sorted; [done|apply Hwf3|].
    unfold tick. destruct (clock s2 <=? now2); simpl; apply elem_of_app; right; by apply list_elem_of_singleton. }
  exists r. split; [simpl; lia|]. split; [done|].
  cbn [serve_all]. rewrite Hpost. destruct (serve now2 _ s2) as [resp2 s3]. simpl in *. by subst.
Qed.

(** ** Responses of every route, on any store *)

Section Responses.
Context {S : Type} `{!ItemStore S}.

Lemma handle_returns (r : route) : st_returns (fun resp => status resp ∈ allowed_status r) (handle r).
Proof.
  destruct r; simpl;
    unfold health, create_item, list_items, get_item, update_item_handler, delete_item_handler, respond;
    repeat first [ apply st_returns_bind; intros ?
                 | case_match
                 | apply st_returns_ret; apply list_elem_of_In; simpl; auto 6 ].
Qed.

Lemma run_handle_status (r : route) (s : S) : status (fst (run (handle r) s)) ∈ allowed_status r.
Proof.
  unfold run. destruct (handle r s) as [[resp|e] s'] eqn:E; simpl.
  - apply (handle_returns r s resp). by rewrite E.
  - destruct r; simpl; [|apply list_elem_of_In; simpl; auto 6..]. simpl in E. unfold health, respond, st_ret in E. congruence.
Qed.

(** C15: every response of every route has a status code the API table
    of the specification lists for that route, or 500 when a statement
    fails (never for [GET /health]); this holds on any store the
    handlers run on. *)
Theorem serve_status (now : Z) (r : route) (s : S) : status (fst (serve now r s)) ∈ allowed_status r.
Proof. apply run_handle_status. Qed.
End Responses.

Section Reads.
Context {S : Type} `{!ItemStore S} `{!ItemStoreLaws S}.

(** C37: [GET /health], [GET /api/items] and [GET /api/items/:id] never
    write: on any store whose SELECTs do not write, the store after the
    request is the store before it, with the clock moved. *)
Theorem reads_do_not_write (now : Z) (r : route) (s : S) :
  is_read r = true -> snd (serve now r s) = store_tick now s.
Proof.
  intros Hr. unfold serve, run. set (s0 := store_tick now s).
  assert (snd (handle r s0) = s0) as H.
  { destruct r; try discriminate; simpl; unfold health, list_items, get_item, respond, st_ret, st_bind.
    - done.
    - lazymatch goal with |- context [stmt_page ?p ?l ?o s0] => pose proof (page_pure p l o s0) as Hp end.
      destruct (stmt_page _ _ _ s0) as [[] ?]; simpl in *; by subst.
    - case_match; [done|].
      lazymatch goal with |- context [stmt_select ?x s0] => pose proof (select_pure x s0) as Hp end.
      destruct (stmt_select _ s0) as [[[]|] ?]; simpl in *; by subst. }
  destruct (handle r s0) as [[] ?]; simpl in *; by subst.
Qed.
End Reads.

(** C39: the port given to [app.listen]: without [PORT], or with an
    empty one, 3000; with the decimal text of any integer [n] from [0]
    to [2^53 - 1], the number [n] itself (also [0]: the text ["0"] is
    truthy, so it does not fall back to 3000); with a text holding a
    comma, such as ["8,080"], NaN, which [app.listen] rejects, instead
    of the default. *)
Theorem listen_port_spec (n : Z) (p : jstr) :
  listen_port None = of_Z 3000 /\ listen_port (Some []) = of_Z 3000 /\
  (0 <= n < 2 ^ 53 -> listen_port (Some (dec_string n)) = of_Z n) /\
  (44 ∈ p -> listen_port (Some p) = NaN).
Proof.
  split; [done|]. split; [done|]. unfold listen_port. split.
  - intros Hn. destruct (dec_string_spec n) as (ds & Hds & _ & _ & Hne); [lia|].
    rewrite <- (number_of_dec_string n) by lia. rewrite Hds. destruct ds; [congruence|reflexivity].
  - intros Hp. destruct p; [by apply elem_of_nil in Hp|]. by apply to_number_str_comma.
Qed.

End Server.
