(* ===== verification/Router.v ===== *)
(** * The Express application of [src/app.ts]

    [app.ts] stacks three middlewares, [cors()], [express.json()] and
    [morgan("dev")], then the route [GET /health] and the router of
    [routes/items.ts] mounted at [/api/items].  [app_route] is what this
    stack makes of a request: [cors()] answers every [OPTIONS] request
    itself (a preflight, 204); [express.json()] ([BodyParser.json_body])
    parses a JSON body or ends the request with 400, 413 or 415, for
    every path;
    the routes are matched on the undecoded path the way Express 4 does
    (path-to-regexp, case-insensitive, a trailing slash allowed, the
    mount prefix ending at a [/]); the parameter [:id] is decoded with
    [decodeURIComponent] (Express's [decode_param]), whose [URIError]
    becomes a 400 whatever the method.  A request no route takes ends in
    Express's final handler with 404.  [morgan] only logs and changes no
    response.  [app_serve] serves one request on a store of the
    interface [ItemStore], [app_serve_all] a sequence of them. *)

From Stdlib Require Import ZArith.
From S2P Require Import Prelude JsString JsNumber Uri Like Storage Items Server Json BodyParser.

Module Router.
Local Open Scope Z_scope.
Import JsString Uri Storage Items Server BodyParser.

(** ** Requests *)

Inductive method := GET | HEAD | POST | PUT | PATCH | DELETE | OPTIONS | OTHER.

#[export] Instance method_eq_dec : EqDecision method.
Proof. solve_decision. Defined.

Record request := mkRequest {
  rmethod : method;
  rpath : jstr;                    (* the path of the URL, undecoded *)
  rquery : list (jstr * qval);     (* req.query *)
  rbody : raw_body
}.

(** What the middlewares and the routes make of a request. *)
Inductive outcome :=
  | Preflight                      (* cors() answers the OPTIONS request *)
  | Failed (code : Z)              (* an error or no route: the final handler *)
  | Dispatch (r : route).          (* a handler of the application runs *)

(** ** Middlewares *)

(** [app.use(cors())]: with [preflightContinue = false] an [OPTIONS]
    request is answered at once. *)
Definition cors_preflight (m : method) : bool := bool_decide (m = OPTIONS).

(** ** Path matching *)

(** The regular expressions of path-to-regexp carry the [i] flag: a
    letter matches both cases. *)
Definition upper (c : Z) : Z := if (97 <=? c) && (c <=? 122) then c - 32 else c.

(** The rest of [s] after the literal [p], compared without case. *)
Fixpoint strip_prefix_ci (p s : jstr) : option jstr :=
  match p, s with
  | [], _ => Some s
  | a :: p', c :: s' => if upper c =? upper a then strip_prefix_ci p' s' else None
  | _ :: _, [] => None
  end.

(** [^\/health\/?$]: the path of [app.get("/health", ...)]. *)
Definition health_path (p : jstr) : bool :=
  match strip_prefix_ci (js "/health") p with
  | Some [] => true
  | Some [c] => c =? 47
  | _ => false
  end.

(** [app.use("/api/items", itemsRouter)]: the prefix matches
    [^\/api\/items\/?(?=\/|$)]; Express strips the matched text and
    hands the router the rest, ["/"] when nothing is left. *)
Definition mount_rest (r : jstr) : option jstr :=
  match r with
  | [] => Some [47]
  | c :: r' =>
      if negb (c =? 47) then None else
      match r' with
      | [] => Some [47]
      | c' :: _ => if c' =? 47 then Some r' else Some r
      end
  end.

Definition strip_trailing_slash (r : jstr) : jstr :=
  match rev r with
  | c :: t => if c =? 47 then rev t else r
  | [] => r
  end.

(** [^\/(?:([^\/]+?))\/?$]: the path of the routes ["/:id"], and the
    raw value of [:id]. *)
Definition id_segment (sub : jstr) : option jstr :=
  match sub with
  | c :: r =>
      let seg := strip_trailing_slash r in
      if (c =? 47) && js_truthy_str seg && forallb (fun x => negb (x =? 47)) seg
      then Some seg else None
  | [] => None
  end.

(** The ["/:id"] routes, once [:id] is decoded to [p]. *)
Definition id_route (m : method) (p : jstr) (body : option json) : outcome :=
  match m with
  | GET | HEAD => Dispatch (GetItem p)
  | PATCH => Dispatch (PatchItem p body)
  | DELETE => Dispatch (DeleteItem p)
  | _ => Failed 404
  end.

(** A ["/:id"] layer on the raw segment: Express's [decode_param]
    decodes it first, and a [URIError] is a 400. *)
Definition param_route (m : method) (seg : jstr) (body : option json) : outcome :=
  match decode seg with
  | None => Failed 400
  | Some p => id_route m p body
  end.

(** [itemsRouter] on the path left by the mount: [post("/")],
    [get("/")], then [get], [patch] and [delete] on ["/:id"]; [HEAD] is
    served by the [GET] routes.  A [:id] that does not decode fails
    every ["/:id"] layer and the router ends with that 400. *)
Definition items_router (m : method) (sub : jstr) (q : list (jstr * qval)) (body : option json) : outcome :=
  if bool_decide (sub = [47]) then
    match m with
    | POST => Dispatch (PostItems body)
    | GET | HEAD => Dispatch (ListItems q)
    | _ => Failed 404
    end
  else
    match id_segment sub with
    | None => Failed 404
    | Some seg => param_route m seg body
    end.

(** The application: middlewares in the order of [app.use], then the
    health route, then the mounted router. *)
Definition app_route (req : request) : outcome :=
  if cors_preflight (rmethod req) then Preflight else
  match json_body (rbody req) with
  | Err code => Failed code
  | Ok body =>
      let m := rmethod req in
      if health_path (rpath req) && bool_decide (m = GET \/ m = HEAD) then Dispatch Health else
      match strip_prefix_ci (js "/api/items") (rpath req) with
      | None => Failed 404
      | Some r =>
          match mount_rest r with
          | None => Failed 404
          | Some sub => items_router m sub (rquery req) body
          end
      end
  end.

(** ** Serving *)

(** The status codes the application can answer with. *)
Definition app_statuses : list Z := [200; 201; 204; 400; 404; 413; 415; 500].

Section App.
Context {S : Type} `{!ItemStore S}.

(** The reply to a request: the preflight's empty 204, the page of the
    final handler, or the handler's reply. *)
Definition app_handle (req : request) : st sql_error S response :=
  match app_route req with
  | Preflight => respond 204 RNoContent
  | Failed code => respond code RServerError
  | Dispatch r => handle r
  end.

Definition app_serve (now : Z) (req : request) (s : S) : response * S :=
  run (app_handle req) (store_tick now s).

Fixpoint app_serve_all (reqs : list (Z * request)) (s : S) : list response * S :=
  match reqs with
  | [] => ([], s)
  | (now, req) :: reqs' =>
      let (resp, s1) := app_serve now req s in
      let (resps, s2) := app_serve_all reqs' s1 in
      (resp :: resps, s2)
  end.
End App.

(** ** Routing *)

Lemma strip_trailing_slash_solid (r : jstr) : Forall (fun x => x <> 47) r -> strip_trailing_slash r = r.
Proof.
  intros Hr. unfold strip_trailing_slash. destruct (rev r) as [|c t] eqn:E; [done|].
  assert (In c r) as Hc by (apply in_rev; rewrite E; left; done).
  rewrite List.Forall_forall in Hr. destruct (Z.eqb_spec c 47); [|done]. by apply Hr in Hc.
Qed.

Lemma forallb_solid (r : jstr) : Forall (fun x => x <> 47) r -> forallb (fun x => negb (x =? 47)) r = true.
Proof. intros Hr. apply forallb_forall. intros x Hx%list_elem_of_In. rewrite Forall_forall in Hr. by apply negb_true_iff, Z.eqb_neq, Hr. Qed.

(** A segment without [/] after the mount is the parameter [:id]. *)
Lemma items_router_segment (m : method) (seg : jstr) (q : list (jstr * qval)) (body : option json) :
  seg <> [] -> Forall (fun x => x <> 47) seg ->
  items_router m (47 :: seg) q body = param_route m seg body.
Proof.
  intros Hne Hs. unfold items_router. rewrite bool_decide_false by (intros [=]; done).
  unfold id_segment. rewrite strip_trailing_slash_solid, forallb_solid by done.
  by destruct seg.
Qed.

Lemma app_route_item (m : method) (seg : jstr) (q : list (jstr * qval)) (b : raw_body) (body : option json) :
  m <> OPTIONS -> json_body b = Ok body -> seg <> [] -> Forall (fun x => x <> 47) seg ->
  app_route (mkRequest m (js "/api/items/" ++ seg) q b) = param_route m seg body.
Proof.
  intros Hm Hb Hne Hs. unfold app_route, cors_preflight. cbn [rmethod rbody rpath rquery].
  rewrite bool_decide_false, Hb by done.
  change (health_path (js "/api/items/" ++ seg)) with false. cbn [andb].
  change (strip_prefix_ci (js "/api/items") (js "/api/items/" ++ seg)) with (Some (47 :: seg)).
  destruct seg as [|c seg']; [done|]. inversion Hs as [|? ? Hc _]; subst.
  unfold mount_rest. cbn [negb Z.eqb Pos.eqb]. destruct (Z.eqb_spec c 47); [done|].
  by apply items_router_segment.
Qed.

(** ** Serving *)

Section AppServe.
Context {S : Type} `{!ItemStore S}.

Lemma app_serve_dispatch (now : Z) (req : request) (r : route) (s : S) :
  app_route req = Dispatch r -> app_serve now req s = serve now r s.
Proof. intros E. unfold app_serve, app_handle, serve. by rewrite E. Qed.

Lemma app_serve_failed (now : Z) (req : request) (code : Z) (s : S) :
  app_route req = Failed code -> app_serve now req s = (mkResponse code RServerError, store_tick now s).
Proof. intros E. unfold app_serve, app_handle. by rewrite E. Qed.

Lemma app_route_failed (req : request) (code : Z) :
  app_route req = Failed code -> code = 400 \/ code = 404 \/ code = 413 \/ code = 415.
Proof.
  unfold app_route, items_router, param_route, id_route.
  repeat case_match; intros [=]; subst; try lia.
  match goal with H : json_body _ = Err _ |- _ => apply json_body_err in H end. lia.
Qed.

Lemma app_serve_body_err (now : Z) (req : request) (code : Z) (s : S) :
  rmethod req <> OPTIONS -> json_body (rbody req) = Err code ->
  app_serve now req s = (mkResponse code RServerError, store_tick now s).
Proof. intros Hm Hb. apply app_serve_failed. unfold app_route, cors_preflight. by rewrite bool_decide_false, Hb. Qed.

Lemma allowed_app_status (r : route) (c : Z) : c ∈ allowed_status r -> c ∈ app_statuses.
Proof.
  unfold app_statuses. rewrite !list_elem_of_In.
  destruct r; simpl; intuition.
Qed.

Lemma app_serve_status (now : Z) (req : request) (s : S) : status (fst (app_serve now req s)) ∈ app_statuses.
Proof.
  destruct (app_route req) as [|code|r] eqn:E.
  - unfold app_serve, app_handle. rewrite E. apply list_elem_of_In. simpl. auto.
  - rewrite (app_serve_failed _ _ code) by done. destruct (app_route_failed _ _ E) as [->|[->|[->| ->]]];
      apply list_elem_of_In; simpl; auto 8.
  - rewrite (app_serve_dispatch _ _ r) by done. eapply allowed_app_status, run_handle_status.
Qed.

(** C18: the order of the middlewares decides the reply before any
    route, on every path (also one no route matches) and without
    touching the store: [cors()] answers every [OPTIONS] request with
    its empty 204 whatever its body; on any other request an error of
    [express.json()] ends the request with its status; for an
    [application/json] body that is a 415 when the charset is not a
    [utf-] one, and a 413 when the body is over 100kb, whatever its
    text, valid JSON or not. *)
Theorem middleware_first (now : Z) (req : request) (s : S) :
  (rmethod req = OPTIONS -> app_serve now req s = (mkResponse 204 RNoContent, store_tick now s)) /\
  (forall code, rmethod req <> OPTIONS -> json_body (rbody req) = Err code ->
     app_serve now req s = (mkResponse code RServerError, store_tick now s)) /\
  (forall ct len text, rmethod req <> OPTIONS -> rbody req = Body (Some ct) len text ->
     mtype ct = js "application/json" ->
     (starts_utf (body_charset ct) = false -> app_serve now req s = (mkResponse 415 RServerError, store_tick now s)) /\
     (starts_utf (body_charset ct) = true -> json_limit < len ->
        app_serve now req s = (mkResponse 413 RServerError, store_tick now s))).
Proof.
  split; [|split].
  - intros Hm. unfold app_serve, app_handle, app_route, cors_preflight. by rewrite Hm.
  - intros code. apply app_serve_body_err.
  - intros ct len text Hm Hb Ht. split; intros Hu; [|intros Hl];
      apply app_serve_body_err; rewrite ?Hb; auto using json_body_415, json_body_413.
Qed.

(** C19: a [:id] that [decodeURIComponent] rejects (a bad escape or an
    invalid UTF-8 sequence) is answered 400 by the final handler for
    every method but [OPTIONS], before any handler runs and without
    touching the store. *)
Theorem undecodable_id_rejected (now : Z) (m : method) (seg : jstr) (q : list (jstr * qval))
    (b : raw_body) (body : option json) (s : S) :
  m <> OPTIONS -> json_body b = Ok body -> seg <> [] -> Forall (fun x => x <> 47) seg -> decode seg = None ->
  app_serve now (mkRequest m (js "/api/items/" ++ seg) q b) s = (mkResponse 400 RServerError, store_tick now s).
Proof.
  intros Hm Hb Hne Hs Hd. apply app_serve_failed.
  rewrite (app_route_item _ _ _ _ body) by done. unfold param_route. by rewrite Hd.
Qed.
End AppServe.

(** C17: a client that writes the id into the path with
    [encodeURIComponent] reaches the handler of its method with that
    very id: for every non-empty well-formed string [s], a request on
    ["/api/items/" + encodeURIComponent(s)] whose body [express.json()]
    accepts is routed by [GET] and [HEAD] to the get handler, by
    [PATCH] to the update handler with the parsed body and by [DELETE]
    to the delete handler, each with [:id = s]. *)
Theorem id_path_encoded (s : jstr) (q : list (jstr * qval)) (b : raw_body) (body : option json) :
  json_body b = Ok body -> s <> [] -> Forall (fun c => scalar c = true) s ->
  let req m := mkRequest m (js "/api/items/" ++ encode s) q b in
  app_route (req GET) = Dispatch (GetItem s) /\ app_route (req HEAD) = Dispatch (GetItem s) /\
  app_route (req PATCH) = Dispatch (PatchItem s body) /\ app_route (req DELETE) = Dispatch (DeleteItem s).
Proof.
  intros Hb Hne Hs req. assert (encode s <> []) as He by (by intros ->%encode_nil).
  pose proof (encode_no_slash s Hs) as Hsl.
  assert (Hd : decode (encode s) = Some s)
    by exact (decodes_fun _ _ _ (decodes_decode (encode s)) (decodes_encode s Hs)).
  unfold req. rewrite !(app_route_item _ _ _ _ body) by done. unfold param_route. rewrite Hd.
  repeat split.
Qed.

(** Express matches paths without case and with an optional
    trailing slash, strips the mount prefix at a [/] only, and decodes
    [:id]: [/HEALTH/] is the health check, [/API/Items/] the list,
    [/api/items//5], [/api/items/5/] and [/api/items/%35] all name item
    ["5"], while [/api/itemsX] and [/api/items/5/6] match no route and
    [/api/items/%E0] is a bad request. *)
Theorem route_aliases :
  let get p := app_route (mkRequest GET (js p) [] NoBody) in
  get "/HEALTH/" = Dispatch Health /\ get "/API/Items/" = Dispatch (ListItems []) /\
  get "/api/items//5" = Dispatch (GetItem (js "5")) /\ get "/api/items/5/" = Dispatch (GetItem (js "5")) /\
  get "/api/items/%35" = Dispatch (GetItem (js "5")) /\ get "/api/itemsX" = Failed 404 /\
  get "/api/items/5/6" = Failed 404 /\ get "/api/items/%E0" = Failed 400.
Proof. vm_compute. repeat split. Qed.

(** ** The application on two simulating stores *)

Section AppSimulation.
Context {S1 S2 : Type} `{!ItemStore S1} `{!ItemStore S2}.
Variable R : S1 -> S2 -> Prop.
Hypothesis R_insert : forall t d, st_sim R (stmt_insert t d) (stmt_insert t d).
Hypothesis R_select : forall x, st_sim R (stmt_select x) (stmt_select x).
Hypothesis R_update : forall t d x, st_sim R (stmt_update t d x) (stmt_update t d x).
Hypothesis R_delete : forall x, st_sim R (stmt_delete x) (stmt_delete x).
Hypothesis R_page : forall p l o, st_sim R (stmt_page p l o) (stmt_page p l o).
Hypothesis R_tick : forall now s1 s2, R s1 s2 -> R (store_tick now s1) (store_tick now s2).

Lemma app_serve_sim (now : Z) (req : request) (s1 : S1) (s2 : S2) :
  R s1 s2 -> fst (app_serve now req s1) = fst (app_serve now req s2) /\ R (snd (app_serve now req s1)) (snd (app_serve now req s2)).
Proof.
  intros HR. destruct (app_route req) as [|code|r] eqn:E.
  - unfold app_serve, app_handle. rewrite E. simpl. auto.
  - rewrite !(app_serve_failed _ _ code) by done. simpl. auto.
  - rewrite !(app_serve_dispatch _ _ r) by done. by apply serve_sim.
Qed.

Lemma app_serve_all_sim (reqs : list (Z * request)) (s1 : S1) (s2 : S2) :
  R s1 s2 ->
  fst (app_serve_all reqs s1) = fst (app_serve_all reqs s2) /\ R (snd (app_serve_all reqs s1)) (snd (app_serve_all reqs s2)).
Proof.
  revert s1 s2. induction reqs as [|[now req] reqs IH]; intros s1 s2 HR; [done|]. simpl.
  destruct (app_serve_sim now req s1 s2 HR) as [H1 HR1].
  destruct (app_serve now req s1) as [resp1 t1], (app_serve now req s2) as [resp2 t2]; simpl in *; subst.
  destruct (IH t1 t2 HR1) as [H2 HR2].
  destruct (app_serve_all reqs t1), (app_serve_all reqs t2); simpl in *; by subst.
Qed.
End AppSimulation.

End Router.
