(* ===== verification/Table.v ===== *)
(** * The abstract item table, and the refinement of the store by it

    The specification's view of the storage: a finite map from ids to
    items, the AUTOINCREMENT counter and the clock ([table]).  Its
    statements are the contract the handlers rely on, stated on the map:
    INSERT adds the key [seq + 1] (or fails with SQLITE_FULL at the last
    64-bit rowid), SELECT looks a key up, UPDATE alters one entry and
    stamps it with the clock, DELETE removes one entry and reports
    whether it was there, and a page is read from the entries in
    decreasing id order.  [table_store] makes it an [ItemStore], so the
    handlers of [Items] and [Server] run on it unchanged.

    [abs_db] maps a database state to its table.  Every statement of
    [Storage] simulates the abstract one on well-formed states
    ([insert_refines] ... [tick_refines]); since the handlers are written
    against [ItemStore], [Router.app_serve_all_sim] lifts this to every
    sequence of HTTP requests ([app_serve_all_refines]). *)

From Stdlib Require Import ZArith.
From stdpp Require Import gmap sorting.
From S2P Require Import Prelude JsString JsNumber Like Storage Items Server Router.

Module Table.
Local Open Scope Z_scope.
Import JsString JsNumber Like Storage Items Server Router.

Record table := mkTable {
  tmap : gmap Z item;   (* id |-> row *)
  tseq : Z;             (* the AUTOINCREMENT counter *)
  tclock : Z            (* CURRENT_TIMESTAMP *)
}.

#[export] Instance id_le_dec : RelDecision (fun a b : item => id a <= id b) :=
  fun a b => decide (id a <= id b).

#[export] Instance id_le_trans : Transitive (fun a b : item => id a <= id b).
Proof. intros ???; lia. Qed.

#[export] Instance id_le_total : Total (fun a b : item => id a <= id b).
Proof. intros a b. lia. Qed.

(** The entries in increasing id order. *)
Definition t_rows (m : gmap Z item) : list item :=
  merge_sort (fun a b => id a <= id b) (snd <$> map_to_list m).

Definition t_insert (t d : jstr) : st sql_error table Z := fun a =>
  if largest_int64 <=? tseq a then (Err SQLITE_FULL, a) else
  let k := tseq a + 1 in
  (Ok k, mkTable (<[k := mkItem k t d (tclock a) (tclock a)]> (tmap a)) k (tclock a)).

Definition t_select (x : jsnum) : st sql_error table (option item) := fun a =>
  (Ok (match rowid_key x with Some k => tmap a !! k | None => None end), a).

Definition t_update (t d : jstr) (x : jsnum) : st sql_error table unit := fun a =>
  match rowid_key x with
  | Some k =>
      (Ok tt, mkTable (alter (fun r => mkItem (id r) t d (created_at r) (tclock a)) k (tmap a))
                      (tseq a) (tclock a))
  | None => (Ok tt, a)
  end.

Definition t_delete (x : jsnum) : st sql_error table Z := fun a =>
  match rowid_key x with
  | Some k =>
      (Ok (if decide (is_Some (tmap a !! k)) then 1 else 0), mkTable (delete k (tmap a)) (tseq a) (tclock a))
  | None => (Ok 0, a)
  end.

Definition t_page (pat : option jstr) (limit offset : jsnum) : st sql_error table (list item) := fun a =>
  match must_be_int limit, must_be_int offset with
  | Err e, _ | _, Err e => (Err e, a)
  | Ok lim, Ok off =>
      match pat with
      | None => (Ok (limit_offset lim off (rev (t_rows (tmap a)))), a)
      | Some p =>
          if (like_pattern_limit <? utf8_length p) && negb (bool_decide (tmap a = ∅))
          then (Err SQLITE_PATTERN_TOO_COMPLEX, a)
          else (Ok (limit_offset lim off (rev (filter (fun r => row_matches p r = true) (t_rows (tmap a))))), a)
      end
  end.

Definition t_tick (now : Z) (a : table) : table :=
  if tclock a <=? now then mkTable (tmap a) (tseq a) now else a.

#[export] Instance table_store : ItemStore table := {|
  stmt_insert := t_insert;
  stmt_select := t_select;
  stmt_update := t_update;
  stmt_delete := t_delete;
  stmt_page := t_page;
  store_tick := t_tick
|}.

#[export] Instance table_store_laws : ItemStoreLaws table.
Proof.
  split; [done|]. intros p l o a. unfold stmt_page; simpl. unfold t_page.
  destruct (must_be_int l), (must_be_int o), p; try case_match; done.
Qed.

(** ** Abstraction of the database *)

Fixpoint keyed (l : list item) : list (Z * item) :=
  match l with [] => [] | r :: l' => (id r, r) :: keyed l' end.

Definition abs_db (s : db) : table := mkTable (list_to_map (keyed (rows s))) (seq s) (clock s).

(** The database [s] implements the table [a]. *)
Definition refines (s : db) (a : table) : Prop := wf s /\ abs_db s = a.

(** ** The map of a list of rows *)

Lemma keyed_fst (l : list item) : (keyed l).*1 = id <$> l.
Proof. induction l as [|r l IH]; [done|]. cbn [keyed]. by rewrite !fmap_cons, IH. Qed.

Lemma keyed_snd (l : list item) : (keyed l).*2 = l.
Proof. induction l as [|r l IH]; [done|]. cbn [keyed]. by rewrite fmap_cons, IH. Qed.

Lemma keyed_app (l1 l2 : list item) : keyed (l1 ++ l2) = keyed l1 ++ keyed l2.
Proof. induction l1 as [|r l1 IH]; [done|]. simpl. by rewrite IH. Qed.

(** The first row with id [k] is the one the map keeps. *)
Lemma abs_lookup (k : Z) (l : list item) : (list_to_map (keyed l) : gmap Z item) !! k = find_row k l.
Proof.
  induction l as [|r l IH]; [done|]. cbn [keyed]. rewrite list_to_map_cons, lookup_insert.
  unfold find_row in *. simpl. case_decide as Hk; destruct (Z.eqb_spec (id r) k); congruence.
Qed.

Lemma abs_delete (k : Z) (l : list item) :
  (list_to_map (keyed (filter (fun r => id r <> k) l)) : gmap Z item) = delete k (list_to_map (keyed l)).
Proof.
  induction l as [|r l IH].
  { rewrite filter_nil. cbn [keyed]. by rewrite list_to_map_nil, delete_empty. }
  rewrite filter_cons. cbn [keyed].
  rewrite list_to_map_cons. case_decide as Hk.
  - cbn [keyed]. rewrite list_to_map_cons, IH, delete_insert_ne by congruence. done.
  - assert (id r = k) as <- by lia. by rewrite IH, delete_insert_eq.
Qed.

Lemma abs_alter (f : item -> item) (k : Z) (l : list item) :
  (forall r, id (f r) = id r) ->
  (list_to_map (keyed (map (fun r => if id r =? k then f r else r) l)) : gmap Z item) =
    alter f k (list_to_map (keyed l)).
Proof.
  intros Hf. induction l as [|r l IH]; cbn [map keyed]; [by rewrite list_to_map_nil, alter_empty|].
  rewrite !list_to_map_cons. destruct (Z.eqb_spec (id r) k) as [<-|Hne]; cbn [keyed].
  - by rewrite Hf, IH, insert_alter_eq, alter_insert_eq.
  - by rewrite IH, alter_insert_ne by congruence.
Qed.

Lemma abs_set_columns (k : Z) (t d : jstr) (l : list item) :
  (list_to_map (keyed (set_columns k t d l)) : gmap Z item) =
    alter (fun r => mkItem (id r) t d (created_at r) (updated_at r)) k (list_to_map (keyed l)).
Proof. unfold set_columns. by apply abs_alter. Qed.

Lemma abs_fire_trigger (k now : Z) (l : list item) :
  (list_to_map (keyed (fire_trigger k now l)) : gmap Z item) =
    alter (fun r => mkItem (id r) (title r) (description r) (created_at r) now) k (list_to_map (keyed l)).
Proof. unfold fire_trigger. by apply abs_alter. Qed.

Lemma abs_empty (l : list item) : (list_to_map (keyed l) : gmap Z item) = ∅ <-> l = [].
Proof.
  destruct l as [|r l]; [done|]. cbn [keyed]. rewrite list_to_map_cons.
  split; [|done]. intros H. by apply insert_non_empty in H.
Qed.

Lemma sorted_ids_nodup (l : list item) : StronglySorted (fun a b => id a < id b) l -> NoDup (id <$> l).
Proof.
  induction 1 as [|r l _ IH Hr]; simpl; constructor; [|done].
  intros (x & Hx & Hin)%list_elem_of_fmap. rewrite Forall_forall in Hr. specialize (Hr x Hin). lia.
Qed.

(** [ORDER BY id] on the map gives back the rows of a well-formed table. *)
Lemma abs_rows (s : db) : wf s -> t_rows (list_to_map (keyed (rows s))) = rows s.
Proof.
  intros Hwf. pose proof (wf_sorted _ Hwf) as Hs. unfold t_rows.
  assert (Hperm : snd <$> map_to_list (list_to_map (keyed (rows s)) : gmap Z item) ≡ₚ rows s).
  { rewrite map_to_list_to_map; [by rewrite keyed_snd|]. rewrite keyed_fst. by apply sorted_ids_nodup. }
  apply (StronglySorted_unique_strong (fun a b => id a <= id b)).
  - intros x y Hx Hy Hxy Hyx. rewrite merge_sort_Permutation, Hperm in Hx.
    apply (wf_unique s); [done..|lia].
  - apply StronglySorted_merge_sort; apply _.
  - eapply StronglySorted_weaken; [|exact Hs]. simpl. intros; lia.
  - by rewrite merge_sort_Permutation.
Qed.

(** Deleting by a unique key removes one row or none. *)
Lemma delete_count (k : Z) (l : list item) :
  StronglySorted (fun a b => id a < id b) l ->
  (length l - length (filter (fun r => id r <> k) l))%nat = match find_row k l with Some _ => 1%nat | None => 0%nat end.
Proof.
  induction 1 as [|r l Hl IH Hr]; [done|]. rewrite filter_cons. unfold find_row in *. simpl.
  destruct (Z.eqb_spec (id r) k) as [<-|Hne].
  - rewrite decide_False by auto. rewrite filter_all; [simpl; lia|].
    eapply Forall_impl; [exact Hr|]. simpl; intros; lia.
  - rewrite decide_True by done. simpl. done.
Qed.

(** ** Each statement refines its abstract counterpart *)

Lemma insert_refines (t d : jstr) : st_sim refines (insert_item t d) (t_insert t d).
Proof.
  intros s a [Hwf <-]. pose proof (insert_item_wf t d s Hwf) as Hwf'.
  pose proof (new_row_fresh s t d Hwf) as Hfresh.
  unfold insert_item, t_insert in *. rewrite (wf_items _ Hwf), (wf_last s Hwf) in *. simpl in *.
  destruct (largest_int64 <=? seq s); simpl; [done|].
  split; [done|]. split; [done|]. unfold abs_db. simpl. f_equal.
  rewrite keyed_app. cbn [keyed]. apply list_to_map_snoc.
  rewrite keyed_fst. intros (x & Hx & Hin)%list_elem_of_fmap.
  rewrite Forall_forall in Hfresh. specialize (Hfresh x Hin). simpl in *. lia.
Qed.

Lemma select_refines (x : jsnum) : st_sim refines (select_by_id x) (t_select x).
Proof.
  intros s a [Hwf <-]. unfold select_by_id, t_select. rewrite (wf_items _ Hwf). simpl.
  destruct (rowid_key x) as [k|]; simpl; [|done].
  split; [|done]. unfold abs_db. simpl. by rewrite abs_lookup.
Qed.

Lemma update_refines (t d : jstr) (x : jsnum) : st_sim refines (update_item t d x) (t_update t d x).
Proof.
  intros s a [Hwf <-]. pose proof (update_item_wf t d x s Hwf) as Hwf'.
  unfold update_item, t_update in *. rewrite (wf_items _ Hwf), (wf_trigger _ Hwf) in *. simpl in *.
  destruct (rowid_key x) as [k|]; simpl in *; [|done].
  split; [done|]. split; [done|]. unfold abs_db. simpl. f_equal.
  by rewrite abs_fire_trigger, abs_set_columns, alter_alter_eq.
Qed.

Lemma delete_refines (x : jsnum) : st_sim refines (delete_item x) (t_delete x).
Proof.
  intros s a [Hwf <-]. pose proof (delete_item_wf x s Hwf) as Hwf'.
  unfold delete_item, t_delete in *. rewrite (wf_items _ Hwf) in *. simpl in *.
  destruct (rowid_key x) as [k|]; simpl in *; [|done].
  split; [|split; [done|unfold abs_db; simpl; f_equal; apply abs_delete]].
  rewrite delete_count by apply Hwf. unfold abs_db. simpl. rewrite abs_lookup.
  destruct (find_row k (rows s)); [rewrite decide_True by by eexists|rewrite decide_False by by intros []]; done.
Qed.

Lemma page_refines (p : option jstr) (l o : jsnum) : st_sim refines (select_page p l o) (t_page p l o).
Proof.
  intros s a [Hwf <-]. unfold select_page, t_page, abs_db. rewrite (wf_items _ Hwf). simpl.
  rewrite abs_rows by done. rewrite (bool_decide_ext _ _ (abs_empty (rows s))).
  destruct (must_be_int l), (must_be_int o), p; try case_match; simpl; done.
Qed.

Lemma tick_refines (now : Z) (s : db) (a : table) : refines s a -> refines (tick now s) (t_tick now a).
Proof.
  intros [Hwf <-]. split; [by apply tick_wf|]. unfold tick, t_tick, abs_db. simpl.
  by destruct (clock s <=? now).
Qed.

(** ** The service refines the abstract table *)

(** Whatever a database refines, the application serves every sequence
    of requests on both with the same responses. *)
Lemma app_refines_from (reqs : list (Z * request)) (s : db) (a : table) :
  refines s a ->
  fst (app_serve_all reqs s) = fst (app_serve_all reqs a) /\
  refines (snd (app_serve_all reqs s)) (snd (app_serve_all reqs a)).
Proof.
  apply (app_serve_all_sim refines);
    auto using insert_refines, select_refines, update_refines, delete_refines, page_refines, tick_refines.
Qed.

(** C12: refinement of the whole service: on a well-formed database,
    every sequence of HTTP requests (through the middlewares, the
    routes and the handlers of [app.ts]) gets the same responses as the
    same requests served on the abstract table of the database, and the
    database it ends in is well-formed and implements the table the
    abstract run ends in. *)
Theorem app_serve_all_refines (reqs : list (Z * request)) (s : db) :
  wf s ->
  fst (app_serve_all reqs s) = fst (app_serve_all reqs (abs_db s)) /\
  refines (snd (app_serve_all reqs s)) (snd (app_serve_all reqs (abs_db s))).
Proof. intros Hwf. by apply app_refines_from. Qed.

Lemma abs_db_bootstrap (s : db) : wf s -> abs_db (bootstrap s) = abs_db s.
Proof.
  intros Hwf. unfold bootstrap. rewrite (wf_items _ Hwf), (wf_trigger _ Hwf). reflexivity.
Qed.

(** C29: restarts are invisible: on a well-formed database file, the
    bootstrap of [db.ts] run again (a process restart) leaves the
    abstract table as it was, so it changes none of the responses to any
    later sequence of requests. *)
Theorem restart_invisible (reqs : list (Z * request)) (s : db) :
  wf s -> abs_db (bootstrap s) = abs_db s /\ fst (app_serve_all reqs (bootstrap s)) = fst (app_serve_all reqs s).
Proof.
  intros Hwf. split; [by apply abs_db_bootstrap|].
  rewrite (proj1 (app_refines_from reqs _ _ (conj (bootstrap_wf s Hwf) eq_refl))).
  rewrite (proj1 (app_refines_from reqs _ _ (conj Hwf eq_refl))). by rewrite abs_db_bootstrap.
Qed.

End Table.
