(* ===== verification/Examples.v ===== *)
(** * The claims at concrete inputs

    A small table ([demo_db]: rows 1 and 2, id 3 deleted), request
    bodies and queries, and for every claim with hypotheses a closed
    instance whose hypotheses are discharged by evaluation.  The instance
    of C1 is the spec's example: [title: "  Buy milk  "] is stored as
    ["Buy milk"] with description [""]; [demo_reqs] is a create, read,
    update, delete and list sequence for the trace theorems. *)

From Stdlib Require Import ZArith.
From S2P Require Import Prelude JsString JsNumber Uri DbPath Like Storage Items Json BodyParser Timestamp Server Router Table.

Module Examples.
Local Open Scope Z_scope.
Import JsString JsNumber Uri DbPath Like Storage Items Json BodyParser Timestamp Server Router Table.

Definition demo_db : db :=
  mkDb true true true
    [mkItem 1 (js "Buy milk") [] 100 100; mkItem 2 (js "eggs") (js "MILK x") 100 160] 3 200.

Definition demo_body : option json := Some (JObj [(js "title", JStr (js "  Buy milk  "))]).

Definition blank_body : option json := Some (JObj [(js "title", JStr (js "   "))]).

Definition patch_body : option json :=
  Some (JObj [(js "title", JStr (js "   ")); (js "description", JStr [])]).

Definition page_query : list (jstr * qval) :=
  [(js "limit", QStr (js "500")); (js "offset", QStr (js "0"))].

Definition search_query : list (jstr * qval) := [(js "q", QStr (js " milk "))].

(** 12500 copies of U+1F600, four UTF-8 bytes each. *)
Definition long_text : jstr := replicate 12500 128512.

(** Create, read, update, delete and list, one after the other. *)
Definition demo_reqs : list (Z * route) :=
  [(300, PostItems demo_body); (301, GetItem (js "3")); (302, PatchItem (js "3") patch_body);
   (303, DeleteItem (js "1")); (304, ListItems page_query)].

(** A JSON text written with ['] for the quotation mark. *)
Definition jtext (s : string) : jstr := map (fun c => if c =? 39 then 34 else c) (js s).

Definition json_ct : media := mkMedia (js "application/json") None.

(** An [application/json] body of ASCII text, one byte per character. *)
Definition json_req (s : string) : raw_body := Body (Some json_ct) (Z.of_nat (String.length s)) (jtext s).

(** The same sequence as HTTP requests, then a preflight, a request no
    route takes and a body that is not JSON. *)
Definition demo_app_reqs : list (Z * request) :=
  [(300, mkRequest POST (js "/api/items") [] (json_req "{'title':'  Buy milk  '}"));
   (301, mkRequest GET (js "/api/items/3") [] NoBody);
   (302, mkRequest PATCH (js "/api/items/3/") [] (json_req "{'title':'   ', 'description':''}"));
   (303, mkRequest DELETE (js "/API/items/%31") [] NoBody);
   (304, mkRequest GET (js "/api/items") page_query NoBody);
   (305, mkRequest OPTIONS (js "/api/items/1") [] NoBody);
   (306, mkRequest GET (js "/api/nothing") [] NoBody);
   (307, mkRequest POST (js "/api/items") [] (json_req "{title"))].

(** A JSON body in Latin-1, and one over the 100kb limit. *)
Definition latin1_body : raw_body :=
  Body (Some (mkMedia (js "application/json") (Some (js "ISO-8859-1")))) 13 (jtext "{'title':'x'}").

Definition big_body : raw_body := Body (Some json_ct) 200000 (jtext "[]").

(** A value with an escaped quote, a line feed, a lone surrogate and a
    code point outside the BMP. *)
Definition odd_value : json :=
  JObj [(js "title", JStr [34; 10; 55357; 128512]); (js "n", JArr [JNum (of_Z 12); JNull; JBool true])].

(** é, / and x: a string [encodeURIComponent] escapes. *)
Definition odd_id : jstr := [233; 47; 120].

Definition big_db : db := mkDb true true true [mkItem (2 ^ 53) (js "old") [] 0 0] (2 ^ 53) 0.

Lemma demo_db_wf : wf demo_db.
Proof.
  split; simpl; try reflexivity.
  - repeat constructor; simpl; lia.
  - repeat constructor; simpl; lia.
  - unfold largest_int64; lia.
Qed.

Lemma big_db_wf : wf big_db.
Proof.
  split; simpl; try reflexivity.
  - repeat constructor.
  - repeat constructor; simpl; lia.
  - unfold largest_int64; lia.
Qed.

Lemma row1_in : mkItem 1 (js "Buy milk") [] 100 100 ∈ rows demo_db.
Proof. simpl. apply list_elem_of_here. Qed.

Lemma create_item_ok_witness :
  wf demo_db /\ safe_id (seq demo_db + 1) /\
  get_field (js "title") (body_or_empty demo_body) = Some (JStr (js "  Buy milk  ")) /\
  trim (js "  Buy milk  ") <> [] /\
  trim (js "  Buy milk  ") = js "Buy milk" /\ body_description demo_body = [] /\
  run (create_item demo_body) demo_db =
    (mkResponse 201 (RItem (Some (new_row demo_db (trim (js "  Buy milk  ")) (body_description demo_body)))),
     mkDb (wal demo_db) true true
       (rows demo_db ++ [new_row demo_db (trim (js "  Buy milk  ")) (body_description demo_body)])
       (seq demo_db + 1) (clock demo_db)).
Proof.
  split; [apply demo_db_wf|]. split; [split; simpl; lia|].
  split; [reflexivity|]. split; [vm_compute; discriminate|].
  split; [reflexivity|]. split; [reflexivity|].
  apply create_item_ok; [apply demo_db_wf|split; simpl; lia|reflexivity|vm_compute; discriminate].
Defined.

Lemma create_item_rejects_witness :
  (forall t, get_field (js "title") (body_or_empty blank_body) = Some (JStr t) -> trim t = []) /\
  run (create_item blank_body) demo_db = (mkResponse 400 (RError (js "title is required")), demo_db).
Proof.
  assert (H : forall t, get_field (js "title") (body_or_empty blank_body) = Some (JStr t) -> trim t = []).
  { intros t Ht. vm_compute in Ht. injection Ht as <-. reflexivity. }
  split; [exact H|]. apply create_item_rejects. exact H.
Defined.

Lemma get_item_spec_witness :
  wf demo_db /\ safe_id 2 /\ safe_id 3 /\
  ((forall r, r ∈ rows demo_db -> id r = 2 ->
      run (get_item (dec_string 2)) demo_db = (mkResponse 200 (RItem (Some r)), demo_db)) /\
   (Forall (fun r => id r <> 2) (rows demo_db) ->
      run (get_item (dec_string 2)) demo_db = (mkResponse 404 (RError (js "not found")), demo_db))) /\
  ((forall r, r ∈ rows demo_db -> id r = 3 ->
      run (get_item (dec_string 3)) demo_db = (mkResponse 200 (RItem (Some r)), demo_db)) /\
   (Forall (fun r => id r <> 3) (rows demo_db) ->
      run (get_item (dec_string 3)) demo_db = (mkResponse 404 (RError (js "not found")), demo_db))).
Proof.
  split; [apply demo_db_wf|]. split; [split; lia|]. split; [split; lia|].
  split; apply get_item_spec; [apply demo_db_wf|split; lia|apply demo_db_wf|split; lia].
Defined.

Lemma update_item_spec_witness :
  wf demo_db /\ mkItem 1 (js "Buy milk") [] 100 100 ∈ rows demo_db /\ 1 < 2 ^ 53 /\
  exists r',
    run (update_item_handler (dec_string 1) patch_body) demo_db =
      (mkResponse 200 (RItem (Some r')),
       mkDb (wal demo_db) true true (map (fun x => if id x =? 1 then r' else x) (rows demo_db))
            (seq demo_db) (clock demo_db)) /\
    id r' = 1 /\ created_at r' = 100 /\ updated_at r' = clock demo_db /\
    (forall t, get_field (js "title") (body_or_empty patch_body) = Some (JStr t) ->
       (trim t <> [] -> title r' = trim t) /\ (trim t = [] -> title r' = js "Buy milk")) /\
    ((forall t, get_field (js "title") (body_or_empty patch_body) <> Some (JStr t)) ->
       title r' = js "Buy milk") /\
    (forall d, get_field (js "description") (body_or_empty patch_body) = Some (JStr d) -> description r' = d) /\
    ((forall d, get_field (js "description") (body_or_empty patch_body) <> Some (JStr d)) ->
       description r' = []).
Proof.
  split; [apply demo_db_wf|]. split; [apply row1_in|]. split; [lia|].
  exact (update_item_spec demo_db (mkItem 1 (js "Buy milk") [] 100 100) patch_body
           demo_db_wf row1_in ltac:(simpl; lia)).
Defined.

Lemma delete_item_spec_witness :
  wf demo_db /\ safe_id 1 /\
  (forall r, r ∈ rows demo_db -> id r = 1 ->
     let s' := mkDb (wal demo_db) true true (filter (fun x => id x <> 1) (rows demo_db))
                    (seq demo_db) (clock demo_db) in
     run (delete_item_handler (dec_string 1)) demo_db = (mkResponse 204 RNoContent, s') /\
     fst (run (get_item (dec_string 1)) s') = mkResponse 404 (RError (js "not found"))) /\
  (Forall (fun r => id r <> 1) (rows demo_db) ->
     run (delete_item_handler (dec_string 1)) demo_db =
       (mkResponse 404 (RError (js "not found")), demo_db)).
Proof.
  split; [apply demo_db_wf|]. split; [split; lia|].
  apply delete_item_spec; [apply demo_db_wf|split; lia].
Defined.


Lemma list_pages_cover_witness :
  wf demo_db /\ 1 <= 1 <= 100 /\ (length (rows demo_db) <= 2 * Z.to_nat 1)%nat /\ Z.of_nat 2 * 1 < 2 ^ 53 /\
  concat (map (fun i => reply_rows (fst (run (list_items (paging_query 1 (Z.of_nat i * 1))) demo_db)))
              (List.seq 0 2)) = rev (rows demo_db).
Proof.
  split; [exact demo_db_wf|]. split; [lia|]. split; [simpl; lia|]. split; [lia|].
  apply list_pages_cover; [exact demo_db_wf|lia|simpl; lia|lia].
Defined.

Lemma list_search_wildcards_witness :
  wf demo_db /\
  run (list_items [(js "q", QStr [pct])]) demo_db =
    (mkResponse 200 (RPage (take 20 (rev (rows demo_db))) (of_Z 20) (of_Z 0)
                           (Z.of_nat (length (take 20 (rev (rows demo_db)))))), demo_db) /\
  let hits := filter (fun r => c_string (title r) <> [] \/ c_string (description r) <> []) (rows demo_db) in
  run (list_items [(js "q", QStr [usc])]) demo_db =
    (mkResponse 200 (RPage (take 20 (rev hits)) (of_Z 20) (of_Z 0) (Z.of_nat (length (take 20 (rev hits))))), demo_db).
Proof. split; [exact demo_db_wf|]. exact (list_search_wildcards demo_db demo_db_wf). Defined.

Lemma list_items_spec_witness :
  wf demo_db /\ 0 <= 500 < 2 ^ 53 /\ 0 <= 0 < 2 ^ 53 /\
  lookup_query (js "limit") page_query = Some (QStr (dec_string 500)) /\
  lookup_query (js "offset") page_query = Some (QStr (dec_string 0)) /\
  query_text page_query = [] /\ clamp_limit 500 = 100 /\
  exists page,
    run (list_items page_query) demo_db =
      (mkResponse 200 (RPage page (of_Z (clamp_limit 500)) (of_Z 0) (Z.of_nat (length page))), demo_db) /\
    page = take (Z.to_nat (clamp_limit 500)) (drop (Z.to_nat 0) (rev (rows demo_db))) /\
    (length page <= 100)%nat /\ StronglySorted (fun a b => id b < id a) page.
Proof.
  split; [apply demo_db_wf|]. split; [lia|]. split; [lia|].
  split; [reflexivity|]. split; [reflexivity|]. split; [reflexivity|]. split; [reflexivity|].
  apply list_items_spec; [apply demo_db_wf|lia|lia|reflexivity|reflexivity|reflexivity].
Defined.

Lemma list_items_search_witness :
  wf demo_db /\ query_text search_query = js "milk" /\ js "milk" <> [] /\ literal (js "milk") /\
  lookup_query (js "limit") search_query = None /\ lookup_query (js "offset") search_query = None /\
  utf8_length (contains_pattern (js "milk")) <= like_pattern_limit /\
  exists page,
    run (list_items search_query) demo_db =
      (mkResponse 200 (RPage page (of_Z 20) (of_Z 0) (Z.of_nat (length page))), demo_db) /\
    page = take 20 (rev (filter (fun r => row_matches (contains_pattern (js "milk")) r = true) (rows demo_db))) /\
    (forall r, row_matches (contains_pattern (js "milk")) r = true <->
       (exists a u b, c_string (title r) = a ++ u ++ b /\ matches_nocase (js "milk") u) \/
       (exists a u b, c_string (description r) = a ++ u ++ b /\ matches_nocase (js "milk") u)).
Proof.
  assert (Hlit : literal (js "milk")) by (repeat constructor; discriminate).
  split; [apply demo_db_wf|]. split; [reflexivity|]. split; [discriminate|]. split; [exact Hlit|].
  split; [reflexivity|]. split; [reflexivity|]. split; [vm_compute; discriminate|].
  apply list_items_search;
    [apply demo_db_wf|reflexivity|discriminate|exact Hlit|reflexivity|reflexivity|vm_compute; discriminate].
Defined.

Lemma reachable_wf_witness :
  reachable (snd (serve 100 (PostItems demo_body) (bootstrap (empty_db 0)))) /\
  wf (snd (serve 100 (PostItems demo_body) (bootstrap (empty_db 0)))).
Proof.
  assert (H : reachable (snd (serve 100 (PostItems demo_body) (bootstrap (empty_db 0))))).
  { exists 0. eapply steps_serve. apply steps_refl. }
  split; [exact H|]. exact (reachable_wf _ H).
Defined.

Lemma deleted_id_never_reused_witness :
  wf demo_db /\ steps demo_db (snd (serve 300 (PostItems demo_body) demo_db)) /\
  3 <= seq demo_db /\ Forall (fun r => id r <> 3) (rows demo_db) /\
  Forall (fun r => id r <> 3) (rows (snd (serve 300 (PostItems demo_body) demo_db))).
Proof.
  assert (Hs : steps demo_db (snd (serve 300 (PostItems demo_body) demo_db)))
    by (eapply steps_serve; apply steps_refl).
  assert (Hf : Forall (fun r => id r <> 3) (rows demo_db)) by (repeat constructor; simpl; lia).
  split; [apply demo_db_wf|]. split; [exact Hs|]. split; [simpl; lia|]. split; [exact Hf|].
  exact (deleted_id_never_reused demo_db _ 3 demo_db_wf Hs ltac:(simpl; lia) Hf).
Defined.

Lemma id_path_roundtrip_witness :
  safe_id 42 /\ invalid_id (to_number_str (dec_string 42)) = false /\
  rowid_key (to_number_str (dec_string 42)) = Some 42.
Proof. split; [split; lia|]. apply id_path_roundtrip. split; lia. Defined.

Lemma insert_item_bounds_witness :
  wf demo_db /\
  (seq demo_db < largest_int64 ->
     exists s', insert_item (js "tea") [] demo_db = (Ok (seq demo_db + 1), s') /\
                rows s' = rows demo_db ++ [new_row demo_db (js "tea") []] /\
                seq s' = seq demo_db + 1 /\ clock s' = clock demo_db) /\
  (seq demo_db = largest_int64 -> insert_item (js "tea") [] demo_db = (Err SQLITE_FULL, demo_db)).
Proof. split; [apply demo_db_wf|]. apply insert_item_bounds, demo_db_wf. Defined.

Lemma list_limit_zero_is_default_witness :
  wf demo_db /\
  run (list_items [(js "limit", QStr (js "0"))]) demo_db =
    (mkResponse 200 (RPage (take 20 (rev (rows demo_db))) (of_Z 20) (of_Z 0)
                           (Z.of_nat (length (take 20 (rev (rows demo_db)))))), demo_db).
Proof. split; [apply demo_db_wf|]. apply list_limit_zero_is_default, demo_db_wf. Defined.

Lemma list_fractional_limit_fails_witness :
  wf demo_db /\
  run (list_items [(js "limit", QStr (js "2.5"))]) demo_db = (mkResponse 500 RServerError, demo_db).
Proof. split; [apply demo_db_wf|]. apply list_fractional_limit_fails, demo_db_wf. Defined.

Lemma sql_like_underscore_query_witness :
  c_string (js "eggs") <> [] /\ sql_like (js "eggs") (contains_pattern [usc]) = true.
Proof. split; [discriminate|]. apply sql_like_underscore_query. discriminate. Defined.

Lemma list_pattern_too_long_witness :
  wf demo_db /\ query_text [(js "q", QStr long_text)] = long_text /\ long_text <> [] /\
  lookup_query (js "limit") [(js "q", QStr long_text)] = None /\
  lookup_query (js "offset") [(js "q", QStr long_text)] = None /\
  like_pattern_limit < utf8_length (contains_pattern long_text) /\
  (rows demo_db <> [] -> run (list_items [(js "q", QStr long_text)]) demo_db = (mkResponse 500 RServerError, demo_db)) /\
  (rows demo_db = [] ->
     run (list_items [(js "q", QStr long_text)]) demo_db = (mkResponse 200 (RPage [] (of_Z 20) (of_Z 0) 0), demo_db)).
Proof.
  assert (Ht : query_text [(js "q", QStr long_text)] = long_text)
    by (apply (bool_decide_eq_true_1 _); vm_compute; reflexivity).
  assert (Hne : long_text <> []) by (unfold long_text; simpl; discriminate).
  assert (Hlen : like_pattern_limit < utf8_length (contains_pattern long_text)) by (vm_compute; reflexivity).
  split; [apply demo_db_wf|]. split; [exact Ht|]. split; [exact Hne|].
  split; [reflexivity|]. split; [reflexivity|]. split; [exact Hlen|].
  exact (list_pattern_too_long demo_db _ long_text demo_db_wf Ht Hne eq_refl eq_refl Hlen).
Defined.

Lemma create_reply_past_2_53_witness :
  wf big_db /\ seq big_db = 2 ^ 53 /\ mkItem (2 ^ 53) (js "old") [] 0 0 ∈ rows big_db /\
  get_field (js "title") (body_or_empty demo_body) = Some (JStr (js "  Buy milk  ")) /\
  trim (js "  Buy milk  ") <> [] /\
  run (create_item demo_body) big_db =
    (mkResponse 201 (RItem (Some (mkItem (2 ^ 53) (js "old") [] 0 0))),
     mkDb (wal big_db) true true
       (rows big_db ++ [new_row big_db (trim (js "  Buy milk  ")) (body_description demo_body)])
       (seq big_db + 1) (clock big_db)).
Proof.
  assert (Hin : mkItem (2 ^ 53) (js "old") [] 0 0 ∈ rows big_db) by apply list_elem_of_here.
  split; [apply big_db_wf|]. split; [reflexivity|]. split; [exact Hin|].
  split; [reflexivity|]. split; [vm_compute; discriminate|].
  apply create_reply_past_2_53;
    [apply big_db_wf|reflexivity|exact Hin|reflexivity|reflexivity|vm_compute; discriminate].
Defined.

Lemma app_serve_all_refines_witness :
  wf demo_db /\
  fst (app_serve_all demo_app_reqs demo_db) = fst (app_serve_all demo_app_reqs (abs_db demo_db)) /\
  refines (snd (app_serve_all demo_app_reqs demo_db)) (snd (app_serve_all demo_app_reqs (abs_db demo_db))).
Proof. split; [apply demo_db_wf|]. apply app_serve_all_refines. apply demo_db_wf. Defined.

Lemma row_history_witness :
  wf demo_db /\ steps demo_db (snd (serve 300 (PatchItem (js "2") patch_body) demo_db)) /\
  mkItem 2 (js "eggs") (js "MILK x") 100 160 ∈ rows demo_db /\
  mkItem 2 (js "eggs") [] 100 300 ∈ rows (snd (serve 300 (PatchItem (js "2") patch_body) demo_db)) /\
  created_at (mkItem 2 (js "eggs") [] 100 300) = created_at (mkItem 2 (js "eggs") (js "MILK x") 100 160) /\
  updated_at (mkItem 2 (js "eggs") (js "MILK x") 100 160) <= updated_at (mkItem 2 (js "eggs") [] 100 300).
Proof.
  assert (Hs : steps demo_db (snd (serve 300 (PatchItem (js "2") patch_body) demo_db)))
    by (eapply steps_serve; apply steps_refl).
  assert (Hr : mkItem 2 (js "eggs") (js "MILK x") 100 160 ∈ rows demo_db)
    by (apply (bool_decide_eq_true_1 _); vm_compute; reflexivity).
  assert (Hr' : mkItem 2 (js "eggs") [] 100 300 ∈ rows (snd (serve 300 (PatchItem (js "2") patch_body) demo_db)))
    by (apply (bool_decide_eq_true_1 _); vm_compute; reflexivity).
  split; [apply demo_db_wf|]. split; [exact Hs|]. split; [exact Hr|]. split; [exact Hr'|].
  exact (row_history _ _ _ _ demo_db_wf Hs Hr Hr' eq_refl).
Defined.

Lemma reads_do_not_write_witness :
  is_read (GetItem (js "1")) = true /\
  snd (serve 300 (GetItem (js "1")) demo_db) = store_tick 300 demo_db.
Proof. split; [reflexivity|]. apply reads_do_not_write. reflexivity. Defined.

Lemma list_repeated_params_witness :
  wf demo_db /\
  lookup_query (js "q") [(js "q", QArr [js "milk"; js "eggs"]); (js "limit", QArr [js "5"; js "7"])] =
    Some (QArr [js "milk"; js "eggs"]) /\
  lookup_query (js "limit") [(js "q", QArr [js "milk"; js "eggs"]); (js "limit", QArr [js "5"; js "7"])] =
    Some (QArr [js "5"; js "7"]) /\
  (2 <= length [js "5"; js "7"])%nat /\
  lookup_query (js "offset") [(js "q", QArr [js "milk"; js "eggs"]); (js "limit", QArr [js "5"; js "7"])] = None /\
  run (list_items [(js "q", QArr [js "milk"; js "eggs"]); (js "limit", QArr [js "5"; js "7"])]) demo_db =
    (mkResponse 200 (RPage (take 20 (rev (rows demo_db))) (of_Z 20) (of_Z 0)
                           (Z.of_nat (length (take 20 (rev (rows demo_db)))))), demo_db).
Proof.
  split; [apply demo_db_wf|]. split; [reflexivity|]. split; [reflexivity|]. split; [simpl; lia|].
  split; [reflexivity|]. apply (list_repeated_params _ _ [js "milk"; js "eggs"] [js "5"; js "7"]);
    [apply demo_db_wf|reflexivity|reflexivity|simpl; lia|reflexivity].
Defined.

Lemma create_then_get_witness :
  wf demo_db /\ safe_id (seq demo_db + 1) /\
  get_field (js "title") (body_or_empty demo_body) = Some (JStr (js "  Buy milk  ")) /\
  trim (js "  Buy milk  ") <> [] /\
  exists r, id r = seq demo_db + 1 /\ title r = trim (js "  Buy milk  ") /\
    fst (serve_all [(300, PostItems demo_body); (400, GetItem (dec_string (seq demo_db + 1)))] demo_db) =
      [mkResponse 201 (RItem (Some r)); mkResponse 200 (RItem (Some r))].
Proof.
  split; [apply demo_db_wf|]. split; [split; simpl; lia|]. split; [reflexivity|].
  split; [vm_compute; discriminate|].
  apply create_then_get; [apply demo_db_wf|split; simpl; lia|reflexivity|vm_compute; discriminate].
Defined.

Lemma restart_invisible_witness :
  wf demo_db /\ abs_db (bootstrap demo_db) = abs_db demo_db /\
  fst (app_serve_all demo_app_reqs (bootstrap demo_db)) = fst (app_serve_all demo_app_reqs demo_db).
Proof. split; [apply demo_db_wf|]. apply restart_invisible, demo_db_wf. Defined.

Lemma decode_encode_witness :
  Forall (fun c => scalar c = true) odd_id /\ decode (encode odd_id) = Some odd_id.
Proof. split; [repeat constructor|]. apply decode_encode. repeat constructor. Defined.

Lemma id_path_encoded_witness :
  json_body NoBody = Ok None /\ odd_id <> [] /\ Forall (fun c => scalar c = true) odd_id /\
  app_route (mkRequest GET (js "/api/items/" ++ encode odd_id) [] NoBody) = Dispatch (GetItem odd_id) /\
  app_route (mkRequest HEAD (js "/api/items/" ++ encode odd_id) [] NoBody) = Dispatch (GetItem odd_id) /\
  app_route (mkRequest PATCH (js "/api/items/" ++ encode odd_id) [] NoBody) = Dispatch (PatchItem odd_id None) /\
  app_route (mkRequest DELETE (js "/api/items/" ++ encode odd_id) [] NoBody) = Dispatch (DeleteItem odd_id).
Proof.
  split; [reflexivity|]. split; [discriminate|]. split; [repeat constructor|].
  apply (id_path_encoded odd_id [] NoBody None); [reflexivity|discriminate|repeat constructor].
Defined.

Lemma undecodable_id_rejected_witness :
  DELETE <> OPTIONS /\ json_body NoBody = Ok None /\ js "%E0" <> [] /\
  Forall (fun x => x <> 47) (js "%E0") /\ decode (js "%E0") = None /\
  app_serve 400 (mkRequest DELETE (js "/api/items/" ++ js "%E0") [] NoBody) demo_db =
    (mkResponse 400 RServerError, store_tick 400 demo_db).
Proof.
  split; [discriminate|]. split; [reflexivity|]. split; [discriminate|].
  split; [vm_compute; repeat constructor; discriminate|]. split; [reflexivity|].
  apply undecodable_id_rejected with (body := None); [discriminate|reflexivity|discriminate|vm_compute; repeat constructor; discriminate|reflexivity].
Defined.

Lemma middleware_first_witness :
  app_serve 500 (mkRequest OPTIONS (js "/nowhere") [] (json_req "{x")) demo_db =
    (mkResponse 204 RNoContent, store_tick 500 demo_db) /\
  app_serve 500 (mkRequest POST (js "/nowhere") [] latin1_body) demo_db =
    (mkResponse 415 RServerError, store_tick 500 demo_db) /\
  app_serve 500 (mkRequest PUT (js "/api/items") [] big_body) demo_db =
    (mkResponse 413 RServerError, store_tick 500 demo_db).
Proof.
  split; [|split].
  - apply (proj1 (middleware_first 500 (mkRequest OPTIONS (js "/nowhere") [] (json_req "{x")) demo_db)).
    reflexivity.
  - apply (proj1 (proj2 (proj2 (middleware_first 500 (mkRequest POST (js "/nowhere") [] latin1_body) demo_db))
             _ 13 (jtext "{'title':'x'}") ltac:(discriminate) eq_refl eq_refl)).
    vm_compute. reflexivity.
  - apply (proj2 (proj2 (proj2 (middleware_first 500 (mkRequest PUT (js "/api/items") [] big_body) demo_db))
             json_ct 200000 (jtext "[]") ltac:(discriminate) eq_refl eq_refl)); [vm_compute; reflexivity|].
    unfold json_limit. lia.
Defined.

Lemma json_body_strict_witness :
  json_body (Body (Some json_ct) 3 (jtext " 5 ")) = Err 400 /\
  json_body (json_req " {'title':'a'} ") = Ok (Some (JObj [(js "title", JStr (js "a"))])).
Proof.
  split.
  - rewrite (json_body_strict json_ct 3 (jtext " 5 ")); [vm_compute; reflexivity|reflexivity|vm_compute; reflexivity|
      vm_compute; reflexivity|unfold json_limit; lia|discriminate].
  - unfold json_req. rewrite json_body_strict; [vm_compute; reflexivity|reflexivity|vm_compute; reflexivity|
      vm_compute; reflexivity|vm_compute; discriminate|discriminate].
Defined.

Lemma json_parse_text_witness :
  json_ok odd_value /\ exists t, json_text odd_value = Some t /\ json_parse t = Some odd_value.
Proof.
  assert (Hok : json_ok odd_value).
  { cbn. repeat split; try (repeat constructor; lia); try reflexivity; try exact I.
    exists 12. split; [lia|reflexivity]. }
  split; [exact Hok|]. apply json_parse_text, Hok.
Defined.


Lemma timestamp_order_witness :
  timestamp_text 1700000000 = js "2023-11-14 22:13:20" /\
  (1700000000 < 1700000001 <->
   str_lt (timestamp_text 1700000000) (timestamp_text 1700000001) = true).
Proof.
  split; [vm_compute; reflexivity|].
  apply timestamp_order; unfold max_time; lia.
Defined.

Lemma plain_segment_js (s : string) : s <> EmptyString -> Forall (fun c => c <> 47 /\ c <> 37) (js s) ->
  js s <> js "." -> js s <> js ".." -> plain_segment (js s).
Proof. intros Hs Hc H1 H2. split; [by destruct s|done]. Qed.

Lemma db_path_spec_witness :
  db_path (mkUrl (js "file:") [] (js "/srv/app/src/db.ts")) = Ok (js "/srv/app/data.sqlite").
Proof.
  apply (db_path_spec [js "srv"; js "app"; js "src"] (js "db.ts")).
  cbn [app]. repeat (constructor; [apply plain_segment_js;
    first [discriminate | vm_compute; discriminate | vm_compute; repeat constructor; lia]|]). constructor.
Defined.

Lemma listen_port_spec_witness :
  0 <= 0 < 2 ^ 53 /\ 44 ∈ js "8,080" /\
  listen_port (Some (dec_string 0)) = of_Z 0 /\ listen_port (Some (js "8,080")) = NaN.
Proof.
  assert (Hc : 44 ∈ js "8,080") by (apply list_elem_of_further, list_elem_of_here).
  pose proof (listen_port_spec 0 (js "8,080")) as (_ & _ & H1 & H2).
  split; [lia|]. split; [exact Hc|]. split; [apply H1; lia|exact (H2 Hc)].
Defined.

Lemma decode_bad_escape_witness :
  ~ escaped (js "zz") /\ decode (js "a%E0%" ++ 37 :: js "zz") = None.
Proof.
  assert (H : ~ escaped (js "zz")).
  { intros (h & l & r & E & Hh & _). vm_compute in E. injection E as <- <- <-. unfold hex_digit in Hh. lia. }
  split; [exact H|]. by apply decode_bad_escape.
Defined.

End Examples.
